(** * node-hill: the world model of the Brick Hill game server

    A shallow embedding of the server's entity classes (Brick, Player,
    SoundEmitter), of the brick serializer and of the .brk map loader,
    with the properties of the specification proved about them.

    Conventions of the embedding:
    - a JavaScript number is an IEEE 754 binary64 value, i.e. a primitive
      [float]; [Date.now()] readings and the static id counters hold
      integers and are kept in [Z];
    - a JavaScript string is a [string] (code units 0..255);
    - objects that are shared by reference (players, bricks, tools, sound
      emitters, timers) are named by a [ref] and live in a store;
    - an asynchronous method is run to completion; a packet handed to the
      packet builder and an event handed to [emit] are appended to a log,
      listeners being observers that do not write to the modelled state. *)

From Stdlib Require Import ZArith List String Ascii Bool Lia.
From Stdlib Require Import PrimFloat FloatAxioms SpecFloat.
From stdpp Require Import base functions gmap sets list strings.

Local Open Scope string_scope.
Local Open Scope Z_scope.

(** Object identities and timer handles. *)
Abbreviation ref := nat (only parsing).
Abbreviation timer := nat (only parsing).

(** ** JavaScript numbers and values *)
Module JS.

(** [ToBoolean] on a number: [0], [-0] and [NaN] are falsy. *)
Definition truthy (f : float) : bool := negb (is_zero f || is_nan f).

(** [a != b] on numbers. *)
Definition neq (a b : float) : bool := negb (a =? b)%float.

(** [a >= b] on numbers (false as soon as one side is [NaN]). *)
Definition geq (a b : float) : bool := (b <=? a)%float.

(** A field that the code fills with a number, a string or nothing. *)
Inductive value :=
| Undefined
| Num (f : float)
| Str (s : string).

(** [c += 1] on a static counter.  The counters hold non-negative
    integers: the addition is exact below 2^53 and leaves 2^53 itself
    unchanged (the sum is a tie, rounded to the even neighbour). *)
Definition incr (c : Z) : Z := if c <? 2 ^ 53 then c + 1 else c.

(** The outcome of a promise. *)
Inductive promise (A : Type) :=
| Resolved (a : A)
| Rejected (reason : string).
Arguments Resolved {A} a.
Arguments Rejected {A} reason.

Definition bind' {A B} (k : A -> promise B) (m : promise A) : promise B :=
  match m with
  | Resolved a => k a
  | Rejected r => Rejected r
  end.

End JS.

(** [await] is sequencing in the promise monad: [x ← m; k]. *)
#[global] Instance promise_ret : MRet JS.promise := @JS.Resolved.
#[global] Instance promise_bind : MBind JS.promise := @JS.bind'.

(** ** Arrays *)

(** [l.indexOf(x)], with [None] for -1. *)
Definition indexOf `{EqDecision A} (x : A) (l : list A) : option nat :=
  fst <$> list_find (fun y => y = x) l.

(** [index = l.indexOf(x); if (index !== -1) l.splice(index, 1)] *)
Definition remove_at_indexOf `{EqDecision A} (x : A) (l : list A) : list A :=
  match indexOf x l with
  | Some index => delete index l
  | None => l
  end.

(** The array that a script hands to a method which takes elements out
    of a collection of its object: that collection itself, or another
    array. *)
Inductive array_argument (A : Type) :=
| Itself
| Another (l : list A).
Arguments Itself {A}.
Arguments Another {A} l.

(** The elements of an array at the positions 0, 2, 4, ... and at the
    positions 1, 3, 5, ... *)
Fixpoint at_even {A} (l : list A) : list A :=
  match l with
  | a :: _ :: rest => a :: at_even rest
  | l => l
  end.

Fixpoint at_odd {A} (l : list A) : list A :=
  match l with
  | _ :: b :: rest => b :: at_odd rest
  | _ => []
  end.

(** ** Vector3 *)
Module Vector3.

(** Modelled from the spec: the Vector3 class is not among the sources.
    It is the "3-float vector" of the specification: three number
    components, a constructor whose arguments default to 0, a copy
    ([fromVector]) and a componentwise comparison ([equalsVector]). *)
Record t := new { x : float; y : float; z : float }.

Definition zero : t := new 0 0 0.

Definition fromVector (v : t) : t := new (x v) (y v) (z v).

Definition equalsVector (a b : t) : bool :=
  (x a =? x b)%float && (y a =? y b)%float && (z a =? z b)%float.

Definition set_x (v : float) (a : t) : t := new v (y a) (z a).
Definition set_y (v : float) (a : t) : t := new (x a) v (z a).
Definition set_z (v : float) (a : t) : t := new (x a) (y a) v.

End Vector3.

(** ** The static id counters of the three entity classes *)
Record Statics := {
  brickId : Z;          (* Brick.brickId *)
  playerId : Z;         (* Player.playerId *)
  soundEmitterId : Z    (* SoundEmitter.soundEmitterId *)
}.

Definition process_start : Statics :=
  {| brickId := 0; playerId := 0; soundEmitterId := 0 |}.

(** How a built packet is addressed. *)
Inductive addressing :=
| Send                  (* .send(this.socket) *)
| Broadcast             (* .broadcast() *)
| BroadcastExceptSelf.  (* .broadcastExcept([this]) *)

(** ** Player *)
Module Player.

(** The fields of a session that the modelled methods read or write. *)
Record t := {
  netId : Z;
  _steps : list timer;
  _positionDeltaTime : Z;
  destroyed : bool;
  position : Vector3.t;
  rotation : Vector3.t;
  scale : Vector3.t;
  cameraRotation : Vector3.t;
  alive : bool;
  inventory : list ref;
  toolEquipped : option ref;
  localBricks : list ref
}.

Definition set_positionDeltaTime (v : Z) (p : t) : t :=
  {| netId := netId p; _steps := _steps p; _positionDeltaTime := v;
     destroyed := destroyed p; position := position p;
     rotation := rotation p; scale := scale p;
     cameraRotation := cameraRotation p; alive := alive p;
     inventory := inventory p; toolEquipped := toolEquipped p;
     localBricks := localBricks p |}.
Definition set_destroyed (v : bool) (p : t) : t :=
  {| netId := netId p; _steps := _steps p;
     _positionDeltaTime := _positionDeltaTime p; destroyed := v;
     position := position p; rotation := rotation p; scale := scale p;
     cameraRotation := cameraRotation p; alive := alive p;
     inventory := inventory p; toolEquipped := toolEquipped p;
     localBricks := localBricks p |}.
Definition set_position (v : Vector3.t) (p : t) : t :=
  {| netId := netId p; _steps := _steps p;
     _positionDeltaTime := _positionDeltaTime p; destroyed := destroyed p;
     position := v; rotation := rotation p; scale := scale p;
     cameraRotation := cameraRotation p; alive := alive p;
     inventory := inventory p; toolEquipped := toolEquipped p;
     localBricks := localBricks p |}.
Definition set_rotation (v : Vector3.t) (p : t) : t :=
  {| netId := netId p; _steps := _steps p;
     _positionDeltaTime := _positionDeltaTime p; destroyed := destroyed p;
     position := position p; rotation := v; scale := scale p;
     cameraRotation := cameraRotation p; alive := alive p;
     inventory := inventory p; toolEquipped := toolEquipped p;
     localBricks := localBricks p |}.
Definition set_cameraRotation (v : Vector3.t) (p : t) : t :=
  {| netId := netId p; _steps := _steps p;
     _positionDeltaTime := _positionDeltaTime p; destroyed := destroyed p;
     position := position p; rotation := rotation p; scale := scale p;
     cameraRotation := v; alive := alive p; inventory := inventory p;
     toolEquipped := toolEquipped p; localBricks := localBricks p |}.
Definition set_alive (v : bool) (p : t) : t :=
  {| netId := netId p; _steps := _steps p;
     _positionDeltaTime := _positionDeltaTime p; destroyed := destroyed p;
     position := position p; rotation := rotation p; scale := scale p;
     cameraRotation := cameraRotation p; alive := v;
     inventory := inventory p; toolEquipped := toolEquipped p;
     localBricks := localBricks p |}.
Definition set_inventory (v : list ref) (p : t) : t :=
  {| netId := netId p; _steps := _steps p;
     _positionDeltaTime := _positionDeltaTime p; destroyed := destroyed p;
     position := position p; rotation := rotation p; scale := scale p;
     cameraRotation := cameraRotation p; alive := alive p; inventory := v;
     toolEquipped := toolEquipped p; localBricks := localBricks p |}.
Definition set_toolEquipped (v : option ref) (p : t) : t :=
  {| netId := netId p; _steps := _steps p;
     _positionDeltaTime := _positionDeltaTime p; destroyed := destroyed p;
     position := position p; rotation := rotation p; scale := scale p;
     cameraRotation := cameraRotation p; alive := alive p;
     inventory := inventory p; toolEquipped := v;
     localBricks := localBricks p |}.
Definition set_localBricks (v : list ref) (p : t) : t :=
  {| netId := netId p; _steps := _steps p;
     _positionDeltaTime := _positionDeltaTime p; destroyed := destroyed p;
     position := position p; rotation := rotation p; scale := scale p;
     cameraRotation := cameraRotation p; alive := alive p;
     inventory := inventory p; toolEquipped := toolEquipped p;
     localBricks := v |}.

(** Effects of the modelled Player methods, in program order. *)
Inductive effect :=
| EmitMoved (pos : Vector3.t) (rotz : float)
    (* this.emit("moved", this.position, this.rotation.z) *)
| EmitTool (tool : ref) (event : string)
    (* tool.emit(event, this) *)
| PlayerIds (snapshot : t) (ids : string) (to : addressing)
    (* createPlayerIds(this, ids), then addressed *)
| AssetIds (snapshot : t) (ids : string) (to : addressing)
    (* createAssetIds(this, ids), then addressed *)
| ToolPacket (tool : ref) (to : addressing).
    (* scripts.toolPacket.create(tool), then addressed *)

(** [new Player(socket)], the constructor read at time [now]. *)
Definition constructor (st : Statics) (now : Z) : Statics * t :=
  let playerId' := JS.incr (playerId st) in
  ({| brickId := brickId st; playerId := playerId';
      soundEmitterId := soundEmitterId st |},
   {| netId := playerId';
      localBricks := [];
      _steps := [];
      _positionDeltaTime := now;
      inventory := [];
      destroyed := false;
      position := Vector3.new 0 0 0;
      rotation := Vector3.new 0 0 0;
      scale := Vector3.new 1 1 1;
      cameraRotation := Vector3.new 0 0 0;
      alive := false;
      toolEquipped := None |}).

(** *** Position updates *)

(** [pos[i] && cur != pos[i]]: the incoming value is present, truthy and
    differs from the stored one. *)
Definition changed (incoming : option float) (cur : float) : bool :=
  match incoming with
  | Some v => JS.truthy v && JS.neq cur v
  | None => false
  end.

(** The value written by [field = pos[i]] in a branch guarded by
    [changed]. *)
Definition incoming_or (incoming : option float) (cur : float) : float :=
  match incoming with
  | Some v => v
  | None => cur
  end.

(** [_updatePositionForOthers(pos)].  [now1] and [now2] are the two
    readings of [Date.now()], the first in the throttle test and the
    second in the assignment. *)
Definition _updatePositionForOthers (now1 now2 : Z) (pos : list float)
    (p : t) : t * list effect :=
  if now1 - _positionDeltaTime p <? 50 then (p, [])
  else
    let p := set_positionDeltaTime now2 p in
    let idBuffer := "" in
    let c := changed (pos !! 0%nat) (Vector3.x (position p)) in
    let idBuffer := if c then idBuffer ++ "A" else idBuffer in
    let p := if c then
               set_position
                 (Vector3.set_x (incoming_or (pos !! 0%nat) 0) (position p)) p
             else p in
    let c := changed (pos !! 1%nat) (Vector3.y (position p)) in
    let idBuffer := if c then idBuffer ++ "B" else idBuffer in
    let p := if c then
               set_position
                 (Vector3.set_y (incoming_or (pos !! 1%nat) 0) (position p)) p
             else p in
    let c := changed (pos !! 2%nat) (Vector3.z (position p)) in
    let idBuffer := if c then idBuffer ++ "C" else idBuffer in
    let p := if c then
               set_position
                 (Vector3.set_z (incoming_or (pos !! 2%nat) 0) (position p)) p
             else p in
    let c := changed (pos !! 3%nat) (Vector3.z (rotation p)) in
    let idBuffer := if c then idBuffer ++ "F" else idBuffer in
    let p := if c then
               set_rotation
                 (Vector3.set_z (incoming_or (pos !! 3%nat) 0) (rotation p)) p
             else p in
    let c := changed (pos !! 4%nat) (Vector3.x (rotation p)) in
    let p := if c then
               set_cameraRotation
                 (Vector3.set_x (incoming_or (pos !! 4%nat) 0)
                    (cameraRotation p)) p
             else p in
    if negb (String.length idBuffer =? 0)%nat then
      (p, [EmitMoved (position p) (Vector3.z (rotation p));
           PlayerIds p idBuffer BroadcastExceptSelf])
    else (p, []).

(** The five coordinates of a position packet: where each is stored, and
    the tag that names it in [idBuffer] (the camera pitch has none). *)
Definition axis_value (i : nat) (p : t) : option float :=
  match i with
  | 0%nat => Some (Vector3.x (position p))
  | 1%nat => Some (Vector3.y (position p))
  | 2%nat => Some (Vector3.z (position p))
  | 3%nat => Some (Vector3.z (rotation p))
  | 4%nat => Some (Vector3.x (cameraRotation p))
  | _ => None
  end.

Definition axis_tag (i : nat) : option ascii :=
  match i with
  | 0%nat => Some "A"%char
  | 1%nat => Some "B"%char
  | 2%nat => Some "C"%char
  | 3%nat => Some "F"%char
  | _ => None
  end.

(** The four tag decisions of an update, against the stored values, and
    the id string that they spell. *)
Definition tag_decision (pos : list float) (p : t) (i : nat) : bool :=
  match i, axis_value i p with
  | (0 | 1 | 2 | 3)%nat, Some cur => changed (pos !! i) cur
  | _, _ => false
  end.

Definition tag_string (pos : list float) (p : t) : string :=
  (if tag_decision pos p 0 then "A" else "")
  ++ (if tag_decision pos p 1 then "B" else "")
  ++ (if tag_decision pos p 2 then "C" else "")
  ++ (if tag_decision pos p 3 then "F" else "").

(** The characters of an id string. *)
Definition tags (ids : string) : list ascii := list_ascii_of_string ids.

(** [setPosition(position)] *)
Definition setPosition (pos : Vector3.t) (p : t) : t * list effect :=
  let p := set_position (Vector3.fromVector pos) p in
  (p, [EmitMoved (position p) (Vector3.z (rotation p));
       PlayerIds p "ABCF" Broadcast]).

(** A run of the calls that move a player: the position packets of the
    client, each with its two clock readings and the decoded [pos] array,
    and the calls of [setPosition] that scripts make in between.  The
    trace keeps, per call, the player before and after it and the effects
    of the call. *)
Record call := { t_check : Z; t_store : Z; pos : list float }.

Inductive move :=
| Packet (c : call)                (* _updatePositionForOthers(pos) *)
| Script (position : Vector3.t).   (* setPosition(position) *)

Record step := {
  before : t;
  the_move : move;
  after : t;
  effects : list effect
}.

Definition move_step (p : t) (m : move) : t * list effect :=
  match m with
  | Packet c => _updatePositionForOthers (t_check c) (t_store c) (pos c) p
  | Script position => setPosition position p
  end.

Fixpoint run (p : t) (moves : list move) : list step :=
  match moves with
  | [] => []
  | m :: rest =>
      let '(p', log) := move_step p m in
      {| before := p; the_move := m; after := p'; effects := log |}
        :: run p' rest
  end.

(** The clock does not run backwards: the readings of [Date.now()] of a
    run, in order, never decrease, starting from the reading [last]
    ([setPosition] does not read the clock). *)
Fixpoint clock_monotone (last : Z) (moves : list move) : Prop :=
  match moves with
  | [] => True
  | Packet c :: rest =>
      last <= t_check c /\ t_check c <= t_store c
      /\ clock_monotone (t_store c) rest
  | Script _ :: rest => clock_monotone last rest
  end.

(** The step is the position packet [c], and it sent a packet on to the
    other players. *)
Definition broadcasts (s : step) (c : call) : Prop :=
  the_move s = Packet c
  /\ exists snapshot ids to, PlayerIds snapshot ids to ∈ effects s.

(** *** Tools *)

(** [addTool(tool)] *)
Definition addTool (tool : ref) (p : t) : JS.promise (t * list effect) :=
  if bool_decide (tool ∈ inventory p) then
    JS.Rejected "Player already has tool equipped."
  else
    let p := set_inventory (inventory p ++ [tool])%list p in
    JS.Resolved (p, [ToolPacket tool Send]).

(** [unequipTool(tool)] *)
Definition unequipTool (tool : ref) (p : t) : t * list effect :=
  if negb (bool_decide (toolEquipped p = Some tool)) then (p, [])
  else
    let p := set_toolEquipped None p in
    (p, [EmitTool tool "unequipped"; PlayerIds p "h" Broadcast]).

(** [equipTool(tool)] *)
Definition equipTool (tool : ref) (p : t) : JS.promise (t * list effect) :=
  '(p, log) ← (if negb (bool_decide (tool ∈ inventory p)) then addTool tool p
               else JS.Resolved (p, []));
  let currentTool := toolEquipped p in
  if bool_decide (currentTool = Some tool) then
    let '(p, log') := unequipTool tool p in
    JS.Resolved (p, (log ++ log')%list)
  else
    let '(p, log') :=
      match currentTool with
      | Some old => unequipTool old p
      | None => (p, [])
      end in
    let p := set_toolEquipped (Some tool) p in
    JS.Resolved
      (p, (log ++ log' ++
           [EmitTool tool "equipped"; AssetIds p "g" Broadcast])%list).

(** The tool in hand after the "equipped" and "unequipped" events of a
    log, starting with [held] in hand.  The replay fails ([None]) when a
    tool is equipped while another is in hand, or when the tool that is
    unequipped is not the one in hand. *)
Fixpoint replay (held : option ref) (log : list effect)
    : option (option ref) :=
  match log with
  | [] => Some held
  | EmitTool tool event :: log =>
      if String.eqb event "equipped" then
        match held with
        | None => replay (Some tool) log
        | Some _ => None
        end
      else if String.eqb event "unequipped" then
        if bool_decide (held = Some tool) then replay None log else None
      else replay held log
  | _ :: log => replay held log
  end.

(** [removeTool(tool)].  Besides the effects of [unequipTool], the packet
    of [scripts.toolPacket.destroy(tool)] is sent to the socket. *)
Inductive tool_effect :=
| Effect (e : effect)
| ToolDestroyPacket (tool : ref) (to : addressing).

Definition removeTool (tool : ref) (p : t) : t * list tool_effect :=
  match indexOf tool (inventory p) with
  | None => (p, [])   (* Tool not found. *)
  | Some index =>
      let p := set_inventory (delete index (inventory p)) p in
      let '(p, log) := unequipTool tool p in
      (p, (map Effect log ++ [ToolDestroyPacket tool Send])%list)
  end.

(** The calls of the tool methods a script can make on a session, and
    the session after a call that was awaited: the call has run to its
    end before anything else touches the session.  A call that is
    rejected leaves the session as it is. *)
Inductive tool_call :=
| AddTool (tool : ref)
| RemoveTool (tool : ref)
| EquipTool (tool : ref)
| UnequipTool (tool : ref).

Definition tool_step (p : t) (c : tool_call) : t :=
  match c with
  | AddTool tool =>
      match addTool tool p with
      | JS.Resolved (p, _) => p
      | JS.Rejected _ => p
      end
  | RemoveTool tool => fst (removeTool tool p)
  | EquipTool tool =>
      match equipTool tool p with
      | JS.Resolved (p, _) => p
      | JS.Rejected _ => p
      end
  | UnequipTool tool => fst (unequipTool tool p)
  end.

(** *** Tool calls that are not awaited *)

(** The tool methods are asynchronous.  A call runs at once up to its
    first [await]; the rest of it runs later, when what it waits for has
    settled, and the calls made in between find the session as the first
    part left it.  The parts of a call that run after an [await]: *)
Inductive segment :=
| ToolPacketSend (tool : ref)
    (* addTool: toolPacket.send(this.socket),
       after await scripts.toolPacket.create(tool) *)
| Switch (tool : ref)
    (* equipTool: from const currentTool = this.toolEquipped on,
       after await this.addTool(tool) *)
| Equip (tool : ref)
    (* equipTool: from this.toolEquipped = tool on,
       after await this.unequipTool(currentTool) *)
| AssetBroadcast (snapshot : t).
    (* equipTool: packet.broadcast(), after await createAssetIds(this, "g") *)

(** [equipTool] from [this.toolEquipped = tool] to its next [await]. *)
Definition equip_segment (tool : ref) (p : t)
    : t * list tool_effect * list segment :=
  let p := set_toolEquipped (Some tool) p in
  (p, [Effect (EmitTool tool "equipped")], [AssetBroadcast p]).

(** [equipTool] from [const currentTool = this.toolEquipped] to its next
    [await]; there is none on the way to [this.toolEquipped = tool] when
    no tool is in hand. *)
Definition switch_segment (tool : ref) (p : t)
    : t * list tool_effect * list segment :=
  let currentTool := toolEquipped p in
  if bool_decide (currentTool = Some tool) then
    let '(p, log) := unequipTool tool p in (p, map Effect log, [])
  else
    match currentTool with
    | Some old =>
        let '(p, log) := unequipTool old p in
        (p, map Effect log, [Equip tool])
    | None => equip_segment tool p
    end.

(** A call up to its first [await]: the session, the effects, and the
    parts of the call that are still to run. *)
Definition start (c : tool_call) (p : t)
    : t * list tool_effect * list segment :=
  match c with
  | AddTool tool =>
      if bool_decide (tool ∈ inventory p) then (p, [], [])
      else
        (set_inventory (inventory p ++ [tool])%list p, [],
         [ToolPacketSend tool])
  | RemoveTool tool =>
      let '(p, log) := removeTool tool p in (p, log, [])
  | EquipTool tool =>
      if negb (bool_decide (tool ∈ inventory p)) then
        (set_inventory (inventory p ++ [tool])%list p, [],
         [ToolPacketSend tool; Switch tool])
      else switch_segment tool p
  | UnequipTool tool =>
      let '(p, log) := unequipTool tool p in (p, map Effect log, [])
  end.

(** A part of a call, from the [await] it was waiting at to the next. *)
Definition resume (s : segment) (p : t)
    : t * list tool_effect * list segment :=
  match s with
  | ToolPacketSend tool => (p, [Effect (ToolPacket tool Send)], [])
  | Switch tool => switch_segment tool p
  | Equip tool => equip_segment tool p
  | AssetBroadcast snapshot =>
      (p, [Effect (AssetIds snapshot "g" Broadcast)], [])
  end.

(** What happens to a session: a script calls a tool method, or the call
    number [i] goes on from the [await] it is waiting at. *)
Inductive action :=
| Call (c : tool_call)
| Resume (i : nat).

(** The session, with the calls made so far: for each, the parts that
    are still to run. *)
Definition act (st : t * list (list segment)) (a : action)
    : t * list (list segment) :=
  let '(p, calls) := st in
  match a with
  | Call c =>
      let '(p, _, rest) := start c p in (p, (calls ++ [rest])%list)
  | Resume i =>
      match calls !! i with
      | Some (s :: rest) =>
          let '(p, _, more) := resume s p in
          (p, <[i := (more ++ rest)%list]> calls)
      | _ => (p, calls)
      end
  end.

(** A call that is awaited: its parts run one after the other, and
    nothing else touches the session in between.  No call has more than
    four parts after its first. *)
Fixpoint finish (fuel : nat) (p : t) (rest : list segment)
    : t * list segment :=
  match fuel, rest with
  | S fuel, s :: rest =>
      let '(p, _, more) := resume s p in finish fuel p (more ++ rest)%list
  | _, _ => (p, rest)
  end.

Definition awaited (c : tool_call) (p : t) : t * list segment :=
  let '(p, _, rest) := start c p in finish 4 p rest.

(** The loop of [deleteBricks] when the array it runs over is
    [this.localBricks] itself.  [for (const brick of bricks)] reads the
    array by position, as it is at each step, and stops at its end; the
    body takes elements out of the same array.  [i] is the position that
    is read next. *)
Fixpoint deleteBricks_own (fuel i : nat) (localBricks : list ref)
    : list ref :=
  match fuel with
  | O => localBricks
  | S fuel =>
      match localBricks !! i with
      | None => localBricks
      | Some brick =>
          deleteBricks_own fuel (S i) (remove_at_indexOf brick localBricks)
      end
  end.

(** [deleteBricks(bricks)]: the session after the loop, and the array as
    [scripts.deleteBricks(bricks)] finds it, whose packet is sent to the
    socket. *)
Definition deleteBricks (bricks : array_argument ref) (p : t)
    : t * list ref :=
  match bricks with
  | Another bricks =>
      (fold_left
         (fun p brick =>
            set_localBricks (remove_at_indexOf brick (localBricks p)) p)
         bricks p,
       bricks)
  | Itself =>
      let l :=
        deleteBricks_own (length (localBricks p)) 0 (localBricks p) in
      (set_localBricks l p, l)
  end.

(** *** Health *)

(** A session with the health, spawn and camera fields that [kill],
    [setHealth] and [respawn] work on ([cameraRotation] is a field of
    the session itself). *)
Record living := {
  session : t;
  maxHealth : float;
  health : float;
  spawnPosition : option Vector3.t;
  cameraType : string;
  cameraObject : ref;
  cameraPosition : Vector3.t;
  cameraFOV : float
}.

Definition set_session (v : t) (p : living) : living :=
  {| session := v; maxHealth := maxHealth p; health := health p;
     spawnPosition := spawnPosition p; cameraType := cameraType p;
     cameraObject := cameraObject p; cameraPosition := cameraPosition p;
     cameraFOV := cameraFOV p |}.
Definition set_health (v : float) (p : living) : living :=
  {| session := session p; maxHealth := maxHealth p; health := v;
     spawnPosition := spawnPosition p; cameraType := cameraType p;
     cameraObject := cameraObject p; cameraPosition := cameraPosition p;
     cameraFOV := cameraFOV p |}.
Definition set_cameraType (v : string) (p : living) : living :=
  {| session := session p; maxHealth := maxHealth p; health := health p;
     spawnPosition := spawnPosition p; cameraType := v;
     cameraObject := cameraObject p; cameraPosition := cameraPosition p;
     cameraFOV := cameraFOV p |}.
Definition set_cameraObject (v : ref) (p : living) : living :=
  {| session := session p; maxHealth := maxHealth p; health := health p;
     spawnPosition := spawnPosition p; cameraType := cameraType p;
     cameraObject := v; cameraPosition := cameraPosition p;
     cameraFOV := cameraFOV p |}.
Definition set_cameraPosition (v : Vector3.t) (p : living) : living :=
  {| session := session p; maxHealth := maxHealth p; health := health p;
     spawnPosition := spawnPosition p; cameraType := cameraType p;
     cameraObject := cameraObject p; cameraPosition := v;
     cameraFOV := cameraFOV p |}.
Definition set_cameraFOV (v : float) (p : living) : living :=
  {| session := session p; maxHealth := maxHealth p; health := health p;
     spawnPosition := spawnPosition p; cameraType := cameraType p;
     cameraObject := cameraObject p; cameraPosition := cameraPosition p;
     cameraFOV := v |}.

Inductive health_effect :=
| KillPacket (netId : Z) (dead : bool) (to : addressing)
    (* new PacketBuilder(Kill).write("uint32", netId).write("bool", dead) *)
| HealthIds (health : float) (to : addressing)
    (* createPlayerIds(this, "e"), with the health it is built from *)
| EmitDied.
    (* this.emit("died") *)

(** [kill()] *)
Definition kill (p : living) : living * list health_effect :=
  if negb (alive (session p)) then (p, [])
  else
    let p := set_session (set_alive false (session p)) p in
    let p := set_health 0 p in
    (p, [KillPacket (netId (session p)) true Broadcast;
         HealthIds (health p) Send; EmitDied]).

(** [setHealth(health)] *)
Definition setHealth (h : float) (p : living) : living * list health_effect :=
  if (h <=? 0)%float && alive (session p) then kill p
  else
    let p := if (maxHealth p <? h)%float then set_health (maxHealth p) p
             else p in
    let p := set_health h p in
    (p, [HealthIds (health p) Send]).

(** The calls of the two methods, and a run of them with its events. *)
Inductive health_call :=
| Kill
| SetHealth (h : float).

Definition health_step (p : living) (c : health_call)
    : living * list health_effect :=
  match c with
  | Kill => kill p
  | SetHealth h => setHealth h p
  end.

Fixpoint health_run (p : living) (calls : list health_call)
    : living * list health_effect :=
  match calls with
  | [] => (p, [])
  | c :: calls =>
      let '(p, log) := health_step p c in
      let '(p, log') := health_run p calls in
      (p, (log ++ log')%list)
  end.

(** How often "died" is emitted in a log. *)
Definition deaths (log : list health_effect) : nat :=
  length (List.filter
            (fun e => match e with EmitDied => true | _ => false end) log).

(** The tool in hand is one of the inventory, which holds no tool
    twice. *)
Definition tools_consistent (p : t) : Prop :=
  NoDup (inventory p)
  /\ forall tool, toolEquipped p = Some tool -> tool ∈ inventory p.

(** A live player never has a health that is [<= 0]. *)
Definition health_inv (p : living) : Prop :=
  alive (session p) = true -> (health p <=? 0)%float = false.

(** *** Respawning *)

Inductive life_effect :=
| Session (e : effect)
| Health (e : health_effect)
| LifeIds (snapshot : living) (ids : string) (to : addressing)
    (* createPlayerIds(this, ids), then addressed *)
| EmitRespawn.
    (* this.emit("respawn") *)

(** [respawn()] on the player object [this].  [chosen] is the value of
    [await this.spawnHandler(this) || scripts.pickSpawn()], which is read
    when no [spawnPosition] is set. *)
Definition respawn (this : ref) (chosen : Vector3.t) (p : living)
    : living * list life_effect :=
  let newSpawnPosition :=
    match spawnPosition p with
    | Some v => v
    | None => chosen
    end in
  let '(s, log) := setPosition newSpawnPosition (session p) in
  let p := set_session s p in
  let p := set_session (set_alive true (session p)) p in
  let p := set_health (maxHealth p) p in
  let p := set_cameraType "orbit" p in
  let p := set_cameraObject this p in
  let p := set_cameraPosition (Vector3.new 0 0 0) p in
  let p := set_session (set_cameraRotation (Vector3.new 0 0 0) (session p)) p in
  let p := set_cameraFOV 60 p in
  let p := set_session (set_toolEquipped None (session p)) p in
  (p, (map Session log
       ++ [Health (KillPacket (netId (session p)) false Broadcast);
           LifeIds p "ebc56789a3h" Send;
           EmitRespawn])%list).

(** The events that the tools of a log receive. *)
Definition tool_events (log : list life_effect) : list effect :=
  omap (fun e => match e with
                 | Session (EmitTool tool event) => Some (EmitTool tool event)
                 | _ => None
                 end) log.

End Player.

(** ** Brick *)
Module Brick.

Record t := {
  name : option string;
  color : string;
  position : Vector3.t;
  scale : Vector3.t;
  lightEnabled : bool;
  lightColor : string;
  lightRange : JS.value;
  visibility : float;
  destroyed : bool;
  netId : option Z;
  collision : bool;
  rotation : Vector3.t;
  model : option float;
  clickable : bool;
  clickDistance : float;
  socket : option ref;          (* the player of the attached socket *)
  shape : option string;
  _hitMonitor : option timer;
  _hitMonitorSpeed : Z;
  _hitMonitorActive : bool;
  _playersTouching : gset ref;
  _steps : list timer;
  _events : list string         (* one entry per registered listener *)
}.

Definition set_name (v : option string) (b : t) : t :=
  {| name := v; color := color b; position := position b; scale := scale b;
     lightEnabled := lightEnabled b; lightColor := lightColor b;
     lightRange := lightRange b; visibility := visibility b;
     destroyed := destroyed b; netId := netId b; collision := collision b;
     rotation := rotation b; model := model b; clickable := clickable b;
     clickDistance := clickDistance b; socket := socket b; shape := shape b;
     _hitMonitor := _hitMonitor b; _hitMonitorSpeed := _hitMonitorSpeed b;
     _hitMonitorActive := _hitMonitorActive b;
     _playersTouching := _playersTouching b; _steps := _steps b;
     _events := _events b |}.
Definition set_color (v : string) (b : t) : t :=
  {| name := name b; color := v; position := position b; scale := scale b;
     lightEnabled := lightEnabled b; lightColor := lightColor b;
     lightRange := lightRange b; visibility := visibility b;
     destroyed := destroyed b; netId := netId b; collision := collision b;
     rotation := rotation b; model := model b; clickable := clickable b;
     clickDistance := clickDistance b; socket := socket b; shape := shape b;
     _hitMonitor := _hitMonitor b; _hitMonitorSpeed := _hitMonitorSpeed b;
     _hitMonitorActive := _hitMonitorActive b;
     _playersTouching := _playersTouching b; _steps := _steps b;
     _events := _events b |}.
Definition set_position (v : Vector3.t) (b : t) : t :=
  {| name := name b; color := color b; position := v; scale := scale b;
     lightEnabled := lightEnabled b; lightColor := lightColor b;
     lightRange := lightRange b; visibility := visibility b;
     destroyed := destroyed b; netId := netId b; collision := collision b;
     rotation := rotation b; model := model b; clickable := clickable b;
     clickDistance := clickDistance b; socket := socket b; shape := shape b;
     _hitMonitor := _hitMonitor b; _hitMonitorSpeed := _hitMonitorSpeed b;
     _hitMonitorActive := _hitMonitorActive b;
     _playersTouching := _playersTouching b; _steps := _steps b;
     _events := _events b |}.
Definition set_scale (v : Vector3.t) (b : t) : t :=
  {| name := name b; color := color b; position := position b; scale := v;
     lightEnabled := lightEnabled b; lightColor := lightColor b;
     lightRange := lightRange b; visibility := visibility b;
     destroyed := destroyed b; netId := netId b; collision := collision b;
     rotation := rotation b; model := model b; clickable := clickable b;
     clickDistance := clickDistance b; socket := socket b; shape := shape b;
     _hitMonitor := _hitMonitor b; _hitMonitorSpeed := _hitMonitorSpeed b;
     _hitMonitorActive := _hitMonitorActive b;
     _playersTouching := _playersTouching b; _steps := _steps b;
     _events := _events b |}.
Definition set_lightEnabled (v : bool) (b : t) : t :=
  {| name := name b; color := color b; position := position b;
     scale := scale b; lightEnabled := v; lightColor := lightColor b;
     lightRange := lightRange b; visibility := visibility b;
     destroyed := destroyed b; netId := netId b; collision := collision b;
     rotation := rotation b; model := model b; clickable := clickable b;
     clickDistance := clickDistance b; socket := socket b; shape := shape b;
     _hitMonitor := _hitMonitor b; _hitMonitorSpeed := _hitMonitorSpeed b;
     _hitMonitorActive := _hitMonitorActive b;
     _playersTouching := _playersTouching b; _steps := _steps b;
     _events := _events b |}.
Definition set_lightColor (v : string) (b : t) : t :=
  {| name := name b; color := color b; position := position b;
     scale := scale b; lightEnabled := lightEnabled b; lightColor := v;
     lightRange := lightRange b; visibility := visibility b;
     destroyed := destroyed b; netId := netId b; collision := collision b;
     rotation := rotation b; model := model b; clickable := clickable b;
     clickDistance := clickDistance b; socket := socket b; shape := shape b;
     _hitMonitor := _hitMonitor b; _hitMonitorSpeed := _hitMonitorSpeed b;
     _hitMonitorActive := _hitMonitorActive b;
     _playersTouching := _playersTouching b; _steps := _steps b;
     _events := _events b |}.
Definition set_lightRange (v : JS.value) (b : t) : t :=
  {| name := name b; color := color b; position := position b;
     scale := scale b; lightEnabled := lightEnabled b;
     lightColor := lightColor b; lightRange := v;
     visibility := visibility b; destroyed := destroyed b; netId := netId b;
     collision := collision b; rotation := rotation b; model := model b;
     clickable := clickable b; clickDistance := clickDistance b;
     socket := socket b; shape := shape b; _hitMonitor := _hitMonitor b;
     _hitMonitorSpeed := _hitMonitorSpeed b;
     _hitMonitorActive := _hitMonitorActive b;
     _playersTouching := _playersTouching b; _steps := _steps b;
     _events := _events b |}.
Definition set_visibility (v : float) (b : t) : t :=
  {| name := name b; color := color b; position := position b;
     scale := scale b; lightEnabled := lightEnabled b;
     lightColor := lightColor b; lightRange := lightRange b;
     visibility := v; destroyed := destroyed b; netId := netId b;
     collision := collision b; rotation := rotation b; model := model b;
     clickable := clickable b; clickDistance := clickDistance b;
     socket := socket b; shape := shape b; _hitMonitor := _hitMonitor b;
     _hitMonitorSpeed := _hitMonitorSpeed b;
     _hitMonitorActive := _hitMonitorActive b;
     _playersTouching := _playersTouching b; _steps := _steps b;
     _events := _events b |}.
Definition set_destroyed (v : bool) (b : t) : t :=
  {| name := name b; color := color b; position := position b;
     scale := scale b; lightEnabled := lightEnabled b;
     lightColor := lightColor b; lightRange := lightRange b;
     visibility := visibility b; destroyed := v; netId := netId b;
     collision := collision b; rotation := rotation b; model := model b;
     clickable := clickable b; clickDistance := clickDistance b;
     socket := socket b; shape := shape b; _hitMonitor := _hitMonitor b;
     _hitMonitorSpeed := _hitMonitorSpeed b;
     _hitMonitorActive := _hitMonitorActive b;
     _playersTouching := _playersTouching b; _steps := _steps b;
     _events := _events b |}.
Definition set_netId (v : option Z) (b : t) : t :=
  {| name := name b; color := color b; position := position b;
     scale := scale b; lightEnabled := lightEnabled b;
     lightColor := lightColor b; lightRange := lightRange b;
     visibility := visibility b; destroyed := destroyed b; netId := v;
     collision := collision b; rotation := rotation b; model := model b;
     clickable := clickable b; clickDistance := clickDistance b;
     socket := socket b; shape := shape b; _hitMonitor := _hitMonitor b;
     _hitMonitorSpeed := _hitMonitorSpeed b;
     _hitMonitorActive := _hitMonitorActive b;
     _playersTouching := _playersTouching b; _steps := _steps b;
     _events := _events b |}.
Definition set_collision (v : bool) (b : t) : t :=
  {| name := name b; color := color b; position := position b;
     scale := scale b; lightEnabled := lightEnabled b;
     lightColor := lightColor b; lightRange := lightRange b;
     visibility := visibility b; destroyed := destroyed b; netId := netId b;
     collision := v; rotation := rotation b; model := model b;
     clickable := clickable b; clickDistance := clickDistance b;
     socket := socket b; shape := shape b; _hitMonitor := _hitMonitor b;
     _hitMonitorSpeed := _hitMonitorSpeed b;
     _hitMonitorActive := _hitMonitorActive b;
     _playersTouching := _playersTouching b; _steps := _steps b;
     _events := _events b |}.
Definition set_rotation (v : Vector3.t) (b : t) : t :=
  {| name := name b; color := color b; position := position b;
     scale := scale b; lightEnabled := lightEnabled b;
     lightColor := lightColor b; lightRange := lightRange b;
     visibility := visibility b; destroyed := destroyed b; netId := netId b;
     collision := collision b; rotation := v; model := model b;
     clickable := clickable b; clickDistance := clickDistance b;
     socket := socket b; shape := shape b; _hitMonitor := _hitMonitor b;
     _hitMonitorSpeed := _hitMonitorSpeed b;
     _hitMonitorActive := _hitMonitorActive b;
     _playersTouching := _playersTouching b; _steps := _steps b;
     _events := _events b |}.
Definition set_model (v : option float) (b : t) : t :=
  {| name := name b; color := color b; position := position b;
     scale := scale b; lightEnabled := lightEnabled b;
     lightColor := lightColor b; lightRange := lightRange b;
     visibility := visibility b; destroyed := destroyed b; netId := netId b;
     collision := collision b; rotation := rotation b; model := v;
     clickable := clickable b; clickDistance := clickDistance b;
     socket := socket b; shape := shape b; _hitMonitor := _hitMonitor b;
     _hitMonitorSpeed := _hitMonitorSpeed b;
     _hitMonitorActive := _hitMonitorActive b;
     _playersTouching := _playersTouching b; _steps := _steps b;
     _events := _events b |}.
Definition set_clickable (v : bool) (b : t) : t :=
  {| name := name b; color := color b; position := position b;
     scale := scale b; lightEnabled := lightEnabled b;
     lightColor := lightColor b; lightRange := lightRange b;
     visibility := visibility b; destroyed := destroyed b; netId := netId b;
     collision := collision b; rotation := rotation b; model := model b;
     clickable := v; clickDistance := clickDistance b; socket := socket b;
     shape := shape b; _hitMonitor := _hitMonitor b;
     _hitMonitorSpeed := _hitMonitorSpeed b;
     _hitMonitorActive := _hitMonitorActive b;
     _playersTouching := _playersTouching b; _steps := _steps b;
     _events := _events b |}.
Definition set_clickDistance (v : float) (b : t) : t :=
  {| name := name b; color := color b; position := position b;
     scale := scale b; lightEnabled := lightEnabled b;
     lightColor := lightColor b; lightRange := lightRange b;
     visibility := visibility b; destroyed := destroyed b; netId := netId b;
     collision := collision b; rotation := rotation b; model := model b;
     clickable := clickable b; clickDistance := v; socket := socket b;
     shape := shape b; _hitMonitor := _hitMonitor b;
     _hitMonitorSpeed := _hitMonitorSpeed b;
     _hitMonitorActive := _hitMonitorActive b;
     _playersTouching := _playersTouching b; _steps := _steps b;
     _events := _events b |}.
Definition set_socket (v : option ref) (b : t) : t :=
  {| name := name b; color := color b; position := position b;
     scale := scale b; lightEnabled := lightEnabled b;
     lightColor := lightColor b; lightRange := lightRange b;
     visibility := visibility b; destroyed := destroyed b; netId := netId b;
     collision := collision b; rotation := rotation b; model := model b;
     clickable := clickable b; clickDistance := clickDistance b;
     socket := v; shape := shape b; _hitMonitor := _hitMonitor b;
     _hitMonitorSpeed := _hitMonitorSpeed b;
     _hitMonitorActive := _hitMonitorActive b;
     _playersTouching := _playersTouching b; _steps := _steps b;
     _events := _events b |}.
Definition set_shape (v : option string) (b : t) : t :=
  {| name := name b; color := color b; position := position b;
     scale := scale b; lightEnabled := lightEnabled b;
     lightColor := lightColor b; lightRange := lightRange b;
     visibility := visibility b; destroyed := destroyed b; netId := netId b;
     collision := collision b; rotation := rotation b; model := model b;
     clickable := clickable b; clickDistance := clickDistance b;
     socket := socket b; shape := v; _hitMonitor := _hitMonitor b;
     _hitMonitorSpeed := _hitMonitorSpeed b;
     _hitMonitorActive := _hitMonitorActive b;
     _playersTouching := _playersTouching b; _steps := _steps b;
     _events := _events b |}.
Definition set_hitMonitor (v : option timer) (b : t) : t :=
  {| name := name b; color := color b; position := position b;
     scale := scale b; lightEnabled := lightEnabled b;
     lightColor := lightColor b; lightRange := lightRange b;
     visibility := visibility b; destroyed := destroyed b; netId := netId b;
     collision := collision b; rotation := rotation b; model := model b;
     clickable := clickable b; clickDistance := clickDistance b;
     socket := socket b; shape := shape b; _hitMonitor := v;
     _hitMonitorSpeed := _hitMonitorSpeed b;
     _hitMonitorActive := _hitMonitorActive b;
     _playersTouching := _playersTouching b; _steps := _steps b;
     _events := _events b |}.
Definition set_hitMonitorSpeed (v : Z) (b : t) : t :=
  {| name := name b; color := color b; position := position b;
     scale := scale b; lightEnabled := lightEnabled b;
     lightColor := lightColor b; lightRange := lightRange b;
     visibility := visibility b; destroyed := destroyed b; netId := netId b;
     collision := collision b; rotation := rotation b; model := model b;
     clickable := clickable b; clickDistance := clickDistance b;
     socket := socket b; shape := shape b; _hitMonitor := _hitMonitor b;
     _hitMonitorSpeed := v; _hitMonitorActive := _hitMonitorActive b;
     _playersTouching := _playersTouching b; _steps := _steps b;
     _events := _events b |}.
Definition set_hitMonitorActive (v : bool) (b : t) : t :=
  {| name := name b; color := color b; position := position b;
     scale := scale b; lightEnabled := lightEnabled b;
     lightColor := lightColor b; lightRange := lightRange b;
     visibility := visibility b; destroyed := destroyed b; netId := netId b;
     collision := collision b; rotation := rotation b; model := model b;
     clickable := clickable b; clickDistance := clickDistance b;
     socket := socket b; shape := shape b; _hitMonitor := _hitMonitor b;
     _hitMonitorSpeed := _hitMonitorSpeed b; _hitMonitorActive := v;
     _playersTouching := _playersTouching b; _steps := _steps b;
     _events := _events b |}.
Definition set_playersTouching (v : gset ref) (b : t) : t :=
  {| name := name b; color := color b; position := position b;
     scale := scale b; lightEnabled := lightEnabled b;
     lightColor := lightColor b; lightRange := lightRange b;
     visibility := visibility b; destroyed := destroyed b; netId := netId b;
     collision := collision b; rotation := rotation b; model := model b;
     clickable := clickable b; clickDistance := clickDistance b;
     socket := socket b; shape := shape b; _hitMonitor := _hitMonitor b;
     _hitMonitorSpeed := _hitMonitorSpeed b;
     _hitMonitorActive := _hitMonitorActive b; _playersTouching := v;
     _steps := _steps b; _events := _events b |}.
Definition set_steps (v : list timer) (b : t) : t :=
  {| name := name b; color := color b; position := position b;
     scale := scale b; lightEnabled := lightEnabled b;
     lightColor := lightColor b; lightRange := lightRange b;
     visibility := visibility b; destroyed := destroyed b; netId := netId b;
     collision := collision b; rotation := rotation b; model := model b;
     clickable := clickable b; clickDistance := clickDistance b;
     socket := socket b; shape := shape b; _hitMonitor := _hitMonitor b;
     _hitMonitorSpeed := _hitMonitorSpeed b;
     _hitMonitorActive := _hitMonitorActive b;
     _playersTouching := _playersTouching b; _steps := v;
     _events := _events b |}.
Definition set_events (v : list string) (b : t) : t :=
  {| name := name b; color := color b; position := position b;
     scale := scale b; lightEnabled := lightEnabled b;
     lightColor := lightColor b; lightRange := lightRange b;
     visibility := visibility b; destroyed := destroyed b; netId := netId b;
     collision := collision b; rotation := rotation b; model := model b;
     clickable := clickable b; clickDistance := clickDistance b;
     socket := socket b; shape := shape b; _hitMonitor := _hitMonitor b;
     _hitMonitorSpeed := _hitMonitorSpeed b;
     _hitMonitorActive := _hitMonitorActive b;
     _playersTouching := _playersTouching b; _steps := _steps b;
     _events := v |}.

Definition TOUCH_EVENTS : list string := ["touching"; "touchingEnded"].

(** [new Brick(position, scale, color)]; an argument left out takes its
    default.  The two listeners registered by the constructor are the
    first entries of [_events]. *)
Definition constructor (st : Statics) (position : option Vector3.t)
    (scale : option Vector3.t) (color : option string) : Statics * t :=
  let brickId' := JS.incr (brickId st) in
  ({| brickId := brickId'; playerId := playerId st;
      soundEmitterId := soundEmitterId st |},
   {| rotation := Vector3.new 0 0 0;
      destroyed := false;
      _steps := [];
      position := default (Vector3.new 0 0 0) position;
      scale := default (Vector3.new 1 1 1) scale;
      color := default "#C0C0C0" color;
      lightColor := "#000000";
      lightRange := JS.Num 5;
      visibility := 1;
      netId := Some brickId';
      collision := true;
      lightEnabled := false;
      _playersTouching := ∅;
      _hitMonitorSpeed := 100;
      _hitMonitorActive := false;
      _events := ["newListener"; "removeListener"];
      name := None;
      model := None;
      clickable := false;
      clickDistance := 50;
      socket := None;
      shape := None;
      _hitMonitor := None |}).

(** The events a brick emits from its touch detection. *)
Inductive event :=
| Touching (p : ref)         (* this.emit("touching", p) *)
| TouchingEnded (p : ref).   (* this.emit("touchingEnded", p) *)

#[global] Instance event_eq_dec : EqDecision event.
Proof. solve_decision. Defined.

(** The separation test of [_hitDetection] for one player: [touched]
    starts true and is cleared by every axis on which the distance of the
    centres reaches the combined half extents plus 0.4. *)
Definition touched (this : t) (p : Player.t) : bool :=
  let scale0 := (Vector3.x (scale this) / 2)%float in
  let scale1 := (Vector3.y (scale this) / 2)%float in
  let scale2 := (Vector3.z (scale this) / 2)%float in
  let origin0 := (Vector3.x (position this) + scale0)%float in
  let origin1 := (Vector3.y (position this) + scale1)%float in
  let origin2 := (Vector3.z (position this) + scale2)%float in
  let size0 := Vector3.x (Player.scale p) in
  let size1 := Vector3.y (Player.scale p) in
  let size2 := (5 * Vector3.z (Player.scale p) / 2)%float in
  let center0 := Vector3.x (Player.position p) in
  let center1 := Vector3.y (Player.position p) in
  let center2 := (Vector3.z (Player.position p) + size2)%float in
  fold_left
    (fun touched '(origin_i, center_i, size_i, scale_i) =>
       let dist := abs (origin_i - center_i)%float in
       let close := (size_i + scale_i)%float in
       if JS.geq dist (close + 0x1.999999999999ap-2)%float then false
       else touched)
    [(origin0, center0, size0, scale0);
     (origin1, center1, size1, scale1);
     (origin2, center2, size2, scale2)]
    true.

(** The objects that a listener can write to while [emit] runs it: the
    players and the brick. *)
Definition scene : Type := (ref -> Player.t) * t.

(** [this.emit(event, p)] runs the listeners of the event at once, one
    after the other, and returns when the last one has.  A value of
    [listeners] says what they do together to the players and to the
    brick: nothing, when there is none.  They return normally, and leave
    the array of the players that is being scanned as it is. *)
Definition listeners : Type := event -> scene -> scene.

Definition quiet : listeners := fun _ sc => sc.

Definition touching_set (sc : scene) : gset ref := _playersTouching (snd sc).

Definition player_of (sc : scene) (r : ref) : Player.t := fst sc r.

(** [this._playersTouching.add(r)] and [this._playersTouching.delete(r)] *)
Definition touching_add (r : ref) (sc : scene) : scene :=
  (fst sc, set_playersTouching ({[r]} ∪ _playersTouching (snd sc)) (snd sc)).

Definition touching_delete (r : ref) (sc : scene) : scene :=
  (fst sc, set_playersTouching (_playersTouching (snd sc) ∖ {[r]}) (snd sc)).

(** The body of the loop of [_hitDetection] for the player [r].  [origin]
    is the brick as it was when [_hitDetection] filled the arrays [scale]
    and [origin], before the loop.  The second test reads [p.alive] and
    the touching set again, after the listeners of "touching" ran. *)
Definition hit_player (emit : listeners) (origin : t)
    (acc : scene * list event) (r : ref) : scene * list event :=
  let '((store, this), log) := acc in
  let touched := touched origin (store r) in
  let '((store, this), log) :=
    if touched && Player.alive (store r) then
      let this :=
        set_playersTouching ({[r]} ∪ _playersTouching this) this in
      (emit (Touching r) (store, this), (log ++ [Touching r])%list)
    else ((store, this), log) in
  if bool_decide (r ∈ _playersTouching this)
     && (negb touched || negb (Player.alive (store r)))
  then
    let this := set_playersTouching (_playersTouching this ∖ {[r]}) this in
    (emit (TouchingEnded r) (store, this), (log ++ [TouchingEnded r])%list)
  else ((store, this), log).

(** [_hitDetection()]: the players scanned are the player of the attached
    socket for a local brick, and [Game.players] otherwise. *)
Definition _hitDetection (emit : listeners) (game_players : list ref)
    (sc : scene) : scene * list event :=
  let players :=
    match socket (snd sc) with
    | Some s => [s]
    | None => game_players
    end in
  fold_left (hit_player emit (snd sc)) players (sc, []).

(** The first loop of the interval callback: the destroyed players are
    dropped from the touching set. *)
Definition prune (sc : scene) : scene :=
  (fst sc,
   set_playersTouching
     (filter (fun r => Player.destroyed (fst sc r) = false)
        (_playersTouching (snd sc))) (snd sc)).

(** The interval callback installed by [_detectTouching()]: destroyed
    players are dropped from the set, then the scan runs unless
    [Game.players] is empty. *)
Definition _detectTouching_tick (emit : listeners) (game_players : list ref)
    (sc : scene) : scene * list event :=
  let sc := prune sc in
  if (length game_players =? 0)%nat then (sc, [])
  else _hitDetection emit game_players sc.

(** A run of the hit monitor: one entry per firing of the interval, with
    [Game.players] and the player objects as they are when it fires. *)
Fixpoint monitor (emit : listeners) (this : t)
    (ticks : list (list ref * (ref -> Player.t))) : t * list (list event) :=
  match ticks with
  | [] => (this, [])
  | (game_players, store) :: rest =>
      let '(sc, log) := _detectTouching_tick emit game_players (store, this) in
      let '(this, logs) := monitor emit (snd sc) rest in
      (this, log :: logs)
  end.

(** The players and the brick as they are, in a firing of the hit
    monitor, when the players [before] have had their turn. *)
Definition at_turn (emit : listeners) (before : list ref) (sc : scene)
    : scene :=
  fst (fold_left (hit_player emit (snd (prune sc))) before (prune sc, [])).


(** The players that one firing of the hit monitor scans: none when
    [Game.players] is empty, the player of the socket for a local brick,
    [Game.players] otherwise. *)
Definition scanned (game_players : list ref) (this : t) : list ref :=
  if (length game_players =? 0)%nat then []
  else
    match socket this with
    | Some s => [s]
    | None => game_players
    end.

(** The condition under which the scan takes a player as touching. *)
Definition overlapping (this : t) (p : Player.t) : bool :=
  touched this p && Player.alive p.

(** How often an event is in a log. *)
Definition emitted (e : event) (log : list event) : nat :=
  count_occ event_eq_dec log e.

(** *** The part of the [Game] singleton that Brick methods reach *)

(** A packet built by [createBrickPacket(brick, modification)]: it starts
    with the brick's [netId] and the modification, and goes to the
    attached socket when there is one, to everybody otherwise. *)
Record packet := {
  packet_netId : option Z;
  packet_modification : string;
  packet_socket : option ref
}.

Record world := {
  players : list ref;               (* Game.players *)
  player_store : ref -> Player.t;   (* the Player objects *)
  bricks : list ref;                (* Game.world.bricks *)
  brick_store : ref -> t;           (* the Brick objects *)
  intervals : gset timer;           (* intervals set and not yet cleared *)
  next_interval : timer;            (* the next handle of setInterval *)
  packets : list packet             (* packets sent, oldest first *)
}.

Definition set_player_store (v : ref -> Player.t) (w : world) : world :=
  {| players := players w; player_store := v; bricks := bricks w;
     brick_store := brick_store w; intervals := intervals w;
     next_interval := next_interval w; packets := packets w |}.
Definition set_bricks (v : list ref) (w : world) : world :=
  {| players := players w; player_store := player_store w; bricks := v;
     brick_store := brick_store w; intervals := intervals w;
     next_interval := next_interval w; packets := packets w |}.
Definition set_brick_store (v : ref -> t) (w : world) : world :=
  {| players := players w; player_store := player_store w; bricks := bricks w;
     brick_store := v; intervals := intervals w;
     next_interval := next_interval w; packets := packets w |}.
Definition set_intervals (v : gset timer) (w : world) : world :=
  {| players := players w; player_store := player_store w; bricks := bricks w;
     brick_store := brick_store w; intervals := v;
     next_interval := next_interval w; packets := packets w |}.
Definition set_next_interval (v : timer) (w : world) : world :=
  {| players := players w; player_store := player_store w; bricks := bricks w;
     brick_store := brick_store w; intervals := intervals w;
     next_interval := v; packets := packets w |}.
Definition set_packets (v : list packet) (w : world) : world :=
  {| players := players w; player_store := player_store w; bricks := bricks w;
     brick_store := brick_store w; intervals := intervals w;
     next_interval := next_interval w; packets := v |}.

(** A write to the fields of the brick object [this]. *)
Definition update (this : ref) (f : t -> t) (w : world) : world :=
  set_brick_store (<[this := f (brick_store w this)]> (brick_store w)) w.

(** The global [setInterval(callback, delay)]: a fresh handle. *)
Definition js_setInterval (w : world) : timer * world :=
  let loop := next_interval w in
  (loop, set_next_interval (S loop) (set_intervals ({[loop]} ∪ intervals w) w)).

(** The global [clearInterval(handle)]; an undefined handle is ignored. *)
Definition js_clearInterval (handle : option timer) (w : world) : world :=
  match handle with
  | Some h => set_intervals (intervals w ∖ {[h]}) w
  | None => w
  end.

(** [loops.forEach((loop) => clearInterval(loop))] *)
Definition js_clearIntervals (loops : list timer) (w : world) : world :=
  fold_left (fun w loop => js_clearInterval (Some loop) w) loops w.

(** [createBrickPacket(this, modification)] *)
Definition createBrickPacket (this : ref) (modification : string)
    (w : world) : world :=
  let b := brick_store w this in
  set_packets
    (packets w ++
       [{| packet_netId := netId b; packet_modification := modification;
           packet_socket := socket b |}])%list w.

(** [this.setInterval(callback, delay)] *)
Definition setInterval (this : ref) (w : world) : timer * world :=
  let '(loop, w) := js_setInterval w in
  (loop, update this (fun b => set_steps (_steps b ++ [loop])%list b) w).

(** [_detectTouching()]: installs the hit monitor. *)
Definition _detectTouching (this : ref) (w : world) : world :=
  let '(loop, w) := js_setInterval w in
  update this (set_hitMonitor (Some loop)) w.

(** [this.on(event, listener)].  The emitter first emits "newListener",
    whose handler (set by the constructor) starts the hit monitor for a
    touch event when none is active; then the listener is added. *)
Definition on (event : string) (this : ref) (w : world) : world :=
  let b := brick_store w this in
  let w :=
    if bool_decide ("newListener" ∈ _events b)
       && bool_decide (event ∈ TOUCH_EVENTS)
       && negb (_hitMonitorActive b)
    then update this (set_hitMonitorActive true) (_detectTouching this w)
    else w in
  update this (fun b => set_events (_events b ++ [event])%list b) w.

(** The "removeListener" handler set by the constructor. *)
Definition removeListener_handler (event : string) (this : ref) (w : world)
    : world :=
  let b := brick_store w this in
  if negb (bool_decide (event = "touching")) then w
  else if bool_decide ("touching" ∈ _events b) then w
  else update this (set_hitMonitorActive false)
         (js_clearInterval (_hitMonitor b) w).

(** [this.off(event, listener)] for a listener that is registered. *)
Definition off (event : string) (this : ref) (w : world) : world :=
  let b := brick_store w this in
  if negb (bool_decide (event ∈ _events b)) then w
  else
    let w := update this
               (fun b => set_events (remove_at_indexOf event (_events b)) b) w in
    if bool_decide ("removeListener" ∈ _events b) then
      removeListener_handler event this w
    else w.

(** [this.removeAllListeners()]: the listeners of every event but
    "removeListener" are removed first, "removeListener" being emitted for
    each of them, and those of "removeListener" last. *)
Definition removeAllListeners (this : ref) (w : world) : world :=
  let b := brick_store w this in
  let w :=
    if bool_decide ("removeListener" ∈ _events b)
       && bool_decide ("touching" ∈ _events b)
    then update this (set_hitMonitorActive false)
           (js_clearInterval (_hitMonitor b) w)
    else w in
  update this (set_events []) w.

(** [_cleanup()] *)
Definition _cleanup (this : ref) (w : world) : world :=
  let w := js_clearInterval (_hitMonitor (brick_store w this)) w in
  let w := removeAllListeners this w in
  js_clearIntervals (_steps (brick_store w this)) w.

(** [destroy()] *)
Definition destroy (this : ref) (w : world) : JS.promise world :=
  if destroyed (brick_store w this) then
    JS.Rejected "Brick has already been destroyed."
  else
    let w := _cleanup this w in
    let w :=
      match socket (brick_store w this) with
      | None =>
          (* This is not a local brick *)
          set_bricks (remove_at_indexOf this (bricks w)) w
      | Some s =>
          (* This is a local brick *)
          let owner := player_store w s in
          let locals := remove_at_indexOf this (Player.localBricks owner) in
          set_player_store
            (<[s := Player.set_localBricks locals owner]> (player_store w)) w
      end in
    let w := createBrickPacket this "destroy" w in
    let w := update this (set_socket None) w in
    let w := update this (set_netId None) w in
    let w := update this (set_playersTouching ∅) w in
    let w := update this (set_destroyed true) w in
    JS.Resolved w.

(** [destroy()] in the two parts that its [await] separates.  The first
    runs when [destroy] is called: the test of [destroyed], the clean-up,
    the removal from the collection and the call that sends the packet.
    The second runs when the packet has been sent; until then the brick
    is not marked as destroyed. *)
Definition destroy_begin (this : ref) (w : world) : JS.promise world :=
  if destroyed (brick_store w this) then
    JS.Rejected "Brick has already been destroyed."
  else
    let w := _cleanup this w in
    let w :=
      match socket (brick_store w this) with
      | None =>
          set_bricks (remove_at_indexOf this (bricks w)) w
      | Some s =>
          let owner := player_store w s in
          let locals := remove_at_indexOf this (Player.localBricks owner) in
          set_player_store
            (<[s := Player.set_localBricks locals owner]> (player_store w)) w
      end in
    JS.Resolved (createBrickPacket this "destroy" w).

Definition destroy_end (this : ref) (w : world) : world :=
  let w := update this (set_socket None) w in
  let w := update this (set_netId None) w in
  let w := update this (set_playersTouching ∅) w in
  update this (set_destroyed true) w.

(** The collection a brick is stored in: the local bricks of the player
    of its socket, or the bricks of the world. *)
Definition owning_collection (sock : option ref) (w : world) : list ref :=
  match sock with
  | Some s => Player.localBricks (player_store w s)
  | None => bricks w
  end.

(** The periodic timers a brick owns. *)
Definition timers (b : t) : list timer :=
  (option_list (_hitMonitor b) ++ _steps b)%list.

(** The fields of a brick that the removal of its listeners leaves
    alone. *)
Definition kept (b : t) : option ref * bool * list timer * option timer :=
  (socket b, destroyed b, _steps b, _hitMonitor b).

(** *** The setters *)

(** [setPosition(position)] *)
Definition setPosition (position : Vector3.t) (this : ref) (w : world)
    : world :=
  createBrickPacket this "pos"
    (update this (set_position (Vector3.fromVector position)) w).

(** [setScale(scale)] *)
Definition setScale (scale : Vector3.t) (this : ref) (w : world) : world :=
  createBrickPacket this "scale"
    (update this (set_scale (Vector3.fromVector scale)) w).

(** [setRotation(rot)] *)
Definition setRotation (rot : Vector3.t) (this : ref) (w : world) : world :=
  createBrickPacket this "rot2" (update this (set_rotation rot) w).

(** [setModel(model)] *)
Definition setModel (model : float) (this : ref) (w : world) : world :=
  createBrickPacket this "model" (update this (set_model (Some model)) w).

(** [setColor(color)] *)
Definition setColor (color : string) (this : ref) (w : world) : world :=
  createBrickPacket this "col" (update this (set_color color) w).

(** [setLightColor(color)] *)
Definition setLightColor (color : string) (this : ref) (w : world)
    : JS.promise world :=
  if negb (lightEnabled (brick_store w this)) then
    JS.Rejected "brick.lightEnabled must be enabled first!"
  else
    JS.Resolved
      (createBrickPacket this "lightcol"
         (update this (set_lightColor color) w)).

(** [setLightRange(range)] *)
Definition setLightRange (range : float) (this : ref) (w : world)
    : JS.promise world :=
  if negb (lightEnabled (brick_store w this)) then
    JS.Rejected "brick.lightEnabled must be enabled first!"
  else
    JS.Resolved
      (createBrickPacket this "lightrange"
         (update this (set_lightRange (JS.Num range)) w)).

(** [setVisibility(visibility)] *)
Definition setVisibility (visibility : float) (this : ref) (w : world)
    : world :=
  createBrickPacket this "alpha" (update this (set_visibility visibility) w).

(** [setCollision(collision)] *)
Definition setCollision (collision : bool) (this : ref) (w : world) : world :=
  createBrickPacket this "collide" (update this (set_collision collision) w).

(** [setClickable(clickable, clickDistance = 50)]: an argument that is
    left out takes the default, and a distance that is falsy is not
    stored. *)
Definition setClickable (clickable : bool) (clickDistance : option float)
    (this : ref) (w : world) : world :=
  let clickDistance := default 50%float clickDistance in
  let w := update this (set_clickable clickable) w in
  let w :=
    if JS.truthy clickDistance then
      update this (set_clickDistance clickDistance) w
    else w in
  createBrickPacket this "clickable" w.

(** [clicked(callback)]: the brick is made clickable when it is not, and
    the listener is registered. *)
Definition clicked (this : ref) (w : world) : world :=
  let b := brick_store w this in
  let w :=
    if negb (clickable b) then
      setClickable true (Some (clickDistance b)) this w
    else w in
  on "clicked" this w.

(** [disconnect()] of the handle that [clicked] returns, its listener
    being registered. *)
Definition clicked_disconnect (this : ref) (w : world) : world :=
  setClickable false None this (off "clicked" this w).

(** [clone()] *)
Definition clone (st : Statics) (this : t) : Statics * t :=
  let '(st, newBrick) :=
    constructor st
      (Some (Vector3.fromVector (position this)))
      (Some (Vector3.fromVector (scale this)))
      (Some (color this)) in
  let newBrick := set_name (name this) newBrick in
  let newBrick := set_lightColor (lightColor this) newBrick in
  let newBrick := set_clickable (clickable this) newBrick in
  let newBrick := set_clickDistance (clickDistance this) newBrick in
  let newBrick := set_visibility (visibility this) newBrick in
  let newBrick := set_collision (collision this) newBrick in
  let newBrick := set_rotation (rotation this) newBrick in
  let newBrick := set_lightEnabled (lightEnabled this) newBrick in
  let newBrick := set_lightColor (lightColor this) newBrick in
  let newBrick := set_lightRange (lightRange this) newBrick in
  let newBrick := set_model (model this) newBrick in
  let newBrick := set_clickable (clickable this) newBrick in
  let newBrick := set_clickDistance (clickDistance this) newBrick in
  let newBrick := set_shape (shape this) newBrick in
  (st, newBrick).

(** [intersects(brick)] *)
Definition intersects (this brick : t) : bool :=
  ((Vector3.x (position this)
    <=? Vector3.x (position brick) + Vector3.x (scale brick))%float
   && JS.geq (Vector3.x (position this) + Vector3.x (scale this))%float
        (Vector3.x (position brick)))
  && ((Vector3.y (position this)
       <=? Vector3.y (position brick) + Vector3.y (scale brick))%float
      && JS.geq (Vector3.y (position this) + Vector3.y (scale this))%float
           (Vector3.y (position brick)))
  && ((Vector3.z (position this)
       <=? Vector3.z (position brick) + Vector3.z (scale brick))%float
      && JS.geq (Vector3.z (position this) + Vector3.z (scale this))%float
           (Vector3.z (position brick))).

(** A vector one of whose coordinates is NaN. *)
Definition has_nan (v : Vector3.t) : bool :=
  is_nan (Vector3.x v) || is_nan (Vector3.y v) || is_nan (Vector3.z v).

(** The calls of [on] and [off] a script can make on a brick, and the
    world after a sequence of them. *)
Inductive listener_call :=
| On (event : string)
| Off (event : string).

Definition listener_step (this : ref) (w : world) (c : listener_call)
    : world :=
  match c with
  | On event => on event this w
  | Off event => off event this w
  end.

(** The calls of the setters a script can make on a brick, and the world
    after one of them; a call that is rejected leaves the world as it
    is. *)
Inductive setter_call :=
| SetPosition (position : Vector3.t)
| SetScale (scale : Vector3.t)
| SetRotation (rot : Vector3.t)
| SetModel (model : float)
| SetColor (color : string)
| SetLightColor (color : string)
| SetLightRange (range : float)
| SetVisibility (visibility : float)
| SetCollision (collision : bool)
| SetClickable (clickable : bool) (clickDistance : option float).

Definition settled (w : world) (result : JS.promise world) : world :=
  match result with
  | JS.Resolved w' => w'
  | JS.Rejected _ => w
  end.

Definition setter_step (this : ref) (w : world) (c : setter_call) : world :=
  match c with
  | SetPosition position => setPosition position this w
  | SetScale scale => setScale scale this w
  | SetRotation rot => setRotation rot this w
  | SetModel model => setModel model this w
  | SetColor color => setColor color this w
  | SetLightColor color => settled w (setLightColor color this w)
  | SetLightRange range => settled w (setLightRange range this w)
  | SetVisibility visibility => setVisibility visibility this w
  | SetCollision collision => setCollision collision this w
  | SetClickable clickable clickDistance =>
      setClickable clickable clickDistance this w
  end.

(** A call made with an event of the script's own: the two listeners that
    the constructor registered are not taken off. *)
Definition user_call (c : listener_call) : Prop :=
  match c with
  | On event | Off event =>
      event <> "newListener" /\ event <> "removeListener"
  end.

(** The hit monitor of [this] against the intervals [base] that were set
    before: it is the one interval set besides them when the monitor is
    active, and there is none when it is not. *)
Definition monitor_accounted (this : ref) (base : gset timer) (w : world)
    : Prop :=
  if _hitMonitorActive (brick_store w this) then
    exists h, _hitMonitor (brick_store w this) = Some h
              /\ (h ∉ base) /\ intervals w = {[h]} ∪ base
  else intervals w = base.

(** What the setters leave alone in a brick, and a packet built for a
    brick: it carries the brick's netId and goes where its socket says. *)
Definition same_identity (b b' : t) : Prop :=
  netId b' = netId b /\ socket b' = socket b /\ destroyed b' = destroyed b
  /\ lightEnabled b' = lightEnabled b /\ timers b' = timers b
  /\ _events b' = _events b /\ _hitMonitorActive b' = _hitMonitorActive b
  /\ _playersTouching b' = _playersTouching b.

Definition sent_for (b : t) (p : packet) : Prop :=
  packet_netId p = netId b /\ packet_socket p = socket b.

(** What the calls of [on] and [off] keep: the two listeners of the
    constructor, handles of [base] below the next one, the hit monitor
    accounted for, and a hit monitor that is active as long as a listener
    of "touching" is registered. *)
Definition monitor_inv (this : ref) (base : gset timer) (w : world) : Prop :=
  "newListener" ∈ _events (brick_store w this)
  /\ "removeListener" ∈ _events (brick_store w this)
  /\ (forall h, h ∈ base -> (h < next_interval w)%nat)
  /\ monitor_accounted this base w
  /\ ("touching" ∈ _events (brick_store w this) ->
      _hitMonitorActive (brick_store w this) = true).

End Brick.

(** ** SoundEmitter *)
Module SoundEmitter.

Record t := {
  netId : option Z;
  sound : float;
  volume : float;
  pitch : float;
  range : float;
  loop : bool;
  global : bool;
  position : Vector3.t;
  destroyed : bool;
  _steps : list timer;
  _events : list string
}.

Definition set_netId (v : option Z) (s : t) : t :=
  {| netId := v; sound := sound s; volume := volume s; pitch := pitch s;
     range := range s; loop := loop s; global := global s;
     position := position s; destroyed := destroyed s; _steps := _steps s;
     _events := _events s |}.
Definition set_destroyed (v : bool) (s : t) : t :=
  {| netId := netId s; sound := sound s; volume := volume s; pitch := pitch s;
     range := range s; loop := loop s; global := global s;
     position := position s; destroyed := v; _steps := _steps s;
     _events := _events s |}.
Definition set_steps (v : list timer) (s : t) : t :=
  {| netId := netId s; sound := sound s; volume := volume s; pitch := pitch s;
     range := range s; loop := loop s; global := global s;
     position := position s; destroyed := destroyed s; _steps := v;
     _events := _events s |}.
Definition set_events (v : list string) (s : t) : t :=
  {| netId := netId s; sound := sound s; volume := volume s; pitch := pitch s;
     range := range s; loop := loop s; global := global s;
     position := position s; destroyed := destroyed s; _steps := _steps s;
     _events := v |}.

(** [new SoundEmitter(sound, position, range)] *)
Definition constructor (st : Statics) (sound : float)
    (position : option Vector3.t) (range : option float) : Statics * t :=
  let soundEmitterId' := JS.incr (soundEmitterId st) in
  ({| brickId := brickId st; playerId := playerId st;
      soundEmitterId := soundEmitterId' |},
   {| netId := Some soundEmitterId';
      _steps := [];
      sound := sound;
      volume := 1;
      pitch := 1;
      range := default 10%float range;
      loop := false;
      global := false;
      position := default (Vector3.new 0 0 0) position;
      destroyed := false;
      _events := [] |}).

(** A packet built by [createSoundPacket(sound, modification)]. *)
Record packet := {
  packet_netId : option Z;
  packet_modification : string
}.

(** The part of the [Game] singleton that SoundEmitter methods reach. *)
Record world := {
  sounds : list ref;         (* Game.world.sounds *)
  sound_store : ref -> t;    (* the SoundEmitter objects *)
  intervals : gset timer;    (* intervals set and not yet cleared *)
  next_interval : timer;     (* the next handle of setInterval *)
  packets : list packet      (* packets broadcast, oldest first *)
}.

Definition set_sounds (v : list ref) (w : world) : world :=
  {| sounds := v; sound_store := sound_store w; intervals := intervals w;
     next_interval := next_interval w; packets := packets w |}.
Definition set_sound_store (v : ref -> t) (w : world) : world :=
  {| sounds := sounds w; sound_store := v; intervals := intervals w;
     next_interval := next_interval w; packets := packets w |}.
Definition set_intervals (v : gset timer) (w : world) : world :=
  {| sounds := sounds w; sound_store := sound_store w; intervals := v;
     next_interval := next_interval w; packets := packets w |}.
Definition set_next_interval (v : timer) (w : world) : world :=
  {| sounds := sounds w; sound_store := sound_store w; intervals := intervals w;
     next_interval := v; packets := packets w |}.
Definition set_packets (v : list packet) (w : world) : world :=
  {| sounds := sounds w; sound_store := sound_store w; intervals := intervals w;
     next_interval := next_interval w; packets := v |}.

Definition update (this : ref) (f : t -> t) (w : world) : world :=
  set_sound_store (<[this := f (sound_store w this)]> (sound_store w)) w.

Definition js_clearInterval (h : timer) (w : world) : world :=
  set_intervals (intervals w ∖ {[h]}) w.

(** [loops.forEach((loop) => clearInterval(loop))] *)
Definition js_clearIntervals (loops : list timer) (w : world) : world :=
  fold_left (fun w loop => js_clearInterval loop w) loops w.

(** [createSoundPacket(this, modification)], always a broadcast. *)
Definition createSoundPacket (this : ref) (modification : string)
    (w : world) : world :=
  set_packets
    (packets w ++
       [{| packet_netId := netId (sound_store w this);
           packet_modification := modification |}])%list w.

(** [this.setInterval(callback, delay)] *)
Definition setInterval (this : ref) (w : world) : timer * world :=
  let loop := next_interval w in
  let w := set_next_interval (S loop)
             (set_intervals ({[loop]} ∪ intervals w) w) in
  (loop, update this (fun s => set_steps (_steps s ++ [loop])%list s) w).

(** [destroy()] *)
Definition destroy (this : ref) (w : world) : JS.promise world :=
  if destroyed (sound_store w this) then
    JS.Rejected "Sound emitter has already been destroyed."
  else
    let w := js_clearIntervals (_steps (sound_store w this)) w in
    let w := update this (set_events []) w in
    let w := set_sounds (remove_at_indexOf this (sounds w)) w in
    let w := createSoundPacket this "destroy" w in
    let w := update this (set_netId None) w in
    let w := update this (set_destroyed true) w in
    JS.Resolved w.

(** [destroy()] in the two parts that its [await] separates: what runs
    when it is called, and what runs when the packet has been sent. *)
Definition destroy_begin (this : ref) (w : world) : JS.promise world :=
  if destroyed (sound_store w this) then
    JS.Rejected "Sound emitter has already been destroyed."
  else
    let w := js_clearIntervals (_steps (sound_store w this)) w in
    let w := update this (set_events []) w in
    let w := set_sounds (remove_at_indexOf this (sounds w)) w in
    JS.Resolved (createSoundPacket this "destroy" w).

Definition destroy_end (this : ref) (w : world) : world :=
  let w := update this (set_netId None) w in
  update this (set_destroyed true) w.

End SoundEmitter.

(** ** Packets *)
Module PacketBuilder.

(** Modelled from the spec: the PacketBuilder class (the "Packet Codec",
    which "encodes/decodes typed fields into the wire format") is not
    among the sources.  Of a packet under construction only the calls of
    [write] and [writeAsset] that the scripts make on it are kept, in
    order, each with the type and the value it is given.  What the class
    makes of a value (the spec names "integers of fixed width" and
    "32-bit float") is not represented: two records that differ can be
    encoded as the same bytes. *)
Inductive field :=
| WUint32 (v : option Z)      (* write("uint32", v), v undefined or a number *)
| WFloat (v : float)          (* write("float", v) *)
| WBool (v : bool)            (* write("bool", v) *)
| WString (v : string)        (* write("string", v) *)
| WVector3 (v : Vector3.t)    (* write("vector3", v) *)
| WInt32 (v : float)          (* write("int32", v) *)
| WValue (type : string) (v : JS.value)
    (* write(type, v), v a number, a string or undefined *)
| WAsset (v : JS.value).      (* writeAsset(v) *)

Record t := {
  packetType : string;
  compression : bool;
  fields : list field
}.

(** Modelled from the spec: [await packet.writeAsset(v)], of which the
    spec says "encoding an asset id that cannot be resolved fails the
    whole frame (propagated, not silently zero-filled)".  [resolves]
    says which ids the asset cache, an outside service, resolves; for
    the others the promise is rejected, which [None] stands for. *)
Definition writeAsset (resolves : JS.value -> bool) (v : JS.value)
    (packet : list field) : option (list field) :=
  if resolves v then Some (packet ++ [WAsset v])%list else None.

End PacketBuilder.

(** ** scripts/world/sendSound and the script that loads sounds *)
Module SendSound.
Import PacketBuilder.

(** The string [attributes] of [addSoundProperties]. *)
Definition attributes (sound : SoundEmitter.t) : string :=
  let attributes := "" in
  let attributes :=
    if JS.neq (SoundEmitter.volume sound) 1 then attributes ++ "A"
    else attributes in
  let attributes :=
    if JS.neq (SoundEmitter.pitch sound) 1 then attributes ++ "B"
    else attributes in
  let attributes :=
    if SoundEmitter.loop sound then attributes ++ "C" else attributes in
  let attributes :=
    if JS.neq (SoundEmitter.range sound) 10 then attributes ++ "D"
    else attributes in
  let attributes :=
    if SoundEmitter.global sound then attributes ++ "F" else attributes in
  attributes.

(** The body of the loop over the characters of [attributes]. *)
Definition write_attribute (sound : SoundEmitter.t) (packet : list field)
    (ID : ascii) : list field :=
  if Ascii.eqb ID "A" then
    (packet ++ [WFloat (SoundEmitter.volume sound)])%list
  else if Ascii.eqb ID "B" then
    (packet ++ [WFloat (SoundEmitter.pitch sound)])%list
  else if Ascii.eqb ID "C" then
    (packet ++ [WBool (SoundEmitter.loop sound)])%list
  else if Ascii.eqb ID "D" then
    (packet ++ [WFloat (SoundEmitter.range sound)])%list
  else if Ascii.eqb ID "F" then
    (packet ++ [WBool (SoundEmitter.global sound)])%list
  else packet.

(** [addSoundProperties(packet, sound)]; [None] when the asset write is
    rejected. *)
Definition addSoundProperties (resolves : JS.value -> bool)
    (packet : list field) (sound : SoundEmitter.t) : option (list field) :=
  let packet := (packet ++ [WUint32 (SoundEmitter.netId sound)])%list in
  match writeAsset resolves (JS.Num (SoundEmitter.sound sound)) packet with
  | None => None
  | Some packet =>
      let packet :=
        (packet ++ [WVector3 (SoundEmitter.position sound)])%list in
      let attributes := attributes sound in
      let packet := (packet ++ [WString attributes])%list in
      Some (fold_left (write_attribute sound)
              (list_ascii_of_string attributes) packet)
  end.

(** How the script [loadSounds] ends: it returns nothing, its promise is
    rejected by an asset write, or it returns the packet. *)
Inductive loaded :=
| Nothing
| AssetFailed
| Packet (packet : PacketBuilder.t).

(** [for (const sound of sounds) await addSoundProperties(packet, sound)] *)
Fixpoint add_all (resolves : JS.value -> bool) (store : ref -> SoundEmitter.t)
    (sounds : list ref) (packet : list field) : option (list field) :=
  match sounds with
  | [] => Some packet
  | sound :: sounds =>
      match addSoundProperties resolves packet (store sound) with
      | None => None
      | Some packet => add_all resolves store sounds packet
      end
  end.

(** [loadSounds(sounds = [])]: nothing is returned for an empty array.
    The requests made ahead to the asset cache have their errors caught
    and change nothing here. *)
Definition loadSounds (resolves : JS.value -> bool)
    (store : ref -> SoundEmitter.t) (sounds : list ref) : loaded :=
  if (length sounds =? 0)%nat then Nothing
  else
    match add_all resolves store sounds
            [WUint32 (Some (Z.of_nat (length sounds)))] with
    | None => AssetFailed
    | Some fields =>
        Packet {| packetType := "SendSoundEmitters";
                  compression := true;
                  fields := fields |}
    end.

(** What the calls made for a sound say about it, and the calls that
    follow the one with the attribute string. *)
Definition described (s : SoundEmitter.t) :=
  (SoundEmitter.netId s, SoundEmitter.sound s, SoundEmitter.position s,
   SoundEmitter.volume s, SoundEmitter.pitch s, SoundEmitter.loop s,
   SoundEmitter.range s, SoundEmitter.global s).

Definition flags (s : SoundEmitter.t) : bool * bool * bool * bool * bool :=
  (JS.neq (SoundEmitter.volume s) 1, JS.neq (SoundEmitter.pitch s) 1,
   SoundEmitter.loop s, JS.neq (SoundEmitter.range s) 10,
   SoundEmitter.global s).

Definition payload (s : SoundEmitter.t) : list field :=
  ((if JS.neq (SoundEmitter.volume s) 1
    then [WFloat (SoundEmitter.volume s)] else [])
   ++ (if JS.neq (SoundEmitter.pitch s) 1
       then [WFloat (SoundEmitter.pitch s)] else [])
   ++ (if SoundEmitter.loop s then [WBool (SoundEmitter.loop s)] else [])
   ++ (if JS.neq (SoundEmitter.range s) 10
       then [WFloat (SoundEmitter.range s)] else [])
   ++ (if SoundEmitter.global s then [WBool (SoundEmitter.global s)] else []))%list.

(** The calls made for a sound whose asset is resolved. *)
Definition calls (s : SoundEmitter.t) : list field :=
  ([WUint32 (SoundEmitter.netId s);
    WAsset (JS.Num (SoundEmitter.sound s));
    WVector3 (SoundEmitter.position s);
    WString (attributes s)] ++ payload s)%list.

End SendSound.

(** ** scripts/world/sendBrick *)
Module SendBrick.
Import PacketBuilder.

(** A field that holds a string or nothing, and one that holds a number
    or nothing, as JavaScript values. *)
Definition string_value (s : option string) : JS.value :=
  from_option JS.Str JS.Undefined s.

Definition number_value (n : option float) : JS.value :=
  from_option JS.Num JS.Undefined n.

(** [ToBoolean] on such fields: the empty string is falsy. *)
Definition truthy_string (s : option string) : bool :=
  match s with
  | Some s => negb (String.eqb s "")
  | None => false
  end.

Definition truthy_number (n : option float) : bool :=
  match n with
  | Some f => JS.truthy f
  | None => false
  end.

Section AddBrickProperties.

(** [hexToDec] of util/color/colorModule, which is not among the
    sources, and the ids that the asset cache resolves. *)
Variable hexToDec : string -> JS.value.
Variable resolves : JS.value -> bool.

(** The string [attributes] of [addBrickProperties]; [brick.rotation] is
    an object, hence truthy. *)
Definition attributes (brick : Brick.t) : string :=
  let attributes := "" in
  let attributes := attributes ++ "I" in
  let attributes :=
    if truthy_string (Brick.shape brick) then attributes ++ "B"
    else attributes in
  let attributes :=
    if Brick.lightEnabled brick then attributes ++ "D" else attributes in
  let attributes :=
    if negb (Brick.collision brick) then attributes ++ "F" else attributes in
  let attributes :=
    if Brick.clickable brick then attributes ++ "G" else attributes in
  let attributes :=
    if truthy_number (Brick.model brick) then attributes ++ "C"
    else attributes in
  attributes.

(** The body of the loop over the characters of [attributes]. *)
Definition write_attribute (brick : Brick.t) (packet : list field)
    (ID : ascii) : list field :=
  if Ascii.eqb ID "B" then
    (packet ++ [WValue "string" (string_value (Brick.shape brick))])%list
  else if Ascii.eqb ID "D" then
    (packet ++ [WValue "uint32" (hexToDec (Brick.lightColor brick));
                WValue "uint32" (Brick.lightRange brick)])%list
  else if Ascii.eqb ID "G" then
    (packet ++ [WBool (Brick.clickable brick);
                WValue "uint32" (JS.Num (Brick.clickDistance brick))])%list
  else if Ascii.eqb ID "I" then
    (packet ++ [WInt32 (Vector3.x (Brick.rotation brick));
                WInt32 (Vector3.y (Brick.rotation brick));
                WInt32 (Vector3.z (Brick.rotation brick))])%list
  else packet.

(** [addBrickProperties(packet, brick)]; [None] when the asset write is
    rejected. *)
Definition addBrickProperties (packet : list field) (brick : Brick.t)
    : option (list field) :=
  let packet :=
    (packet ++ [WUint32 (Brick.netId brick);
                WFloat (Vector3.x (Brick.position brick));
                WFloat (Vector3.y (Brick.position brick));
                WFloat (Vector3.z (Brick.position brick));
                WFloat (Vector3.x (Brick.scale brick));
                WFloat (Vector3.y (Brick.scale brick));
                WFloat (Vector3.z (Brick.scale brick));
                WValue "uint32" (hexToDec (Brick.color brick));
                WFloat (Brick.visibility brick)])%list in
  let attributes := attributes brick in
  let packet := (packet ++ [WValue "string" (JS.Str attributes)])%list in
  let packet :=
    fold_left (write_attribute brick) (list_ascii_of_string attributes)
      packet in
  (* Write the asset data last. *)
  match String.index 0 "C" attributes with
  | Some _ => writeAsset resolves (number_value (Brick.model brick)) packet
  | None => Some packet
  end.

(** What the calls made for a brick say about it: a shape or a model
    that is not set, or is falsy, is left out, the light settings are
    those of a light that is on, and the click distance that of a brick
    that can be clicked. *)
Definition described (brick : Brick.t) :=
  (Brick.netId brick, Brick.position brick, Brick.scale brick,
   hexToDec (Brick.color brick), Brick.visibility brick,
   Brick.rotation brick,
   (if truthy_string (Brick.shape brick) then Brick.shape brick else None,
    if Brick.lightEnabled brick
    then Some (hexToDec (Brick.lightColor brick), Brick.lightRange brick)
    else None,
    Brick.collision brick,
    if Brick.clickable brick then Some (Brick.clickDistance brick) else None,
    if truthy_number (Brick.model brick) then Brick.model brick else None)).

Definition flags (brick : Brick.t) : bool * bool * bool * bool * bool :=
  (truthy_string (Brick.shape brick), Brick.lightEnabled brick,
   negb (Brick.collision brick), Brick.clickable brick,
   truthy_number (Brick.model brick)).

(** The calls made for a brick before those that the attribute string
    announces. *)
Definition brick_head (b : Brick.t) : list field :=
  [WUint32 (Brick.netId b);
   WFloat (Vector3.x (Brick.position b));
   WFloat (Vector3.y (Brick.position b));
   WFloat (Vector3.z (Brick.position b));
   WFloat (Vector3.x (Brick.scale b));
   WFloat (Vector3.y (Brick.scale b));
   WFloat (Vector3.z (Brick.scale b));
   WValue "uint32" (hexToDec (Brick.color b));
   WFloat (Brick.visibility b);
   WValue "string" (JS.Str (attributes b))].

(** The calls that follow the one with the attribute string, for a brick
    whose asset is resolved. *)
Definition payload (brick : Brick.t) : list field :=
  ([WInt32 (Vector3.x (Brick.rotation brick));
    WInt32 (Vector3.y (Brick.rotation brick));
    WInt32 (Vector3.z (Brick.rotation brick))]
   ++ (if truthy_string (Brick.shape brick)
       then [WValue "string" (string_value (Brick.shape brick))] else [])
   ++ (if Brick.lightEnabled brick
       then [WValue "uint32" (hexToDec (Brick.lightColor brick));
             WValue "uint32" (Brick.lightRange brick)]
       else [])
   ++ (if Brick.clickable brick
       then [WBool (Brick.clickable brick);
             WValue "uint32" (JS.Num (Brick.clickDistance brick))]
       else [])
   ++ (if truthy_number (Brick.model brick)
       then [WAsset (number_value (Brick.model brick))] else []))%list.

End AddBrickProperties.

End SendBrick.

(** ** Game *)
Module Game.

(** What the modelled methods of Game hand to the packet scripts and to
    [emit], in program order.  The scripts that build the packets of
    bricks ([scripts.loadBricks], [scripts.deleteBricks]) are not among
    the sources: such a packet is represented by the bricks it was built
    from. *)
Inductive effect :=
| Emit (event : string) (p : ref)
    (* this.emit(event, p) *)
| ConsoleLog (text : string)
    (* console.log(text) *)
| MessageAll (text : string)
    (* scripts.message.messageAll(text) *)
| LoadBricksPacket (bricks : list ref) (to : addressing)
    (* scripts.loadBricks(bricks), then addressed *)
| DeleteBricksPacket (bricks : list ref) (to : addressing)
    (* scripts.deleteBricks(bricks), then addressed *)
| ClearMapPacket (to : addressing)
    (* new PacketBuilder(ClearMap).write("bool", true), then addressed *)
| RemovePlayerPacket (netId : Z) (to : addressing)
    (* new PacketBuilder(RemovePlayer).write("uint32", netId) *)
| SoundsPacket (packet : PacketBuilder.t) (to : addressing).
    (* the packet of scripts.loadSounds, then addressed *)

(** [index = l.indexOf(x)], -1 included. *)
Definition js_indexOf `{EqDecision A} (x : A) (l : list A) : Z :=
  match indexOf x l with
  | Some index => Z.of_nat index
  | None => -1
  end.

(** [l.splice(start, 1)]: a negative [start] counts from the end of the
    array. *)
Definition splice1 {A} (start : Z) (l : list A) : list A :=
  let len := Z.of_nat (length l) in
  let actualStart :=
    if start <? 0 then Z.max (len + start) 0 else Z.min start len in
  delete (Z.to_nat actualStart) l.

(** [newBrick(brick)] *)
Definition newBrick (brick : ref) (w : Brick.world)
    : Brick.world * list effect :=
  (Brick.set_bricks (Brick.bricks w ++ [brick])%list w,
   [LoadBricksPacket [brick] Broadcast]).

(** The loop of [deleteBricks] when the array it runs over is
    [Game.world.bricks] itself: the array is read by position, as it is
    at each step, while the body takes elements out of it.  [i] is the
    position that is read next. *)
Fixpoint deleteBricks_own (fuel i : nat) (w : Brick.world) : Brick.world :=
  match fuel with
  | O => w
  | S fuel =>
      match Brick.bricks w !! i with
      | None => w
      | Some brick =>
          let w := Brick._cleanup brick w in
          deleteBricks_own fuel (S i)
            (Brick.set_bricks (remove_at_indexOf brick (Brick.bricks w)) w)
      end
  end.

(** [deleteBricks(bricks)].  The packet is built before the loop, from
    the array as it is then. *)
Definition deleteBricks (bricks : array_argument ref) (w : Brick.world)
    : Brick.world * list effect :=
  match bricks with
  | Another bricks =>
      (fold_left
         (fun w brick =>
            let w := Brick._cleanup brick w in
            Brick.set_bricks (remove_at_indexOf brick (Brick.bricks w)) w)
         bricks w,
       [DeleteBricksPacket bricks Broadcast])
  | Itself =>
      (deleteBricks_own (length (Brick.bricks w)) 0 w,
       [DeleteBricksPacket (Brick.bricks w) Broadcast])
  end.

(** [clearMap()] *)
Definition clearMap (w : Brick.world) : Brick.world * list effect :=
  let w := fold_left (fun w brick => Brick._cleanup brick w) (Brick.bricks w) w in
  (Brick.set_bricks [] w, [ClearMapPacket Broadcast]).

(** The fields of a session that [_playerLeft] and [_left] read besides
    those of [Player.t], and the switch [Game.systemMessages]. *)
Record t := {
  world : Brick.world;
  authenticated : ref -> bool;
  username : ref -> string;
  systemMessages : bool
}.

Definition set_world (v : Brick.world) (g : t) : t :=
  {| world := v; authenticated := authenticated g; username := username g;
     systemMessages := systemMessages g |}.

(** A write to the fields of the player object [this]. *)
Definition update_player (this : ref) (f : Player.t -> Player.t)
    (w : Brick.world) : Brick.world :=
  Brick.set_player_store
    (<[this := f (Brick.player_store w this)]> (Brick.player_store w)) w.

(** [Player._left()].  The listeners of a player are observers and are not
    part of the state, so that [removeAllListeners()] leaves it as it is. *)
Definition _left (this : ref) (g : t) : t * list effect :=
  let w := update_player this (Player.set_destroyed true) (world g) in
  let log :=
    ([ConsoleLog (username g this ++ " has left the game.")]
     ++ (if systemMessages g then
           [MessageAll
              ("\c6[SERVER]: \c0" ++ username g this
               ++ " has left the server!")]
         else []))%list in
  let w :=
    Brick.js_clearIntervals (Player._steps (Brick.player_store w this)) w in
  (set_world w g,
   (log ++ [RemovePlayerPacket (Player.netId (Brick.player_store w this))
              BroadcastExceptSelf])%list).

(** [_playerLeft(p)] *)
Definition _playerLeft (p : ref) (g : t) : t * list effect :=
  if authenticated g p then
    let index := js_indexOf p (Brick.players (world g)) in
    let w := world g in
    let g :=
      set_world
        {| Brick.players := splice1 index (Brick.players w);
           Brick.player_store := Brick.player_store w;
           Brick.bricks := Brick.bricks w;
           Brick.brick_store := Brick.brick_store w;
           Brick.intervals := Brick.intervals w;
           Brick.next_interval := Brick.next_interval w;
           Brick.packets := Brick.packets w |} g in
    let '(g, log) := _left p g in
    (g, Emit "playerLeave" p :: log)
  else (g, []).

(** How a call that has a script build a packet and then sends it ends:
    the packet is sent and the promise resolves; the script returned
    nothing, and the call of [broadcast] on undefined is a TypeError; or
    the asset write of the script was rejected. *)
Inductive ending :=
| Sent (log : list effect)
| TypeError
| AssetRejected.

Definition send_sounds (soundPacket : SendSound.loaded) : ending :=
  match soundPacket with
  | SendSound.Packet soundPacket => Sent [SoundsPacket soundPacket Broadcast]
  | SendSound.Nothing => TypeError
  | SendSound.AssetFailed => AssetRejected
  end.

(** [loadSounds(sounds)]: the world as the call leaves it, however it
    ends, and how it ends.  The script reads the sounds after an
    [await]; they are read here as the call found them, which is what
    happens when nothing else runs before the call has completed. *)
Definition loadSounds (resolves : JS.value -> bool) (sounds : list ref)
    (w : SoundEmitter.world) : SoundEmitter.world * ending :=
  let w := SoundEmitter.set_sounds (SoundEmitter.sounds w ++ sounds)%list w in
  (w, send_sounds
        (SendSound.loadSounds resolves (SoundEmitter.sound_store w) sounds)).

(** [newSoundEmitter(sound)] *)
Definition newSoundEmitter (resolves : JS.value -> bool) (sound : ref)
    (w : SoundEmitter.world) : SoundEmitter.world * ending :=
  let w := SoundEmitter.set_sounds (SoundEmitter.sounds w ++ [sound])%list w in
  (w, send_sounds
        (SendSound.loadSounds resolves (SoundEmitter.sound_store w) [sound])).

End Game.

(** ** The local bricks of a player (Player.newBrick, Player.loadBricks) *)
Module PlayerBricks.

(** The packet of [scripts.loadBricks(bricks)], sent to the socket of the
    player [to]; the script is not among the sources, and the packet is
    represented by the bricks it was built from. *)
Inductive effect :=
| LoadBricksPacket (bricks : list ref) (to : ref).

(** [newBrick(brick)] on the player object [this].  [localBrick] is the
    object that [brick.clone()] creates; the socket of a brick is
    represented by the player it belongs to. *)
Definition newBrick (st : Statics) (localBrick : ref) (brick : ref)
    (this : ref) (w : Brick.world)
    : Statics * Brick.world * list effect :=
  let '(st, b) := Brick.clone st (Brick.brick_store w brick) in
  let w :=
    Brick.set_brick_store (<[localBrick := b]> (Brick.brick_store w)) w in
  let w := Brick.update localBrick (Brick.set_socket (Some this)) w in
  let w :=
    Game.update_player this
      (fun p =>
         Player.set_localBricks (Player.localBricks p ++ [localBrick])%list p)
      w in
  (st, w, [LoadBricksPacket [localBrick] this]).

(** [loadBricks(bricks)] on the player object [this], for an array that
    [scripts.loadBricks] builds a packet from. *)
Definition loadBricks (bricks : list ref) (this : ref) (w : Brick.world)
    : Brick.world * list effect :=
  (Game.update_player this
     (fun p => Player.set_localBricks (Player.localBricks p ++ bricks)%list p)
     w,
   [LoadBricksPacket bricks this]).

End PlayerBricks.

(** ** The brick serializer (util/serialize) *)
Module Serialize.

(** The values that travel through [JSON.stringify] and [JSON.parse]. *)
#[warnings="-register-all"]
Inductive val :=
| VUndefined
| VNull
| VBool (b : bool)
| VNumber (f : float)
| VString (s : string)
| VArray (l : list val).

(** An object literal: its properties in insertion order. *)
Definition object := list (string * val).

(** The result of a call that may throw.  [OutOfModel] marks an input on
    which the JavaScript code goes on with values that the typed records
    of this development cannot hold. *)
Inductive outcome (A : Type) :=
| Returns (a : A)
| Throws
| OutOfModel.
Arguments Returns {A} a.
Arguments Throws {A}.
Arguments OutOfModel {A}.

Definition DEFAULT_BRICK : Brick.t :=
  snd (Brick.constructor process_start None None None).

Definition array3 (v : Vector3.t) : val :=
  VArray [VNumber (Vector3.x v); VNumber (Vector3.y v); VNumber (Vector3.z v)].

Definition of_value (v : JS.value) : val :=
  match v with
  | JS.Undefined => VUndefined
  | JS.Num f => VNumber f
  | JS.Str s => VString s
  end.

(** The object [data] that [serialize] builds for one brick. *)
Definition data_of (brick : Brick.t) : object :=
  ((if negb (Vector3.equalsVector (Brick.position brick)
               (Brick.position DEFAULT_BRICK))
    then [("position", array3 (Brick.position brick))] else []) ++
   (if negb (Vector3.equalsVector (Brick.scale brick)
               (Brick.scale DEFAULT_BRICK))
    then [("scale", array3 (Brick.scale brick))] else []) ++
   (if negb (String.eqb (Brick.color brick) (Brick.color DEFAULT_BRICK))
    then [("color", VString (Brick.color brick))] else []) ++
   (if (Brick.visibility brick <? 1)%float
    then [("visibility", VNumber (Brick.visibility brick))] else []) ++
   (if negb (Brick.collision brick)
    then [("collision", VBool false)] else []) ++
   (match Brick.name brick with
    | Some n => if negb (String.eqb n "") then [("name", VString n)] else []
    | None => []
    end) ++
   (if negb (Vector3.equalsVector (Brick.rotation brick)
               (Brick.rotation DEFAULT_BRICK))
    then [("rotation", array3 (Brick.rotation brick))] else []) ++
   (match Brick.model brick with
    | Some m => if JS.truthy m then [("model", VNumber m)] else []
    | None => []
    end) ++
   (if Brick.lightEnabled brick
    then [("lightEnabled", VBool true);
          ("lightColor", VString (Brick.lightColor brick));
          ("lightRange", of_value (Brick.lightRange brick))]
    else []) ++
   (if Brick.clickable brick
    then [("clickable", VBool true);
          ("clickDistance", VNumber (Brick.clickDistance brick))]
    else []))%list.

(** What [JSON.parse] reads back from the text [JSON.stringify] wrote for a
    value: a number that is not finite is written as null, a zero of
    either sign as 0, an undefined array element as null. *)
Fixpoint reparse (v : val) : val :=
  match v with
  | VUndefined => VNull
  | VNumber f =>
      if is_nan f || is_infinity f then VNull
      else if is_zero f then VNumber 0
      else VNumber f
  | VArray l => VArray (map reparse l)
  | _ => v
  end.

(** [JSON.stringify] leaves out the properties whose value is undefined. *)
Definition stringify_object (o : object) : object :=
  omap (fun '(k, v) =>
          match v with
          | VUndefined => None
          | _ => Some (k, reparse v)
          end) o.

(** The serialized form.  The buffer is the deflated JSON text of the
    array [binaryData]; it is represented by the document that this text
    denotes, deflate and inflate being inverse to each other. *)
Definition Buffer := list object.

(** [serialize(bricks)] *)
Definition serialize (bricks : list Brick.t) : Buffer :=
  map (fun brick => stringify_object (data_of brick)) bricks.

(** A string all of whose code units are below 128. *)
Definition seven_bit (s : string) : bool :=
  forallb (fun c => (nat_of_ascii c <? 128)%nat) (list_ascii_of_string s).

Fixpoint val_seven_bit (v : val) : bool :=
  match v with
  | VString s => seven_bit s
  | VArray l => forallb val_seven_bit l
  | _ => true
  end.

(** [data.toString("ascii")] decodes the inflated bytes one by one; it
    gives back the JSON text when the text is 7-bit, which is the case
    modelled here. *)
Definition toString_ascii (data : Buffer) : outcome Buffer :=
  if forallb (forallb (fun '(k, v) => seven_bit k && val_seven_bit v)) data
  then Returns data
  else OutOfModel.

(** [new Vector3(...value)] for a parsed array [value]. *)
Definition spread_Vector3 (l : list val) : option Vector3.t :=
  let arg (i : nat) : option float :=
    match l !! i with
    | None => Some 0%float
    | Some (VNumber f) => Some f
    | Some _ => None
    end in
  x ← arg 0%nat; y ← arg 1%nat; z ← arg 2%nat; Some (Vector3.new x y z).

(** [o[key]] *)
Definition property (o : object) (key : string) : option val :=
  (fun found : nat * (string * val) => snd (snd found))
    <$> list_find (fun kv => fst kv = key) o.

(** The argument that [new Brick(brick.position, brick.scale, ...)] takes
    from a property of the parsed object.  A property that is present is
    assigned again by the loop over the keys. *)
Definition vector_argument (o : object) (key : string) : option Vector3.t :=
  match property o key with
  | Some (VArray l) => spread_Vector3 l
  | _ => None
  end.

Definition string_argument (o : object) (key : string) : option string :=
  match property o key with
  | Some (VString s) => Some s
  | _ => None
  end.

(** [newBrick[prop] = brick[prop]], after the conversion of an object
    value into a Vector3.  The properties are those that [serialize]
    writes; the assignment of a value of another type than the field's, or
    to another property, is outside the typed record. *)
Definition assign (prop : string) (v : val) (b : Brick.t)
    : outcome Brick.t :=
  match v with
  | VNull => Throws   (* typeof null is "object": the spread of null throws *)
  | VArray l =>
      match spread_Vector3 l with
      | None => OutOfModel
      | Some vec =>
          if String.eqb prop "position" then Returns (Brick.set_position vec b)
          else if String.eqb prop "scale" then Returns (Brick.set_scale vec b)
          else if String.eqb prop "rotation" then
            Returns (Brick.set_rotation vec b)
          else OutOfModel
      end
  | VString s =>
      if String.eqb prop "color" then Returns (Brick.set_color s b)
      else if String.eqb prop "name" then Returns (Brick.set_name (Some s) b)
      else if String.eqb prop "lightColor" then
        Returns (Brick.set_lightColor s b)
      else if String.eqb prop "lightRange" then
        Returns (Brick.set_lightRange (JS.Str s) b)
      else OutOfModel
  | VNumber f =>
      if String.eqb prop "visibility" then Returns (Brick.set_visibility f b)
      else if String.eqb prop "model" then Returns (Brick.set_model (Some f) b)
      else if String.eqb prop "lightRange" then
        Returns (Brick.set_lightRange (JS.Num f) b)
      else if String.eqb prop "clickDistance" then
        Returns (Brick.set_clickDistance f b)
      else OutOfModel
  | VBool c =>
      if String.eqb prop "collision" then Returns (Brick.set_collision c b)
      else if String.eqb prop "lightEnabled" then
        Returns (Brick.set_lightEnabled c b)
      else if String.eqb prop "clickable" then
        Returns (Brick.set_clickable c b)
      else OutOfModel
  | VUndefined => OutOfModel
  end.

(** The loop over [Object.keys(brick)]. *)
Fixpoint assign_all (o : object) (b : Brick.t) : outcome Brick.t :=
  match o with
  | [] => Returns b
  | (prop, v) :: rest =>
      match assign prop v b with
      | Returns b => assign_all rest b
      | Throws => Throws
      | OutOfModel => OutOfModel
      end
  end.

(** The body of [data.forEach] in [deserialize]. *)
Fixpoint deserialize_each (st : Statics) (data : list object)
    : outcome (Statics * list Brick.t) :=
  match data with
  | [] => Returns (st, [])
  | brick :: rest =>
      let '(st, newBrick) :=
        Brick.constructor st (vector_argument brick "position")
          (vector_argument brick "scale") (string_argument brick "color") in
      match assign_all brick newBrick with
      | Returns newBrick =>
          match deserialize_each st rest with
          | Returns (st, bricks) => Returns (st, newBrick :: bricks)
          | Throws => Throws
          | OutOfModel => OutOfModel
          end
      | Throws => Throws
      | OutOfModel => OutOfModel
      end
  end.

(** [deserialize(data)] *)
Definition deserialize (st : Statics) (data : Buffer)
    : outcome (Statics * list Brick.t) :=
  match toString_ascii data with
  | Returns data => deserialize_each st data
  | Throws => Throws
  | OutOfModel => OutOfModel
  end.

(** *** The bricks that the round trip gives back *)

(** The names of the properties of an object. *)
Definition keys (o : object) : list string := map fst o.

(** A number that JSON text can hold. *)
Definition finite (f : float) : bool := negb (is_nan f || is_infinity f).

Definition finite3 (v : Vector3.t) : bool :=
  finite (Vector3.x v) && finite (Vector3.y v) && finite (Vector3.z v).

(** A brick whose fields are within what the serialized form can hold:
    the numbers are finite, the strings are 7-bit, the visibility is at
    most 1, a name that is set is not empty, a model that is set is not
    zero, and the light range is set when the light is enabled. *)
Definition portable (b : Brick.t) : bool :=
  finite3 (Brick.position b) && finite3 (Brick.scale b)
  && finite3 (Brick.rotation b)
  && seven_bit (Brick.color b)
  && finite (Brick.visibility b)
  && ((Brick.visibility b <? 1)%float || (Brick.visibility b =? 1)%float)
  && match Brick.name b with
     | Some n => negb (String.eqb n "") && seven_bit n
     | None => true
     end
  && match Brick.model b with
     | Some m => JS.truthy m && finite m
     | None => true
     end
  && (if Brick.lightEnabled b then
        seven_bit (Brick.lightColor b)
        && match Brick.lightRange b with
           | JS.Num f => finite f
           | JS.Str s => seven_bit s
           | JS.Undefined => false
           end
      else true)
  && (if Brick.clickable b then finite (Brick.clickDistance b) else true).

(** Equality of two field values as JavaScript compares them: numbers
    by [==], strings and booleans by identity. *)
Definition same_number (a b : float) : bool := (a =? b)%float.

Definition same_value (a b : JS.value) : bool :=
  match a, b with
  | JS.Undefined, JS.Undefined => true
  | JS.Num x, JS.Num y => same_number x y
  | JS.Str s, JS.Str t => String.eqb s t
  | _, _ => false
  end.

Definition same_option {A} (same : A -> A -> bool) (a b : option A) : bool :=
  match a, b with
  | Some x, Some y => same x y
  | None, None => true
  | _, _ => false
  end.

(** The fields of [b] are found again in [b']: position, scale, color,
    visibility, collision, name, rotation, model and the two switches
    always, the light settings when the light is enabled, the click
    distance when the brick is clickable. *)
Definition same_fields (b b' : Brick.t) : bool :=
  Vector3.equalsVector (Brick.position b) (Brick.position b')
  && Vector3.equalsVector (Brick.scale b) (Brick.scale b')
  && String.eqb (Brick.color b) (Brick.color b')
  && same_number (Brick.visibility b) (Brick.visibility b')
  && Bool.eqb (Brick.collision b) (Brick.collision b')
  && same_option String.eqb (Brick.name b) (Brick.name b')
  && Vector3.equalsVector (Brick.rotation b) (Brick.rotation b')
  && same_option same_number (Brick.model b) (Brick.model b')
  && Bool.eqb (Brick.lightEnabled b) (Brick.lightEnabled b')
  && Bool.eqb (Brick.clickable b) (Brick.clickable b')
  && (if Brick.lightEnabled b then
        String.eqb (Brick.lightColor b) (Brick.lightColor b')
        && same_value (Brick.lightRange b) (Brick.lightRange b')
      else true)
  && (if Brick.clickable b then
        same_number (Brick.clickDistance b) (Brick.clickDistance b')
      else true).

(** What the object [o] written for the brick [b] leaves out: each of
    position, scale, rotation, color, visibility, collision, name and model
    when the brick has the value of the default brick for it, and the
    light settings and the click settings when the switch is off.  When
    the switch is on, the settings are written whatever their values. *)
Definition omits_defaults (b : Brick.t) (o : object) : Prop :=
  (Vector3.equalsVector (Brick.position b) (Brick.position DEFAULT_BRICK)
   = true -> "position" ∉ keys o)
  /\ (Vector3.equalsVector (Brick.scale b) (Brick.scale DEFAULT_BRICK) = true ->
      "scale" ∉ keys o)
  /\ (Vector3.equalsVector (Brick.rotation b) (Brick.rotation DEFAULT_BRICK)
      = true -> "rotation" ∉ keys o)
  /\ (Brick.color b = Brick.color DEFAULT_BRICK -> "color" ∉ keys o)
  /\ (same_number (Brick.visibility b) (Brick.visibility DEFAULT_BRICK) = true ->
      "visibility" ∉ keys o)
  /\ (Brick.collision b = Brick.collision DEFAULT_BRICK ->
      "collision" ∉ keys o)
  /\ (Brick.name b = Brick.name DEFAULT_BRICK -> "name" ∉ keys o)
  /\ (Brick.model b = Brick.model DEFAULT_BRICK -> "model" ∉ keys o)
  /\ (Brick.lightEnabled b = Brick.lightEnabled DEFAULT_BRICK ->
      ("lightEnabled" ∉ keys o) /\ ("lightColor" ∉ keys o)
      /\ ("lightRange" ∉ keys o))
  /\ (Brick.clickable b = Brick.clickable DEFAULT_BRICK ->
      ("clickable" ∉ keys o) /\ ("clickDistance" ∉ keys o))
  /\ (Brick.lightEnabled b = true ->
      ("lightEnabled" ∈ keys o) /\ ("lightColor" ∈ keys o)
      /\ (Brick.lightRange b <> JS.Undefined -> "lightRange" ∈ keys o))
  /\ (Brick.clickable b = true ->
      ("clickable" ∈ keys o) /\ ("clickDistance" ∈ keys o)).

(** *** The bricks that come back *)

(** The number that comes back for a finite number: itself, a zero of
    either sign as 0. *)
Definition renorm (f : float) : float := if is_zero f then 0%float else f.

Definition renorm3 (v : Vector3.t) : Vector3.t :=
  Vector3.new (renorm (Vector3.x v)) (renorm (Vector3.y v))
    (renorm (Vector3.z v)).

Definition renorm_value (v : JS.value) : JS.value :=
  match v with
  | JS.Num f => JS.Num (renorm f)
  | other => other
  end.

(** What the loop over the keys makes of the brick [x] when the object
    is the one written for the brick [b], property by property. *)
Definition dec_position (b x : Brick.t) : Brick.t :=
  if negb (Vector3.equalsVector (Brick.position b)
             (Brick.position DEFAULT_BRICK))
  then Brick.set_position (renorm3 (Brick.position b)) x else x.

Definition dec_scale (b x : Brick.t) : Brick.t :=
  if negb (Vector3.equalsVector (Brick.scale b) (Brick.scale DEFAULT_BRICK))
  then Brick.set_scale (renorm3 (Brick.scale b)) x else x.

Definition dec_color (b x : Brick.t) : Brick.t :=
  if negb (String.eqb (Brick.color b) (Brick.color DEFAULT_BRICK))
  then Brick.set_color (Brick.color b) x else x.

Definition dec_visibility (b x : Brick.t) : Brick.t :=
  if (Brick.visibility b <? 1)%float
  then Brick.set_visibility (renorm (Brick.visibility b)) x else x.

Definition dec_collision (b x : Brick.t) : Brick.t :=
  if negb (Brick.collision b) then Brick.set_collision false x else x.

Definition dec_name (name : option string) (x : Brick.t) : Brick.t :=
  match name with
  | Some n => if negb (String.eqb n "") then Brick.set_name (Some n) x else x
  | None => x
  end.

Definition dec_rotation (b x : Brick.t) : Brick.t :=
  if negb (Vector3.equalsVector (Brick.rotation b)
             (Brick.rotation DEFAULT_BRICK))
  then Brick.set_rotation (renorm3 (Brick.rotation b)) x else x.

Definition dec_model (model : option float) (x : Brick.t) : Brick.t :=
  match model with
  | Some m => if JS.truthy m then Brick.set_model (Some (renorm m)) x else x
  | None => x
  end.

Definition dec_light (b x : Brick.t) : Brick.t :=
  if Brick.lightEnabled b
  then Brick.set_lightRange (renorm_value (Brick.lightRange b))
         (Brick.set_lightColor (Brick.lightColor b)
            (Brick.set_lightEnabled true x))
  else x.

Definition dec_click (b x : Brick.t) : Brick.t :=
  if Brick.clickable b
  then Brick.set_clickDistance (renorm (Brick.clickDistance b))
         (Brick.set_clickable true x)
  else x.

Definition decode (b x : Brick.t) : Brick.t :=
  dec_click b
    (dec_light b
       (dec_model (Brick.model b)
          (dec_rotation b
             (dec_name (Brick.name b)
                (dec_collision b
                   (dec_visibility b
                      (dec_color b (dec_scale b (dec_position b x))))))))).

(** The fields that are not among the properties that [serialize]
    writes. *)
Definition untouched (b : Brick.t) :=
  (Brick.netId b, Brick.socket b, Brick.destroyed b, Brick.shape b,
   Brick._steps b, Brick._hitMonitor b, Brick._hitMonitorActive b,
   Brick._events b, Brick._playersTouching b).

End Serialize.

(** ** The .brk map loader (scripts/world/loadBrk) *)
Module LoadBrk.

(** *** String methods *)

(** The white space that [trim] removes, among the code units 0..255. *)
Definition is_space (c : ascii) : bool :=
  let n := nat_of_ascii c in
  ((9 <=? n) && (n <=? 13) || (n =? 32) || (n =? 160))%nat.

Fixpoint trimStart (s : string) : string :=
  match s with
  | String c rest => if is_space c then trimStart rest else s
  | EmptyString => EmptyString
  end.

Fixpoint trimEnd (s : string) : string :=
  match s with
  | String c rest =>
      let rest := trimEnd rest in
      if is_space c && String.eqb rest "" then "" else String c rest
  | EmptyString => EmptyString
  end.

(** [s.trim()] *)
Definition trim (s : string) : string := trimEnd (trimStart s).

(** [s.split(sep)] for a separator of one character. *)
Fixpoint split (sep : ascii) (s : string) : list string :=
  match s with
  | EmptyString => [EmptyString]
  | String c rest =>
      let parts := split sep rest in
      if Ascii.eqb c sep then EmptyString :: parts
      else
        match parts with
        | part :: parts => String c part :: parts
        | [] => [String c EmptyString]
        end
  end.

(** [s.replace(c, "")]: the first occurrence only. *)
Fixpoint remove_first_char (c : ascii) (s : string) : string :=
  match s with
  | String d rest =>
      if Ascii.eqb d c then rest else String d (remove_first_char c rest)
  | EmptyString => EmptyString
  end.

Definition LF : ascii := ascii_of_nat 10.
Definition SPACE : ascii := ascii_of_nat 32.
Definition PLUS : ascii := ascii_of_nat 43.

(** *** The entities that the loader creates *)

(** Modelled from the spec: the Team class is not among the sources.  A
    team record keeps the two constructor arguments, a name and a color;
    the loader passes as name the entry it replaces, which is the name
    pushed by a [>TEAM] line, a team built by an earlier [COLOR] line, or
    nothing. *)
#[warnings="-register-all"]
Inductive team_entry :=
| TeamName (name : string)
| Team (name : option team_entry) (color : string).

(** Modelled from the spec: the Tool class is not among the sources.  A
    tool is a "named inventory item"; the record keeps the constructor
    argument. *)
Record Tool := { tool_name : string }.

(** The weather types of Game. *)
Inductive Weather := Sun | Rain | Snow.

Record Environment := {
  ambient : option string;
  baseColor : option string;
  skyColor : option string;
  baseSize : option float;
  sunIntensity : option float;
  weather : option Weather
}.

(** The variables of [loadBrk].  [spawns] holds the positions in [bricks]
    of the bricks that were pushed to it: both arrays share the brick
    objects.  [teams_minus1] is the property "-1" that
    [teams[teams.length - 1] = team] sets on an empty array. *)
Record state := {
  totalLines : nat;
  bricks : list Brick.t;
  spawns : list nat;
  tools : list Tool;
  teams : list team_entry;
  teams_minus1 : option team_entry;
  environment : Environment;
  currentBrick : Z;
  scriptWarning : bool;
  statics : Statics;
  console : list string
}.

(** How the call ends: with the map data, with the exit of the process,
    or with a TypeError (a rejected promise). *)
Inductive outcome :=
| Loaded (result : state)
| ProcessExit (code : Z) (at_exit : state)
| TypeError.

Definition HEADER : string := "B R I C K  W O R K S H O P  V0.2.0.0".

(** [RGB[0]], [RGB[1]] and [RGB[2]] of the array that [convertRGB]
    returns. *)
Definition RGB0 {channel : Type} (RGB : channel * channel * channel) : channel :=
  fst (fst RGB).
Definition RGB1 {channel : Type} (RGB : channel * channel * channel) : channel :=
  snd (fst RGB).
Definition RGB2 {channel : Type} (RGB : channel * channel * channel) : channel :=
  snd RGB.

Section Loader.

(** What the loader takes from outside: the [Number] conversion of a
    string and the remainder operator of JavaScript, and the two functions
    of util/color/colorModule, which is not among the sources ([channel]
    is what [convertRGB] returns for each of the three channels). *)
Context {channel : Type}.
Variable Number : string -> float.
Variable js_rem : float -> float -> float.
Variable convertRGB :
  option string -> option string -> option string -> channel * channel * channel.
Variable rgbToHex : channel -> channel -> channel -> string.

Definition set_environment (v : Environment) (s : state) : state :=
  {| totalLines := totalLines s; bricks := bricks s; spawns := spawns s;
     tools := tools s; teams := teams s; teams_minus1 := teams_minus1 s;
     environment := v; currentBrick := currentBrick s;
     scriptWarning := scriptWarning s; statics := statics s;
     console := console s |}.
Definition set_bricks (v : list Brick.t) (s : state) : state :=
  {| totalLines := totalLines s; bricks := v; spawns := spawns s;
     tools := tools s; teams := teams s; teams_minus1 := teams_minus1 s;
     environment := environment s; currentBrick := currentBrick s;
     scriptWarning := scriptWarning s; statics := statics s;
     console := console s |}.
Definition set_spawns (v : list nat) (s : state) : state :=
  {| totalLines := totalLines s; bricks := bricks s; spawns := v;
     tools := tools s; teams := teams s; teams_minus1 := teams_minus1 s;
     environment := environment s; currentBrick := currentBrick s;
     scriptWarning := scriptWarning s; statics := statics s;
     console := console s |}.
Definition set_tools (v : list Tool) (s : state) : state :=
  {| totalLines := totalLines s; bricks := bricks s; spawns := spawns s;
     tools := v; teams := teams s; teams_minus1 := teams_minus1 s;
     environment := environment s; currentBrick := currentBrick s;
     scriptWarning := scriptWarning s; statics := statics s;
     console := console s |}.
Definition set_teams (v : list team_entry) (m1 : option team_entry)
    (s : state) : state :=
  {| totalLines := totalLines s; bricks := bricks s; spawns := spawns s;
     tools := tools s; teams := v; teams_minus1 := m1;
     environment := environment s; currentBrick := currentBrick s;
     scriptWarning := scriptWarning s; statics := statics s;
     console := console s |}.
Definition set_totalLines (v : nat) (s : state) : state :=
  {| totalLines := v; bricks := bricks s; spawns := spawns s;
     tools := tools s; teams := teams s; teams_minus1 := teams_minus1 s;
     environment := environment s; currentBrick := currentBrick s;
     scriptWarning := scriptWarning s; statics := statics s;
     console := console s |}.
Definition set_currentBrick (v : Z) (s : state) : state :=
  {| totalLines := totalLines s; bricks := bricks s; spawns := spawns s;
     tools := tools s; teams := teams s; teams_minus1 := teams_minus1 s;
     environment := environment s; currentBrick := v;
     scriptWarning := scriptWarning s; statics := statics s;
     console := console s |}.
Definition set_scriptWarning (v : bool) (s : state) : state :=
  {| totalLines := totalLines s; bricks := bricks s; spawns := spawns s;
     tools := tools s; teams := teams s; teams_minus1 := teams_minus1 s;
     environment := environment s; currentBrick := currentBrick s;
     scriptWarning := v; statics := statics s; console := console s |}.
Definition set_statics (v : Statics) (s : state) : state :=
  {| totalLines := totalLines s; bricks := bricks s; spawns := spawns s;
     tools := tools s; teams := teams s; teams_minus1 := teams_minus1 s;
     environment := environment s; currentBrick := currentBrick s;
     scriptWarning := scriptWarning s; statics := v; console := console s |}.
Definition log (line : string) (s : state) : state :=
  {| totalLines := totalLines s; bricks := bricks s; spawns := spawns s;
     tools := tools s; teams := teams s; teams_minus1 := teams_minus1 s;
     environment := environment s; currentBrick := currentBrick s;
     scriptWarning := scriptWarning s; statics := statics s;
     console := (console s ++ [line])%list |}.

(** The state before the first line. *)
Definition start (st : Statics) : state :=
  {| totalLines := 0; bricks := []; spawns := []; tools := []; teams := [];
     teams_minus1 := None;
     environment :=
       {| ambient := None; baseColor := None; skyColor := None;
          baseSize := None; sunIntensity := None; weather := None |};
     currentBrick := -1; scriptWarning := false; statics := st;
     console := [] |}.

(** How the body of the loop ends for one line. *)
Inductive step :=
| Continue (s : state)
| Exit (code : Z) (s : state)
| Throw.

(** [bricks[currentBrick].field = ...]: a TypeError when there is no
    current brick. *)
Definition on_current (f : Brick.t -> Brick.t) (s : state) : step :=
  if currentBrick s <? 0 then Throw
  else
    let i := Z.to_nat (currentBrick s) in
    match bricks s !! i with
    | Some b => Continue (set_bricks (<[i := f b]> (bricks s)) s)
    | None => Throw
    end.

(** [convertRGB(parts[0], parts[1], parts[2])] *)
Definition convert (parts : list string) : channel * channel * channel :=
  convertRGB (parts !! 0%nat) (parts !! 1%nat) (parts !! 2%nat).

Definition set_ambient (v : string) (e : Environment) : Environment :=
  {| ambient := Some v; baseColor := baseColor e; skyColor := skyColor e;
     baseSize := baseSize e; sunIntensity := sunIntensity e;
     weather := weather e |}.
Definition set_baseColor (v : string) (e : Environment) : Environment :=
  {| ambient := ambient e; baseColor := Some v; skyColor := skyColor e;
     baseSize := baseSize e; sunIntensity := sunIntensity e;
     weather := weather e |}.
Definition set_skyColor (v : string) (e : Environment) : Environment :=
  {| ambient := ambient e; baseColor := baseColor e; skyColor := Some v;
     baseSize := baseSize e; sunIntensity := sunIntensity e;
     weather := weather e |}.
Definition set_baseSize (v : float) (e : Environment) : Environment :=
  {| ambient := ambient e; baseColor := baseColor e; skyColor := skyColor e;
     baseSize := Some v; sunIntensity := sunIntensity e;
     weather := weather e |}.
Definition set_sunIntensity (v : float) (e : Environment) : Environment :=
  {| ambient := ambient e; baseColor := baseColor e; skyColor := skyColor e;
     baseSize := baseSize e; sunIntensity := Some v;
     weather := weather e |}.
Definition set_weather (v : Weather) (e : Environment) : Environment :=
  {| ambient := ambient e; baseColor := baseColor e; skyColor := skyColor e;
     baseSize := baseSize e; sunIntensity := sunIntensity e;
     weather := Some v |}.

(** The first switch of the loop, on [totalLines]; [None] when no case
    applies and the body goes on. *)
Definition environment_line (line : string) (s : state) : option step :=
  let env := environment s in
  match totalLines s with
  | 1%nat =>
      if negb (String.eqb line HEADER) then
        Some (Exit 0
                (log "ERROR: This set was created using an incompatible version of Brick Hill." s))
      else Some (Continue s)
  | 3%nat =>
      let RGB := convert (split SPACE line) in
      Some (Continue
              (set_environment
                 (set_ambient (rgbToHex (RGB2 RGB) (RGB1 RGB) (RGB0 RGB)) env)
                 s))
  | 4%nat =>
      let RGB := convert (split SPACE line) in
      Some (Continue
              (set_environment
                 (set_baseColor (rgbToHex (RGB2 RGB) (RGB1 RGB) (RGB0 RGB))
                    env) s))
  | 5%nat =>
      let RGB := convert (split SPACE line) in
      Some (Continue
              (set_environment
                 (set_skyColor (rgbToHex (RGB0 RGB) (RGB1 RGB) (RGB2 RGB))
                    env) s))
  | 6%nat =>
      Some (Continue (set_environment (set_baseSize (Number line) env) s))
  | 7%nat =>
      Some (Continue (set_environment (set_sunIntensity (Number line) env) s))
  | _ => None
  end.

(** [new Vector3(x, y, z)] with arguments that may be undefined. *)
Definition Vector3_of (x y z : option float) : Vector3.t :=
  Vector3.new (default 0%float x) (default 0%float y) (default 0%float z).

(** The second switch of the loop, on [ATTRIBUTE]; [None] when no case
    applies and the body goes on. *)
Definition attribute_line (ATTRIBUTE VALUE : string) (s : state)
    : option step :=
  if String.eqb ATTRIBUTE "NAME" then
    Some (on_current (Brick.set_name (Some VALUE)) s)
  else if String.eqb ATTRIBUTE "ROT" then
    let rot := map Number (split SPACE VALUE) in
    if (length rot =? 1)%nat then
      let rot0 := default nan (rot !! 0%nat) in
      Some (on_current
              (Brick.set_rotation
                 (Vector3.new 0 0
                    (if JS.neq (js_rem rot0 90) 0 then (rot0 + 90)%float
                     else 0%float))) s)
    else
      Some (on_current
              (Brick.set_rotation
                 (Vector3_of (rot !! 0%nat) (rot !! 1%nat) (rot !! 2%nat))) s)
  else if String.eqb ATTRIBUTE "SHAPE" then
    match on_current (Brick.set_shape (Some VALUE)) s with
    | Continue s =>
        if String.eqb VALUE "spawnpoint" then
          Some (Continue
                  (set_spawns (spawns s ++ [Z.to_nat (currentBrick s)])%list s))
        else Some (Continue s)
    | other => Some other
    end
  else if String.eqb ATTRIBUTE "MODEL" then
    Some (on_current (Brick.set_model (Some (Number VALUE))) s)
  else if String.eqb ATTRIBUTE "NOCOLLISION" then
    Some (on_current (Brick.set_collision false) s)
  else if String.eqb ATTRIBUTE "COLOR" then
    let color := convert (split SPACE VALUE) in
    let hex := rgbToHex (RGB0 color) (RGB1 color) (RGB2 color) in
    match length (teams s) with
    | O =>
        let team := Team (teams_minus1 s) hex in
        Some (Continue (set_teams (teams s) (Some team) s))
    | S i =>
        let team := Team (teams s !! i) hex in
        Some (Continue (set_teams (<[i := team]> (teams s)) (teams_minus1 s) s))
    end
  else if String.eqb ATTRIBUTE "LIGHT" then
    let colors := split SPACE VALUE in
    let lightRange :=
      match colors !! 3%nat with
      | Some range => JS.Str range
      | None => JS.Undefined
      end in
    let RGB := convert colors in
    match on_current (Brick.set_lightEnabled true) s with
    | Continue s =>
        match on_current (Brick.set_lightRange lightRange) s with
        | Continue s =>
            Some (on_current
                    (Brick.set_lightColor
                       (rgbToHex (RGB0 RGB) (RGB1 RGB) (RGB2 RGB))) s)
        | other => Some other
        end
    | other => Some other
    end
  else if String.eqb ATTRIBUTE "SCRIPT" then
    if scriptWarning s then Some (Continue s)
    else
      Some (Continue
              (log "WARNING: This set contains scripts. Scripts are incompatible with node-hill so they will not be loaded."
                 (set_scriptWarning true s)))
  else None.

(** The rest of the body: a brick definition, a team, a tool. *)
Definition definition_line (DATA : list string) (VALUE : string) (s : state)
    : state :=
  let DATA0 := default "" (DATA !! 0%nat) in
  let s :=
    if (length DATA =? 10)%nat then
      let field (i : nat) := default "" (DATA !! i) in
      let RGB :=
        convertRGB (DATA !! 6%nat) (DATA !! 7%nat) (DATA !! 8%nat) in
      let xPos := Number (field 0%nat) in
      let yPos := Number (field 1%nat) in
      let zPos := Number (field 2%nat) in
      let xScale := Number (field 3%nat) in
      let yScale := Number (field 4%nat) in
      let zScale := Number (field 5%nat) in
      let color := rgbToHex (RGB0 RGB) (RGB1 RGB) (RGB2 RGB) in
      let transparency := Number (field 9%nat) in
      let '(st, newBrick) :=
        Brick.constructor (statics s)
          (Some (Vector3.new xPos yPos zPos))
          (Some (Vector3.new xScale yScale zScale))
          (Some color) in
      let newBrick := Brick.set_visibility transparency newBrick in
      set_currentBrick (currentBrick s + 1)
        (set_bricks (bricks s ++ [newBrick])%list (set_statics st s))
    else s in
  let s :=
    if negb (String.eqb DATA0 "") && String.eqb DATA0 ">TEAM" then
      set_teams (teams s ++ [TeamName VALUE])%list (teams_minus1 s) s
    else s in
  if negb (String.eqb DATA0 "") && String.eqb DATA0 ">SLOT" then
    set_tools (tools s ++ [{| tool_name := VALUE |}])%list s
  else s.

(** The body of [for (let line of LINES)]. *)
Definition line_step (line : string) (s : state) : step :=
  let s := set_totalLines (S (totalLines s)) s in
  let line := trim line in
  match environment_line line s with
  | Some result => result
  | None =>
      let DATA := split SPACE line in
      let ATTRIBUTE := remove_first_char PLUS (default "" (DATA !! 0%nat)) in
      let VALUE := String.concat " " (drop 1 DATA) in
      match attribute_line ATTRIBUTE VALUE s with
      | Some result => result
      | None => Continue (definition_line DATA VALUE s)
      end
  end.

Fixpoint lines_loop (LINES : list string) (s : state) : outcome :=
  match LINES with
  | [] => Loaded s
  | line :: LINES =>
      match line_step line s with
      | Continue s => lines_loop LINES s
      | Exit code s => ProcessExit code s
      | Throw => TypeError
      end
  end.

(** [loadBrk(map)] on the text [FILE] read from the map, with the static
    counters and the weather of the game at the time of the call. *)
Definition loadBrk (st : Statics) (game_weather : Weather) (FILE : string)
    : outcome :=
  let LINES := split LF FILE in
  match lines_loop LINES (start st) with
  | Loaded s =>
      Loaded (set_environment (set_weather game_weather (environment s)) s)
  | other => other
  end.

End Loader.

(** *** What the loop keeps *)

Definition WARNING : string :=
  "WARNING: This set contains scripts. Scripts are incompatible with node-hill so they will not be loaded.".

(** The current brick is the last one of [bricks], every spawn is one of
    the bricks, and the console holds the warning about scripts once when
    it was given and is empty otherwise. *)
Definition well_formed (s : state) : Prop :=
  currentBrick s = Z.of_nat (length (bricks s)) - 1
  /\ Forall (fun i => (i < length (bricks s))%nat) (spawns s)
  /\ console s = (if scriptWarning s then [WARNING] else []).

Definition layout (s : state) :=
  (totalLines s, length (bricks s), spawns s, currentBrick s,
   scriptWarning s, console s).

(** The attributes that are written to the current brick. *)
Definition needs_brick : list string :=
  ["NAME"; "ROT"; "SHAPE"; "MODEL"; "NOCOLLISION"; "LIGHT"].

(** The word [ATTRIBUTE] of a line: its first word, without its first
    "+". *)
Definition keyword (line : string) : string :=
  remove_first_char PLUS (default "" (split SPACE (trim line) !! 0%nat)).

(** The number of lines read so far is such that the next line is one of
    the lines 3 to 7. *)
Definition environment_position (n : nat) : Prop :=
  (n = 2 \/ n = 3 \/ n = 4 \/ n = 5 \/ n = 6)%nat.

Definition attribute_result (ATTRIBUTE : string) (s : state) (r : step)
    : Prop :=
  match r with
  | Continue s' =>
      well_formed s' /\ totalLines s' = totalLines s
      /\ length (bricks s') = length (bricks s)
      /\ (ATTRIBUTE ∈ needs_brick -> bricks s <> [])
  | Exit _ _ => False
  | Throw => bricks s = [] /\ ATTRIBUTE ∈ needs_brick
  end.

End LoadBrk.

(** ** Instances of the outside functions, for closed examples *)
Module Examples.

Definition digit (c : ascii) : option nat :=
  let n := nat_of_ascii c in
  if ((48 <=? n) && (n <=? 57))%nat then Some (n - 48)%nat else None.

Fixpoint digits_value (acc : nat) (s : string) : option nat :=
  match s with
  | EmptyString => Some acc
  | String c rest =>
      match digit c with
      | Some d => digits_value (10 * acc + d) rest
      | None => None
      end
  end.

Fixpoint float_of_nat (n : nat) : float :=
  match n with
  | O => 0%float
  | S n => (float_of_nat n + 1)%float
  end.

(** [Number(s)] for a string of decimal digits (and of no more of them
    than a small integer takes); [NaN] stands for the rest. *)
Definition Number (s : string) : float :=
  match digits_value 0 s with
  | Some n => float_of_nat n
  | None => nan
  end.

(** A remainder for the closed examples, none of which has a ROT line:
    [a % b] when [a] is the smaller one in magnitude. *)
Definition js_rem (a b : float) : float := a.

(** A color module whose channels are the byte values written in
    decimal, each printed as two hexadecimal digits. *)
Definition convertRGB (r g b : option string) : nat * nat * nat :=
  let channel (c : option string) :=
    default 0%nat (c ≫= digits_value 0) in
  (channel r, channel g, channel b).

Definition hex_digit (n : nat) : string :=
  String.substring n 1 "0123456789abcdef".

Definition hex2 (n : nat) : string :=
  hex_digit (n / 16) ++ hex_digit (n mod 16).

Definition rgbToHex (r g b : nat) : string :=
  "#" ++ hex2 r ++ hex2 g ++ hex2 b.

(** A brick of 5 x 5 x 5 at the origin. *)
Definition brick0 : Brick.t :=
  snd (Brick.constructor process_start (Some (Vector3.new 0 0 0))
         (Some (Vector3.new 5 5 5)) None).

(** A live player who stands at the origin, inside [brick0]; the same
    player after they left the game; a live player far away. *)
Definition standing : Player.t :=
  Player.set_alive true (snd (Player.constructor process_start 0)).



(** A live player with four local bricks. *)
Definition builder : Player.t :=
  Player.set_localBricks [1%nat; 2%nat; 3%nat; 4%nat] standing.

(** A world with two bricks, after a listener of "touching" and an
    interval were attached to the first one. *)
Definition brick_world : Brick.world :=
  snd (Brick.setInterval 1
         (Brick.on "touching" 1
            {| Brick.players := [1%nat];
               Brick.player_store := fun _ => standing;
               Brick.bricks := [1%nat; 2%nat];
               Brick.brick_store := fun _ => brick0;
               Brick.intervals := ∅;
               Brick.next_interval := 0;
               Brick.packets := [] |})).


(** A brick with every serialized field away from its default. *)
Definition door : Brick.t :=
  Brick.set_clickDistance 30
    (Brick.set_clickable true
       (Brick.set_lightRange (JS.Num 10)
          (Brick.set_lightColor "#ff0000"
             (Brick.set_lightEnabled true
                (Brick.set_model (Some 7%float)
                   (Brick.set_rotation (Vector3.new 0 0 90)
                      (Brick.set_name (Some "door")
                         (Brick.set_collision false
                            (Brick.set_visibility 0.5
                               (Brick.set_color "#f54242" brick0)))))))))).

(** A world whose one brick comes straight from the constructor. *)
Definition fresh_world : Brick.world :=
  {| Brick.players := [1%nat];
     Brick.player_store := fun _ => standing;
     Brick.bricks := [1%nat];
     Brick.brick_store := fun _ => brick0;
     Brick.intervals := ∅;
     Brick.next_interval := 0;
     Brick.packets := [] |}.

(** A sound emitter as the constructor makes it, and one that loops. *)
Definition chime : SoundEmitter.t :=
  snd (SoundEmitter.constructor process_start 7 None None).

Definition siren : SoundEmitter.t :=
  {| SoundEmitter.netId := Some 2; SoundEmitter.sound := 9;
     SoundEmitter.volume := 0.5; SoundEmitter.pitch := 1;
     SoundEmitter.range := 30; SoundEmitter.loop := true;
     SoundEmitter.global := false;
     SoundEmitter.position := Vector3.new 1 2 3;
     SoundEmitter.destroyed := false; SoundEmitter._steps := [];
     SoundEmitter._events := [] |}.

(** A game with two players in which the first one owns an interval. *)
Definition game : Game.t :=
  {| Game.world :=
       {| Brick.players := [1%nat; 2%nat];
          Brick.player_store :=
            fun _ =>
              {| Player.netId := 1; Player._steps := [0%nat];
                 Player._positionDeltaTime := 0; Player.destroyed := false;
                 Player.position := Vector3.new 0 0 0;
                 Player.rotation := Vector3.new 0 0 0;
                 Player.scale := Vector3.new 1 1 1;
                 Player.cameraRotation := Vector3.new 0 0 0;
                 Player.alive := true; Player.inventory := [];
                 Player.toolEquipped := None; Player.localBricks := [] |};
          Brick.bricks := [];
          Brick.brick_store := fun _ => brick0;
          Brick.intervals := {[0%nat]};
          Brick.next_interval := 1;
          Brick.packets := [] |};
     Game.authenticated := fun _ => true;
     Game.username := fun _ => "brick-luke";
     Game.systemMessages := true |}.

(** A player fresh from the constructor, and a walk: three position
    packets, the second of which comes 20 ms after the first, with a
    [setPosition] of a script in between. *)
Definition walker : Player.t := snd (Player.constructor process_start 0).

Definition walk : list Player.move :=
  [ Player.Packet
      {| Player.t_check := 100; Player.t_store := 100;
         Player.pos := [1; 2; 3; 0; 0]%float |};
    Player.Script (Vector3.new 9 9 9);
    Player.Packet
      {| Player.t_check := 120; Player.t_store := 121;
         Player.pos := [4; 5; 6; 0; 0]%float |};
    Player.Packet
      {| Player.t_check := 150; Player.t_store := 150;
         Player.pos := [7; 8; 9; 0; 0]%float |} ].

(** The listener of the example in the documentation of [touching],
    [player.kill()]: it clears [alive] of the player. *)
Definition lava : Brick.listeners :=
  fun e sc =>
    match e with
    | Brick.Touching r =>
        (<[r := Player.set_alive false (fst sc r)]> (fst sc), snd sc)
    | Brick.TouchingEnded _ => sc
    end.

(** A live player with one tool, which they hold. *)
Definition fighter : Player.living :=
  {| Player.session :=
       Player.set_toolEquipped (Some 7%nat)
         (Player.set_inventory [7%nat] standing);
     Player.maxHealth := 100; Player.health := 40;
     Player.spawnPosition := None; Player.cameraType := "fixed";
     Player.cameraObject := 1%nat;
     Player.cameraPosition := Vector3.new 0 0 0; Player.cameraFOV := 60 |}.

(** A color code for the closed examples: the digits themselves. *)
Definition hexToDec (hex : string) : JS.value :=
  JS.Str (LoadBrk.remove_first_char "#" hex).

End Examples.

(** ** Sequences of constructions *)
Module Construction.

Inductive kind := KBrick | KPlayer | KSoundEmitter.

#[global] Instance kind_eq_dec : EqDecision kind.
Proof. solve_decision. Defined.

(** A call of one of the three constructors, with its arguments. *)
Inductive t :=
| NewBrick (position scale : option Vector3.t) (color : option string)
| NewPlayer (now : Z)
| NewSoundEmitter (sound : float) (position : option Vector3.t)
    (range : option float).

Definition kind_of (c : t) : kind :=
  match c with
  | NewBrick _ _ _ => KBrick
  | NewPlayer _ => KPlayer
  | NewSoundEmitter _ _ _ => KSoundEmitter
  end.

(** The counter that the constructor of a kind increments. *)
Definition counter (k : kind) (st : Statics) : Z :=
  match k with
  | KBrick => brickId st
  | KPlayer => playerId st
  | KSoundEmitter => soundEmitterId st
  end.

(** Runs the constructor; the result is the [netId] field of the object
    that it built. *)
Definition construct (c : t) (st : Statics) : Statics * option Z :=
  match c with
  | NewBrick position scale color =>
      let '(st, b) := Brick.constructor st position scale color in
      (st, Brick.netId b)
  | NewPlayer now =>
      let '(st, p) := Player.constructor st now in
      (st, Some (Player.netId p))
  | NewSoundEmitter sound position range =>
      let '(st, s) := SoundEmitter.constructor st sound position range in
      (st, SoundEmitter.netId s)
  end.

(** The entities built by a sequence of constructor calls, in order:
    the kind and the [netId] of each. *)
Fixpoint construct_all (cs : list t) (st : Statics)
    : list (kind * option Z) :=
  match cs with
  | [] => []
  | c :: cs =>
      let '(st, id) := construct c st in
      (kind_of c, id) :: construct_all cs st
  end.

End Construction.

(** * Properties *)

#[local] Set Warnings "-clear-no-such-hyp".

(** ** Identifiers (Brick, Player and SoundEmitter constructors) *)
Section Identifiers.
Import Construction.

Lemma incr_below (c : Z) : c < 2 ^ 53 -> JS.incr c = c + 1.
Proof.
  intros Hc. unfold JS.incr.
  destruct (Z.ltb_spec c (2 ^ 53)); [reflexivity | lia].
Qed.

Lemma incr_mono (c : Z) : c <= JS.incr c.
Proof. unfold JS.incr. destruct (c <? 2 ^ 53); lia. Qed.

(** What one constructor call does to the counters and which id it
    hands out. *)
Lemma construct_spec (c : t) (st : Statics) :
  let '(st', id) := construct c st in
  id = Some (JS.incr (counter (kind_of c) st))
  /\ counter (kind_of c) st' = JS.incr (counter (kind_of c) st)
  /\ forall k, k <> kind_of c -> counter k st' = counter k st.
Proof.
  destruct c; cbn; (split; [reflexivity | split; [reflexivity |]]);
    intros [] Hk; cbn; congruence.
Qed.

(** Every id handed out by a sequence of constructions lies above the
    counter of its kind at the start. *)
Lemma construct_all_above (cs : list t) :
  forall st i k id,
    (forall k, counter k st + Z.of_nat (length cs) <= 2 ^ 53) ->
    construct_all cs st !! i = Some (k, id) ->
    exists n, id = Some n /\ counter k st < n.
Proof.
  induction cs as [|c cs IH]; intros st i k id Hb Hi; [done|].
  cbn [construct_all] in Hi.
  pose proof (construct_spec c st) as Hc.
  destruct (construct c st) as [st' id0]. destruct Hc as (Hid & Hsame & Hother).
  assert (Hlt : counter (kind_of c) st < 2 ^ 53).
  { specialize (Hb (kind_of c)). cbn [length] in Hb. lia. }
  destruct i as [|i]; cbn in Hi.
  - inversion Hi; subst. eexists; split; [reflexivity|].
    rewrite incr_below by done. lia.
  - destruct (IH st' i k id) as (n & -> & Hn); [|done|].
    + intros k'. specialize (Hb k'). cbn [length] in Hb.
      destruct (decide (k' = kind_of c)) as [->|Hne].
      * rewrite Hsame, incr_below by done. lia.
      * rewrite Hother by done. lia.
    + exists n; split; [done|].
      destruct (decide (k = kind_of c)) as [->|Hne].
      * rewrite Hsame in Hn. pose proof (incr_mono (counter (kind_of c) st)). lia.
      * rewrite Hother in Hn by done. done.
Qed.

(** The ids of one kind grow strictly along a sequence of constructions. *)
Lemma construct_all_increasing (cs : list t) :
  forall st i j k id_i id_j,
    (forall k, counter k st + Z.of_nat (length cs) <= 2 ^ 53) ->
    (i < j)%nat ->
    construct_all cs st !! i = Some (k, id_i) ->
    construct_all cs st !! j = Some (k, id_j) ->
    exists n m, id_i = Some n /\ id_j = Some m /\ n < m.
Proof.
  induction cs as [|c cs IH]; intros st i j k id_i id_j Hb Hij Hi Hj; [done|].
  cbn [construct_all] in Hi, Hj.
  pose proof (construct_spec c st) as Hc.
  destruct (construct c st) as [st' id0]. destruct Hc as (Hid & Hsame & Hother).
  assert (Hlt : counter (kind_of c) st < 2 ^ 53).
  { specialize (Hb (kind_of c)). cbn [length] in Hb. lia. }
  assert (Hb' : forall k, counter k st' + Z.of_nat (length cs) <= 2 ^ 53).
  { intros k'. specialize (Hb k'). cbn [length] in Hb.
    destruct (decide (k' = kind_of c)) as [->|Hne].
    - rewrite Hsame, incr_below by done. lia.
    - rewrite Hother by done. lia. }
  destruct j as [|j]; [lia|]. cbn in Hj.
  destruct i as [|i]; cbn in Hi.
  - inversion Hi; subst.
    destruct (construct_all_above cs st' j _ _ Hb' Hj) as (m & -> & Hm).
    eexists _, m; split; [reflexivity | split; [reflexivity|]].
    rewrite Hsame in Hm. done.
  - eapply (IH st' i j); eauto. lia.
Qed.

End Identifiers.

(** C8.  Every Brick, Player and SoundEmitter takes at construction an
    integer [netId] from the counter of its class; two entities of the same
    kind built in one process never have the same [netId], so that an id
    is not handed out again while its entity is live.  The counters are
    JavaScript numbers: the sequence of constructions must leave them
    within the integers that a number counts exactly (up to 2^53). *)
Theorem netId_unique (cs : list Construction.t) (st : Statics) (i j : nat)
    (k : Construction.kind) (id_i id_j : option Z) :
  (forall k, Construction.counter k st + Z.of_nat (length cs) <= 2 ^ 53) ->
  i <> j ->
  Construction.construct_all cs st !! i = Some (k, id_i) ->
  Construction.construct_all cs st !! j = Some (k, id_j) ->
  exists n m, id_i = Some n /\ id_j = Some m /\ n <> m.
Proof.
  intros Hb Hij Hi Hj.
  destruct (Nat.lt_total i j) as [Hlt | [Heq | Hgt]]; [| done |].
  - destruct (construct_all_increasing cs st i j k id_i id_j)
      as (n & m & -> & -> & Hnm); try done.
    exists n, m. repeat split; lia.
  - destruct (construct_all_increasing cs st j i k id_j id_i)
      as (m & n & -> & -> & Hnm); try done.
    exists n, m. repeat split; lia.
Qed.

Lemma netId_unique_witness :
  exists n m, Some 1 = Some n /\ Some 2 = Some m /\ n <> m.
Proof.
  apply (netId_unique
           [Construction.NewBrick None None None; Construction.NewPlayer 0;
            Construction.NewBrick (Some (Vector3.new 1 2 3)) None None]
           process_start 0 2 Construction.KBrick (Some 1) (Some 2)).
  - intros []; cbn; lia.
  - lia.
  - reflexivity.
  - reflexivity.
Defined.

(** ** Tools (Player.equipTool) *)

(** C10.  A player has at most one tool in hand.  [equipTool] always
    resolves; the tool is in the inventory afterwards, added at the end
    (and sent to the player) before anything else when it was missing;
    called on the tool in hand it unequips it and leaves no tool in hand;
    called while another tool is in hand it unequips that one before it
    equips the new one; and the "equipped" and "unequipped" events of the
    call replay from the tool in hand before to the tool in hand after
    without ever holding two tools. *)
Theorem equipTool_one_tool_in_hand (tool : ref) (p : Player.t) :
  exists p' log,
    Player.equipTool tool p = JS.Resolved (p', log)
    /\ tool ∈ Player.inventory p'
    /\ (tool ∈ Player.inventory p -> Player.inventory p' = Player.inventory p)
    /\ (tool ∉ Player.inventory p ->
        Player.inventory p' = (Player.inventory p ++ [tool])%list
        /\ exists rest, log = Player.ToolPacket tool Send :: rest)
    /\ (Player.toolEquipped p = Some tool ->
        Player.toolEquipped p' = None
        /\ Player.EmitTool tool "unequipped" ∈ log
        /\ Player.EmitTool tool "equipped" ∉ log)
    /\ (forall old, Player.toolEquipped p = Some old -> old <> tool ->
        Player.toolEquipped p' = Some tool
        /\ exists l1 l2 l3,
             log = (l1 ++ Player.EmitTool old "unequipped" :: l2
                       ++ Player.EmitTool tool "equipped" :: l3)%list)
    /\ (Player.toolEquipped p = None -> Player.toolEquipped p' = Some tool)
    /\ Player.replay (Player.toolEquipped p) log
       = Some (Player.toolEquipped p').
Proof.
  unfold Player.equipTool, Player.addTool, Player.unequipTool.
  destruct p as [nid steps dt des pos rot sc cam al inv held locals]; cbn.
  destruct held as [old|]; repeat (case_bool_decide; cbn);
    simplify_eq; cbn.
  all: eexists _, _; split; [reflexivity|]; cbn.
  all: repeat (case_bool_decide; cbn); simplify_eq.
  all: split_and!; try done; intros; simplify_eq; try done.
  all: try (split_and!; try done).
  all: try (by eexists).
  all: try set_solver.
  all: try (by eexists [], [_], [_]).
  all: try (by eexists [_], [_], [_]).
Qed.

(** ** Position updates (Player._updatePositionForOthers) *)
Section PositionUpdates.
Import Player.

Lemma update_dropped (now1 now2 : Z) (pos : list float) (p : t) :
  now1 - _positionDeltaTime p < 50 ->
  _updatePositionForOthers now1 now2 pos p = (p, []).
Proof.
  intros H. unfold _updatePositionForOthers.
  destruct (Z.ltb_spec (now1 - _positionDeltaTime p) 50); [done | lia].
Qed.

Lemma changed_incoming (incoming : option float) (cur d : float) :
  changed incoming cur = true -> Some (incoming_or incoming d) = incoming.
Proof. destruct incoming; [reflexivity | discriminate]. Qed.

(** The value [0] (of either sign) is never a change. *)
Lemma changed_zero (v cur : float) :
  is_zero v = true -> changed (Some v) cur = false.
Proof. intros Hv. unfold changed, JS.truthy. by rewrite Hv. Qed.

(** [pos[i] && cur != pos[i]], spelled out. *)
Lemma changed_spec (incoming : option float) (cur : float) :
  changed incoming cur = true
  <-> exists v, incoming = Some v /\ is_zero v = false /\ is_nan v = false
                /\ (cur =? v)%float = false.
Proof.
  unfold changed, JS.truthy, JS.neq. destruct incoming as [v|].
  - rewrite andb_true_iff, !negb_true_iff, orb_false_iff. split.
    + intros [[Hz Hn] Hne]. eauto 6.
    + intros (? & [= <-] & Hz & Hn & Hne). done.
  - split; [done|]. by intros (? & ? & _).
Qed.

(** An accepted update, field by field. *)
Lemma update_accepted (now1 now2 : Z) (pos : list float) (p : t) :
  50 <= now1 - _positionDeltaTime p ->
  let '(p', log) := _updatePositionForOthers now1 now2 pos p in
  log = (if (String.length (tag_string pos p) =? 0)%nat then []
         else [EmitMoved (position p') (Vector3.z (rotation p'));
               PlayerIds p' (tag_string pos p) BroadcastExceptSelf])
  /\ _positionDeltaTime p' = now2
  /\ (forall i, (i < 4)%nat ->
        axis_value i p' = if tag_decision pos p i then pos !! i
                          else axis_value i p)
  /\ axis_value 4 p'
     = if changed (pos !! 4%nat) (Vector3.x (rotation p)) then pos !! 4%nat
       else axis_value 4 p.
Proof.
  intros H. unfold _updatePositionForOthers, tag_string, tag_decision.
  destruct (Z.ltb_spec (now1 - _positionDeltaTime p) 50); [lia|].
  destruct p as [nid steps dt des [x y z] [rx ry rz] sc [cx cy cz] al inv held locals].
  cbn.
  destruct (changed (pos !! 0%nat) x) eqn:E0; cbn;
  destruct (changed (pos !! 1%nat) y) eqn:E1; cbn;
  destruct (changed (pos !! 2%nat) z) eqn:E2; cbn;
  destruct (changed (pos !! 3%nat) rz) eqn:E3; cbn;
  destruct (changed (pos !! 4%nat) rx) eqn:E4; cbn.
  all: cbv beta iota delta [String.append String.length Nat.eqb negb].
  all: split; [reflexivity|]; cbn.
  all: split; [reflexivity|]; split; [|try reflexivity].
  all: try (intros [|[|[|[|i]]]] Hi; try lia; cbn;
            rewrite ?E0, ?E1, ?E2, ?E3; try reflexivity).
  all: eauto using changed_incoming.
Qed.

Local Ltac tag_witness n :=
  exists n; split_and!; [lia | reflexivity | assumption].

(** A tag is in the id string exactly when its decision is taken. *)
Lemma tag_in (pos : list float) (p : t) (c : ascii) :
  c ∈ tags (tag_string pos p)
  <-> exists i, (i < 4)%nat /\ axis_tag i = Some c
                /\ tag_decision pos p i = true.
Proof.
  unfold tag_string, tags.
  destruct (tag_decision pos p 0) eqn:E0, (tag_decision pos p 1) eqn:E1,
    (tag_decision pos p 2) eqn:E2, (tag_decision pos p 3) eqn:E3.
  all: cbv beta iota delta [String.append list_ascii_of_string].
  all: split.
  all: try (intros Hc; rewrite ?elem_of_cons, elem_of_nil in Hc;
            destruct_or?; simplify_eq; try done;
            first [ tag_witness 0%nat | tag_witness 1%nat
                  | tag_witness 2%nat | tag_witness 3%nat ]).
  all: intros ([|[|[|[|i]]]] & Hi & Htag & Hd); try lia;
    cbn in Htag; simplify_eq; first [congruence | set_solver].
Qed.

Lemma axis_tag_inj (i j : nat) (c : ascii) :
  axis_tag i = Some c -> axis_tag j = Some c -> i = j.
Proof.
  destruct i as [|[|[|[|i]]]], j as [|[|[|[|j]]]]; cbn; intros; by simplify_eq.
Qed.

Lemma axis_tag_lt (i : nat) (c : ascii) : axis_tag i = Some c -> (i < 4)%nat.
Proof. destruct i as [|[|[|[|i]]]]; cbn; intros; simplify_eq; lia. Qed.

Lemma tag_decision_zero (pos : list float) (p : t) (i : nat) (v : float) :
  pos !! i = Some v -> is_zero v = true -> tag_decision pos p i = false.
Proof.
  intros Hi Hv. unfold tag_decision.
  destruct i as [|[|[|[|i]]]]; cbn; rewrite ?Hi; auto using changed_zero.
Qed.

(** The only position packet of a log is the one that carries the tag
    string, with the player as it is after the update. *)
Lemma accepted_log_packet (p' snapshot : t) (tag_str ids : string)
    (to : addressing) :
  PlayerIds snapshot ids to
    ∈ (if (String.length tag_str =? 0)%nat then []
       else [EmitMoved (position p') (Vector3.z (rotation p'));
             PlayerIds p' tag_str BroadcastExceptSelf]) ->
  snapshot = p' /\ ids = tag_str /\ to = BroadcastExceptSelf.
Proof.
  destruct (String.length tag_str =? 0)%nat; intros Hin.
  - by apply elem_of_nil in Hin.
  - rewrite !elem_of_cons, elem_of_nil in Hin. destruct_or!; by simplify_eq.
Qed.

End PositionUpdates.

(** C9.  A coordinate of a position packet whose incoming value is 0 is
    treated as absent: whatever the stored value, the update leaves it as
    it is, and no position packet of the update carries the tag of that
    coordinate.  (The coordinates are x, y, z, yaw and camera pitch, at
    the indices 0 to 4 of [pos]; the pitch has no tag at all.) *)
Theorem zero_coordinate_is_absent (now1 now2 : Z) (pos : list float)
    (p : Player.t) (i : nat) (v : float) :
  pos !! i = Some v ->
  is_zero v = true ->
  let '(p', log) := Player._updatePositionForOthers now1 now2 pos p in
  Player.axis_value i p' = Player.axis_value i p
  /\ forall snapshot ids to c,
       Player.PlayerIds snapshot ids to ∈ log ->
       Player.axis_tag i = Some c ->
       c ∉ Player.tags ids.
Proof.
  intros Hi Hv.
  destruct (Z.lt_ge_cases (now1 - Player._positionDeltaTime p) 50)
    as [Hd | Ha].
  - rewrite update_dropped by done. split; [done|].
    intros ? ? ? ? Hin. by apply elem_of_nil in Hin.
  - pose proof (update_accepted now1 now2 pos p Ha) as Hu.
    destruct (Player._updatePositionForOthers now1 now2 pos p) as [p' log].
    destruct Hu as (Hlog & _ & Hax & H4).
    pose proof (tag_decision_zero pos p i v Hi Hv) as Hdec.
    split.
    + destruct (decide (i < 4)%nat) as [Hlt | Hge].
      * by rewrite Hax, Hdec.
      * destruct i as [|[|[|[|[|i]]]]]; try lia; [|done].
        rewrite H4, Hi. by rewrite changed_zero.
    + intros snapshot ids to c Hin Htag Hc. subst log.
      apply accepted_log_packet in Hin as (_ & -> & _).
      apply tag_in in Hc as (j & _ & Hj & Hjd).
      rewrite (axis_tag_inj _ _ _ Htag Hj) in Hdec. congruence.
Qed.

Lemma zero_coordinate_is_absent_witness :
  let '(p', log) :=
    Player._updatePositionForOthers 100 101 [0; 8; 0; 0; 0]%float
      (Player.set_position (Vector3.new 5 6 7)
         (snd (Player.constructor process_start 0))) in
  Player.axis_value 0 p' = Some 5%float
  /\ forall snapshot ids to c,
       Player.PlayerIds snapshot ids to ∈ log ->
       Player.axis_tag 0 = Some c ->
       c ∉ Player.tags ids.
Proof.
  apply (zero_coordinate_is_absent 100 101 [0; 8; 0; 0; 0]%float
           (Player.set_position (Vector3.new 5 6 7)
              (snd (Player.constructor process_start 0))) 0 0%float);
    reflexivity.
Defined.

(** C6, as the code has it.  For every accepted position update the tag
    string handed to the packet encoder names exactly those of x (A),
    y (B), z (C) and yaw (F) whose incoming value is present, is neither a
    zero nor NaN, and differs from the stored one.  A tagged coordinate is
    stored with its incoming value; an untagged one keeps its stored value
    and is left out of the tag string.  The camera pitch has no tag.  One
    packet goes to the other players when the tag string is not empty,
    none otherwise. *)
Theorem position_tags (now1 now2 : Z) (pos : list float) (p : Player.t) :
  50 <= now1 - Player._positionDeltaTime p ->
  let '(p', log) := Player._updatePositionForOthers now1 now2 pos p in
  exists ids,
    (ids = "" /\ log = []
     \/ ids <> ""
        /\ log = [Player.EmitMoved (Player.position p')
                    (Vector3.z (Player.rotation p'));
                  Player.PlayerIds p' ids BroadcastExceptSelf])
    /\ (forall c,
          c ∈ Player.tags ids
          <-> exists i cur v,
                (i < 4)%nat /\ Player.axis_tag i = Some c
                /\ Player.axis_value i p = Some cur
                /\ pos !! i = Some v
                /\ is_zero v = false /\ is_nan v = false
                /\ (cur =? v)%float = false)
    /\ (forall i c, Player.axis_tag i = Some c -> c ∈ Player.tags ids ->
          Player.axis_value i p' = pos !! i)
    /\ (forall i c, Player.axis_tag i = Some c -> c ∉ Player.tags ids ->
          Player.axis_value i p' = Player.axis_value i p).
Proof.
  intros Ha.
  pose proof (update_accepted now1 now2 pos p Ha) as Hu.
  destruct (Player._updatePositionForOthers now1 now2 pos p) as [p' log].
  destruct Hu as (Hlog & _ & Hax & _).
  exists (Player.tag_string pos p). split_and!.
  - subst log. destruct (Player.tag_string pos p) eqn:E; cbn; [by left|].
    right. by split.
  - intros c. rewrite tag_in. split.
    + intros (i & Hi & Htag & Hd). unfold Player.tag_decision in Hd.
      destruct i as [|[|[|[|i]]]]; try lia; cbn in Hd;
        apply changed_spec in Hd as (v & Hv & Hz & Hn & Hne); eauto 12.
    + intros (i & cur & v & Hi & Htag & Hcur & Hv & Hz & Hn & Hne).
      exists i. split_and!; try done.
      assert (Player.changed (pos !! i) cur = true) as Hd
        by (apply changed_spec; eauto).
      unfold Player.tag_decision.
      destruct i as [|[|[|[|i]]]]; try lia; cbn in *; by simplify_eq.
  - intros i c Htag Hc. apply tag_in in Hc as (j & _ & Hj & Hd).
    rewrite <- (axis_tag_inj _ _ _ Htag Hj) in Hd.
    rewrite Hax by eauto using axis_tag_lt. by rewrite Hd.
  - intros i c Htag Hc. rewrite Hax by eauto using axis_tag_lt.
    destruct (Player.tag_decision pos p i) eqn:Hd; [|done].
    exfalso. apply Hc, tag_in. exists i. eauto using axis_tag_lt.
Qed.

Lemma position_tags_witness :
  let '(p', log) :=
    Player._updatePositionForOthers 100 101 [1; 0; 0; 0; 7]%float
      (snd (Player.constructor process_start 0)) in
  exists ids,
    (ids = "" /\ log = []
     \/ ids <> ""
        /\ log = [Player.EmitMoved (Player.position p')
                    (Vector3.z (Player.rotation p'));
                  Player.PlayerIds p' ids BroadcastExceptSelf])
    /\ (forall c,
          c ∈ Player.tags ids
          <-> exists i cur v,
                (i < 4)%nat /\ Player.axis_tag i = Some c
                /\ Player.axis_value i (snd (Player.constructor process_start 0))
                   = Some cur
                /\ [1; 0; 0; 0; 7]%float !! i = Some v
                /\ is_zero v = false /\ is_nan v = false
                /\ (cur =? v)%float = false)
    /\ (forall i c, Player.axis_tag i = Some c -> c ∈ Player.tags ids ->
          Player.axis_value i p' = [1; 0; 0; 0; 7]%float !! i)
    /\ (forall i c, Player.axis_tag i = Some c -> c ∉ Player.tags ids ->
          Player.axis_value i p'
          = Player.axis_value i (snd (Player.constructor process_start 0))).
Proof.
  apply (position_tags 100 101 [1; 0; 0; 0; 7]%float
           (snd (Player.constructor process_start 0))).
  cbn. lia.
Defined.

(** C6 as stated fails: an accepted update changes x (0 to 1) and the
    camera pitch (0 to 7), and the tag string names x alone. *)
Lemma pitch_change_is_not_tagged :
  let p := snd (Player.constructor process_start 0) in
  let '(p', log) :=
    Player._updatePositionForOthers 100 101 [1; 0; 0; 0; 7]%float p in
  Player.axis_value 0 p = Some 0%float
  /\ Player.axis_value 0 p' = Some 1%float
  /\ Player.axis_value 4 p = Some 0%float
  /\ Player.axis_value 4 p' = Some 7%float
  /\ log = [Player.EmitMoved (Vector3.new 1 0 0) 0;
            Player.PlayerIds p' "A" BroadcastExceptSelf].
Proof. vm_compute. by split_and!. Qed.

Section Throttle.
Import Player.

Lemma run_step (moves : list move) :
  forall p s, s ∈ run p moves ->
  move_step (before s) (the_move s) = (after s, effects s).
Proof.
  induction moves as [|m rest IH]; intros p s Hs; cbn in Hs.
  - by apply elem_of_nil in Hs.
  - destruct (move_step p m) as [p' log] eqn:E.
    apply elem_of_cons in Hs as [-> | Hs]; [done | eauto].
Qed.

(** The trace is a chain: it starts from the player it is given, and each
    call finds the player as the call before left it. *)
Lemma run_chain (moves : list move) :
  forall p,
    (forall s, run p moves !! 0%nat = Some s -> before s = p)
    /\ (forall i s s',
          run p moves !! i = Some s -> run p moves !! S i = Some s' ->
          before s' = after s).
Proof.
  induction moves as [|m rest IH]; intros p; cbn [run]; [done|].
  destruct (move_step p m) as [p' log] eqn:E.
  destruct (IH p') as [IH0 IHS]. split.
  - intros s [= <-]. done.
  - intros [|i] s s' Hs Hs'; cbn in Hs, Hs'.
    + simplify_eq. cbn. by apply IH0.
    + by eapply IHS.
Qed.

(** A step that sends a position packet on is the step of an accepted
    update. *)
Lemma broadcast_accepted (now1 now2 : Z) (ps : list float) (p p' : t)
    (log : list effect) (snapshot : t) (ids : string) (to : addressing) :
  _updatePositionForOthers now1 now2 ps p = (p', log) ->
  PlayerIds snapshot ids to ∈ log ->
  50 <= now1 - _positionDeltaTime p.
Proof.
  intros E Hin.
  destruct (Z.lt_ge_cases (now1 - _positionDeltaTime p) 50) as [Hd|]; [|done].
  rewrite update_dropped in E by done. simplify_eq.
  by apply elem_of_nil in Hin.
Qed.

(** The throttle time after a position packet, whether accepted or
    dropped. *)
Lemma delta_after (now1 now2 : Z) (ps : list float) (p p' : t)
    (log : list effect) (last : Z) :
  _updatePositionForOthers now1 now2 ps p = (p', log) ->
  _positionDeltaTime p <= last -> last <= now1 -> now1 <= now2 ->
  _positionDeltaTime p <= _positionDeltaTime p'
  /\ _positionDeltaTime p' <= now2
  /\ (50 <= now1 - _positionDeltaTime p -> _positionDeltaTime p' = now2).
Proof.
  intros E H1 H2 H3.
  destruct (Z.lt_ge_cases (now1 - _positionDeltaTime p) 50) as [Hd | Ha].
  - rewrite update_dropped in E by done. simplify_eq. lia.
  - pose proof (update_accepted now1 now2 ps p Ha) as Hu.
    rewrite E in Hu. destruct Hu as (_ & -> & _). lia.
Qed.

(** Every position packet sent on in a run is sent at least 50 ms after
    the throttle time the run starts with. *)
Lemma run_broadcast_after (moves : list move) :
  forall p last s c,
    _positionDeltaTime p <= last -> clock_monotone last moves ->
    s ∈ run p moves -> broadcasts s c ->
    _positionDeltaTime p + 50 <= t_check c.
Proof.
  induction moves as [|m rest IH]; intros p last s c Hp Hclock Hs Hb;
    cbn in Hs.
  - by apply elem_of_nil in Hs.
  - destruct (move_step p m) as [p' log] eqn:E.
    destruct m as [c0|v]; cbn in Hclock, E.
    + destruct Hclock as (H1 & H2 & Hrest).
      destruct (delta_after _ _ _ _ _ _ last E) as (Hle & Hle' & _);
        [done..|].
      apply elem_of_cons in Hs as [-> | Hs].
      * destruct Hb as (Hm & snapshot & ids & to & Hin). cbn in Hm, Hin.
        simplify_eq.
        pose proof (broadcast_accepted _ _ _ _ _ _ _ _ _ E Hin). lia.
      * specialize (IH p' (t_store c0) s c Hle' Hrest Hs Hb). lia.
    + unfold setPosition in E. simplify_eq.
      apply elem_of_cons in Hs as [-> | Hs].
      * destruct Hb as (Hm & _). cbn in Hm. discriminate.
      * exact (IH (set_position (Vector3.fromVector v) p) last s c Hp Hclock
                 Hs Hb).
Qed.

Lemma run_broadcasts_spaced (moves : list move) :
  forall p last i j si sj ci cj,
    _positionDeltaTime p <= last -> clock_monotone last moves ->
    (i < j)%nat ->
    run p moves !! i = Some si -> run p moves !! j = Some sj ->
    broadcasts si ci -> broadcasts sj cj ->
    t_check ci + 50 <= t_check cj.
Proof.
  induction moves as [|m rest IH]; intros p last i j si sj ci cj Hp Hclock
    Hij Hi Hj Hbi Hbj; cbn in Hi, Hj; [done|].
  destruct (move_step p m) as [p' log] eqn:E.
  destruct j as [|j]; [lia|]. cbn in Hj.
  destruct m as [c0|v]; cbn in Hclock, E.
  - destruct Hclock as (H1 & H2 & Hrest).
    destruct (delta_after _ _ _ _ _ _ last E) as (Hle & Hle' & Hacc);
      [done..|].
    destruct i as [|i]; cbn in Hi.
    + simplify_eq. destruct Hbi as (Hm & snapshot & ids & to & Hin).
      cbn in Hm, Hin. simplify_eq.
      pose proof (broadcast_accepted _ _ _ _ _ _ _ _ _ E Hin) as Ha.
      assert (Hsj : sj ∈ run p' rest) by (eapply list_elem_of_lookup_2; eauto).
      pose proof (run_broadcast_after rest p' (t_store ci) sj cj Hle' Hrest
                    Hsj Hbj).
      specialize (Hacc Ha). lia.
    + eapply (IH p' (t_store c0) i j); eauto. lia.
  - unfold setPosition in E. simplify_eq.
    destruct i as [|i]; cbn in Hi.
    + simplify_eq. destruct Hbi as (Hm & _). cbn in Hm. discriminate.
    + assert (i < j)%nat as Hij' by lia.
      exact (IH (set_position (Vector3.fromVector v) p) last i j si sj ci cj
               Hp Hclock Hij' Hi Hj Hbi Hbj).
Qed.

End Throttle.

(** C2, as the code has it.  Take a run of position packets of a
    client and of calls of [setPosition] by scripts, under a clock that
    does not run backwards.  Two position packets that are sent on to the
    other players are at least 50 ms apart, so at most one goes out per
    50 ms window.  A position packet that arrives less than 50 ms after
    the throttle time is dropped: it changes nothing and sends nothing.
    One that arrives 50 ms or more after it is accepted: the throttle
    time becomes the time of its arrival, each of x, y, z and yaw whose
    incoming value is truthy and differs from the stored one takes the
    incoming value, and one packet with the player as the update left it
    goes to the other players, unless no coordinate changed.  So the
    update that goes out is the first one of a window, not the last.
    Every packet sent on comes from an accepted update and carries its
    values.  [setPosition] is not throttled: it stores the position and
    broadcasts at once, and leaves the throttle time alone.  Each call
    finds the player as the call before left it. *)
Theorem position_throttle (p : Player.t) (moves : list Player.move) :
  Player.clock_monotone (Player._positionDeltaTime p) moves ->
  let trace := Player.run p moves in
  (forall i j si sj ci cj,
     (i < j)%nat -> trace !! i = Some si -> trace !! j = Some sj ->
     Player.broadcasts si ci -> Player.broadcasts sj cj ->
     Player.t_check ci + 50 <= Player.t_check cj)
  /\ (forall s c,
        s ∈ trace -> Player.the_move s = Player.Packet c ->
        Player.t_check c - Player._positionDeltaTime (Player.before s) < 50 ->
        Player.after s = Player.before s /\ Player.effects s = [])
  /\ (forall s c,
        s ∈ trace -> Player.the_move s = Player.Packet c ->
        50 <= Player.t_check c - Player._positionDeltaTime (Player.before s) ->
        Player._positionDeltaTime (Player.after s) = Player.t_store c
        /\ (forall i cur,
              (i < 4)%nat -> Player.axis_value i (Player.before s) = Some cur ->
              Player.axis_value i (Player.after s)
              = if Player.changed (Player.pos c !! i) cur
                then Player.pos c !! i else Some cur)
        /\ Player.effects s
           = (if (String.length
                    (Player.tag_string (Player.pos c) (Player.before s))
                  =? 0)%nat
              then []
              else [Player.EmitMoved (Player.position (Player.after s))
                      (Vector3.z (Player.rotation (Player.after s)));
                    Player.PlayerIds (Player.after s)
                      (Player.tag_string (Player.pos c) (Player.before s))
                      BroadcastExceptSelf])
        /\ (Player.tag_string (Player.pos c) (Player.before s) <> ""
            <-> exists i cur,
                  (i < 4)%nat
                  /\ Player.axis_value i (Player.before s) = Some cur
                  /\ Player.changed (Player.pos c !! i) cur = true))
  /\ (forall s c snapshot ids to,
        s ∈ trace -> Player.the_move s = Player.Packet c ->
        Player.PlayerIds snapshot ids to ∈ Player.effects s ->
        50 <= Player.t_check c - Player._positionDeltaTime (Player.before s)
        /\ snapshot = Player.after s
        /\ forall i a,
             Player.axis_tag i = Some a -> a ∈ Player.tags ids ->
             Player.axis_value i snapshot = Player.pos c !! i)
  /\ (forall s v,
        s ∈ trace -> Player.the_move s = Player.Script v ->
        Player._positionDeltaTime (Player.after s)
        = Player._positionDeltaTime (Player.before s)
        /\ Player.position (Player.after s) = v
        /\ Player.effects s
           = [Player.EmitMoved v (Vector3.z (Player.rotation (Player.after s)));
              Player.PlayerIds (Player.after s) "ABCF" Broadcast])
  /\ (forall s, trace !! 0%nat = Some s -> Player.before s = p)
  /\ (forall i s s',
        trace !! i = Some s -> trace !! S i = Some s' ->
        Player.before s' = Player.after s).
Proof.
  intros Hclock trace. split_and!.
  - intros i j si sj ci cj. by eapply run_broadcasts_spaced.
  - intros s c Hs Hm Hd. pose proof (run_step moves p s Hs) as E.
    rewrite Hm in E. cbn in E.
    rewrite update_dropped in E by done. by simplify_eq.
  - intros s c Hs Hm Ha. pose proof (run_step moves p s Hs) as E.
    rewrite Hm in E. cbn in E.
    pose proof (update_accepted _ (Player.t_store c) (Player.pos c) _ Ha)
      as Hu.
    rewrite E in Hu. destruct Hu as (Hlog & Ht & Hax & _).
    split_and!; try done.
    + intros i cur Hi Hcur. rewrite Hax by done.
      unfold Player.tag_decision.
      destruct i as [|[|[|[|i]]]]; try lia; by rewrite Hcur.
    + split.
      * intros Hne.
        destruct (Player.tag_string (Player.pos c) (Player.before s))
          as [|a rest] eqn:Etag; [done|].
        assert (a ∈ Player.tags (Player.tag_string (Player.pos c)
                                    (Player.before s))) as Hin.
        { rewrite Etag. unfold Player.tags. cbn. set_solver. }
        apply tag_in in Hin as (i & Hi & _ & Hd).
        unfold Player.tag_decision in Hd.
        destruct i as [|[|[|[|i]]]]; try lia; cbn in Hd; eauto 10.
      * intros (i & cur & Hi & Hcur & Hd) Hempty.
        assert (exists a, Player.axis_tag i = Some a) as [a Ha'].
        { destruct i as [|[|[|[|i]]]]; try lia; cbn; eauto. }
        assert (a ∈ Player.tags (Player.tag_string (Player.pos c)
                                    (Player.before s))) as Hin.
        { apply tag_in. exists i. split_and!; try done.
          unfold Player.tag_decision.
          destruct i as [|[|[|[|i]]]]; try lia; by rewrite Hcur. }
        rewrite Hempty in Hin. by apply elem_of_nil in Hin.
  - intros s c snapshot ids to Hs Hm Hin.
    pose proof (run_step moves p s Hs) as E. rewrite Hm in E. cbn in E.
    pose proof (broadcast_accepted _ _ _ _ _ _ _ _ _ E Hin) as Ha.
    split; [done|].
    pose proof (update_accepted _ (Player.t_store c) (Player.pos c) _ Ha)
      as Hu.
    rewrite E in Hu. destruct Hu as (Hlog & _ & Hax & _).
    rewrite Hlog in Hin. apply accepted_log_packet in Hin as (-> & -> & _).
    split; [done|]. intros i a Htag Hc.
    apply tag_in in Hc as (j & _ & Hj & Hd).
    rewrite <- (axis_tag_inj _ _ _ Htag Hj) in Hd.
    rewrite Hax by eauto using axis_tag_lt. by rewrite Hd.
  - intros s v Hs Hm. pose proof (run_step moves p s Hs) as E.
    rewrite Hm in E. cbn in E. unfold Player.setPosition in E.
    injection E as <- <-. cbn. by destruct v.
  - apply run_chain.
  - apply run_chain.
Qed.

Lemma position_throttle_witness :
  Player.clock_monotone (Player._positionDeltaTime Examples.walker)
    Examples.walk
  /\ (
  let trace := Player.run Examples.walker Examples.walk in
  (forall i j si sj ci cj,
     (i < j)%nat -> trace !! i = Some si -> trace !! j = Some sj ->
     Player.broadcasts si ci -> Player.broadcasts sj cj ->
     Player.t_check ci + 50 <= Player.t_check cj)
  /\ (forall s c,
        s ∈ trace -> Player.the_move s = Player.Packet c ->
        Player.t_check c - Player._positionDeltaTime (Player.before s) < 50 ->
        Player.after s = Player.before s /\ Player.effects s = [])
  /\ (forall s c,
        s ∈ trace -> Player.the_move s = Player.Packet c ->
        50 <= Player.t_check c - Player._positionDeltaTime (Player.before s) ->
        Player._positionDeltaTime (Player.after s) = Player.t_store c
        /\ (forall i cur,
              (i < 4)%nat -> Player.axis_value i (Player.before s) = Some cur ->
              Player.axis_value i (Player.after s)
              = if Player.changed (Player.pos c !! i) cur
                then Player.pos c !! i else Some cur)
        /\ Player.effects s
           = (if (String.length
                    (Player.tag_string (Player.pos c) (Player.before s))
                  =? 0)%nat
              then []
              else [Player.EmitMoved (Player.position (Player.after s))
                      (Vector3.z (Player.rotation (Player.after s)));
                    Player.PlayerIds (Player.after s)
                      (Player.tag_string (Player.pos c) (Player.before s))
                      BroadcastExceptSelf])
        /\ (Player.tag_string (Player.pos c) (Player.before s) <> ""
            <-> exists i cur,
                  (i < 4)%nat
                  /\ Player.axis_value i (Player.before s) = Some cur
                  /\ Player.changed (Player.pos c !! i) cur = true))
  /\ (forall s c snapshot ids to,
        s ∈ trace -> Player.the_move s = Player.Packet c ->
        Player.PlayerIds snapshot ids to ∈ Player.effects s ->
        50 <= Player.t_check c - Player._positionDeltaTime (Player.before s)
        /\ snapshot = Player.after s
        /\ forall i a,
             Player.axis_tag i = Some a -> a ∈ Player.tags ids ->
             Player.axis_value i snapshot = Player.pos c !! i)
  /\ (forall s v,
        s ∈ trace -> Player.the_move s = Player.Script v ->
        Player._positionDeltaTime (Player.after s)
        = Player._positionDeltaTime (Player.before s)
        /\ Player.position (Player.after s) = v
        /\ Player.effects s
           = [Player.EmitMoved v (Vector3.z (Player.rotation (Player.after s)));
              Player.PlayerIds (Player.after s) "ABCF" Broadcast])
  /\ (forall s, trace !! 0%nat = Some s -> Player.before s = Examples.walker)
  /\ (forall i s s',
        trace !! i = Some s -> trace !! S i = Some s' ->
        Player.before s' = Player.after s)).
Proof.
  assert (Hclock : Player.clock_monotone
                     (Player._positionDeltaTime Examples.walker)
                     Examples.walk)
    by (cbn; lia).
  split; [exact Hclock|].
  exact (position_throttle Examples.walker Examples.walk Hclock).
Defined.

(** C2 as stated fails in its second half: of two updates that arrive in
    one 50 ms window (at 100 ms and at 120 ms, the throttle time being 0),
    the first is the one that is stored and sent; the last one is dropped,
    and the position it set, (4, 5, 6), is neither stored nor sent. *)
Lemma last_update_of_window_is_dropped :
  let p := snd (Player.constructor process_start 0) in
  let moves :=
    [ Player.Packet
        {| Player.t_check := 100; Player.t_store := 100;
           Player.pos := [1; 2; 3; 0; 0]%float |};
      Player.Packet
        {| Player.t_check := 120; Player.t_store := 120;
           Player.pos := [4; 5; 6; 0; 0]%float |} ] in
  exists p1,
    map Player.effects (Player.run p moves)
    = [ [Player.EmitMoved (Vector3.new 1 2 3) 0;
         Player.PlayerIds p1 "ABC" BroadcastExceptSelf];
        [] ]
    /\ Player.position p1 = Vector3.new 1 2 3
    /\ map Player.after (Player.run p moves) = [p1; p1].
Proof. eexists. vm_compute. by split_and!. Qed.

(** ** Touch detection (Brick._hitDetection, Brick._detectTouching) *)
Section TouchDetection.
Import Brick.
Variable emit : listeners.
Variable origin : t.

Lemma emitted_snoc_same (e : event) (log : list event) :
  emitted e (log ++ [e]) = S (emitted e log).
Proof.
  unfold emitted. rewrite count_occ_app. cbn.
  destruct (event_eq_dec e e); [lia | done].
Qed.

Lemma emitted_snoc_other (e e' : event) (log : list event) :
  e <> e' -> emitted e (log ++ [e']) = emitted e log.
Proof.
  intros Hne. unfold emitted. rewrite count_occ_app. cbn.
  destruct (event_eq_dec e' e); [congruence | lia].
Qed.

(** The loop body, case by case. *)
Lemma hit_player_spec (sc : scene) (log : list event) (r : ref) :
  hit_player emit origin (sc, log) r
  = if overlapping origin (player_of sc r) then
      let sc' := emit (Touching r) (touching_add r sc) in
      if bool_decide (r ∈ touching_set sc')
         && negb (Player.alive (player_of sc' r))
      then (emit (TouchingEnded r) (touching_delete r sc'),
            (log ++ [Touching r; TouchingEnded r])%list)
      else (sc', (log ++ [Touching r])%list)
    else if bool_decide (r ∈ touching_set sc) then
      (emit (TouchingEnded r) (touching_delete r sc), (log ++ [TouchingEnded r])%list)
    else (sc, log).
Proof.
  destruct sc as [store this].
  unfold hit_player, overlapping, player_of, touching_set, touching_add, touching_delete.
  cbn [fst snd].
  destruct (touched origin (store r)) eqn:Ht, (Player.alive (store r)) eqn:Ha;
    cbn [andb negb orb].
  - destruct (emit (Touching r) _) as [store' this'] eqn:E. cbn [fst snd].
    destruct (bool_decide _ && _); [|done].
    by rewrite <- app_assoc.
  - by rewrite Ha, andb_true_r.
  - by rewrite andb_true_r.
  - by rewrite andb_true_r.
Qed.

(** The events of a turn are about the player whose turn it is. *)
Lemma hit_player_log (sc : scene) (log : list event) (q : ref) :
  exists extra,
    snd (hit_player emit origin (sc, log) q) = (log ++ extra)%list
    /\ forall e, e ∈ extra -> e = Touching q \/ e = TouchingEnded q.
Proof.
  rewrite hit_player_spec.
  destruct (overlapping origin (player_of sc q)); cbv zeta.
  - destruct (bool_decide _ && _); cbn [snd]; eexists; split; try done;
      set_solver.
  - destruct (bool_decide _); cbn [snd].
    + eexists; split; [done|]. set_solver.
    + exists []. rewrite app_nil_r. split; [done|]. set_solver.
Qed.

Lemma emitted_app (e : event) (l l' : list event) :
  emitted e (l ++ l') = (emitted e l + emitted e l')%nat.
Proof. unfold emitted. by rewrite count_occ_app. Qed.

Lemma emitted_none (e : event) (l : list event) :
  e ∉ l -> emitted e l = 0%nat.
Proof.
  intros H. unfold emitted. apply count_occ_not_In.
  by rewrite <- list_elem_of_In.
Qed.

(** The turns of other players add no event about [r]. *)
Lemma scan_others (players : list ref) (r : ref) (e : event) :
  (e = Touching r \/ e = TouchingEnded r) ->
  r ∉ players ->
  forall acc,
    emitted e (snd (fold_left (hit_player emit origin) players acc))
    = emitted e (snd acc).
Proof.
  intros He. induction players as [|q players IH]; intros Hr acc; [done|].
  apply not_elem_of_cons in Hr as [Hne Hr]. cbn [fold_left].
  rewrite IH by done. destruct acc as [sc log].
  destruct (hit_player_log sc log q) as (extra & -> & Hextra).
  cbn [snd]. rewrite emitted_app, (emitted_none e extra); [lia|].
  intros Hin. apply Hextra in Hin. destruct He, Hin; congruence.
Qed.

Lemma fold_hit_app (l1 l2 : list ref) acc :
  fold_left (hit_player emit origin) (l1 ++ l2) acc
  = fold_left (hit_player emit origin) l2
      (fold_left (hit_player emit origin) l1 acc).
Proof. apply fold_left_app. Qed.


(** A turn adds its events to the log, whatever the log holds. *)
Lemma hit_player_frame (sc : scene) (log : list event) (r : ref) :
  hit_player emit origin (sc, log) r
  = (fst (hit_player emit origin (sc, []) r),
     (log ++ snd (hit_player emit origin (sc, []) r))%list).
Proof.
  rewrite !hit_player_spec. cbv zeta.
  destruct (overlapping origin (player_of sc r)).
  - by destruct (bool_decide _ && _).
  - destruct (bool_decide _); [done|]. by rewrite app_nil_r.
Qed.

Lemma fold_fst (players : list ref) (sc : scene) (log : list event) :
  fst (fold_left (hit_player emit origin) players (sc, log))
  = fst (fold_left (hit_player emit origin) players (sc, [])).
Proof.
  revert sc log. induction players as [|q players IH]; intros sc log; [done|].
  cbn [fold_left]. rewrite (hit_player_frame sc log).
  destruct (hit_player emit origin (sc, []) q) as [sc' log'] eqn:E.
  cbn [fst snd]. rewrite IH. symmetry. by rewrite IH.
Qed.

End TouchDetection.

Section HitMonitor.
Import Brick.
Variable emit : listeners.

Lemma at_turn_snoc (before : list ref) (r : ref) (sc : scene) :
  at_turn emit (before ++ [r]) sc
  = fst (hit_player emit (snd (prune sc)) (at_turn emit before sc, []) r).
Proof.
  unfold at_turn. rewrite fold_left_app. cbn [fold_left].
  destruct (fold_left _ before _) as [sc1 log1]. cbn [fst].
  by rewrite hit_player_frame.
Qed.

(** The events about [r] of a firing are those of its turn. *)
Lemma tick_turn (game_players : list ref) (sc : scene)
    (before after : list ref) (r : ref) (e : event) :
  (e = Touching r \/ e = TouchingEnded r) ->
  scanned game_players (snd sc) = (before ++ r :: after)%list ->
  r ∉ before -> r ∉ after ->
  emitted e (snd (_detectTouching_tick emit game_players sc))
  = emitted e
      (snd (hit_player emit (snd (prune sc)) (at_turn emit before sc, []) r)).
Proof.
  intros He Hscan Hb Ha.
  unfold _detectTouching_tick, _hitDetection, scanned in *.
  destruct (length game_players =? 0)%nat.
  { by destruct before. }
  change (socket (snd (prune sc))) with (socket (snd sc)).
  rewrite Hscan, fold_left_app. cbn [fold_left].
  rewrite (scan_others emit _ after r e He Ha).
  unfold at_turn.
  pose proof (scan_others emit (snd (prune sc)) before r e He Hb (prune sc, []))
    as Hbefore.
  destruct (fold_left _ before _) as [sc1 log1]. cbn [fst snd] in *.
  rewrite hit_player_frame. cbn [snd].
  rewrite emitted_app, Hbefore. done.
Qed.

End HitMonitor.

Local Ltac count_events :=
  unfold Brick.emitted; cbn [snd app count_occ];
  repeat (destruct (Brick.event_eq_dec _ _)); congruence.

(** C1, as the code has it.  The hit monitor is level triggered.  In a
    firing of the monitor in which the actor [r] is scanned once: when the
    turn of [r] comes and [r] is within the tolerance of the brick on the
    three axes and alive, "touching" is emitted for it exactly once,
    whether [r] was in the touching set or not, and [r] is in the set when
    the listeners of the event run; otherwise no "touching" is emitted for
    it.  What the set holds after the turn is up to the listeners: [alive]
    and the set are read again after they ran, and [r] is taken out of the
    set again, and the listeners of "touchingEnded" run, when they left
    [r] in the set and no longer alive; when they change nothing, [r] is
    in the set after its turn. *)
Theorem touching_on_every_scan (emit : Brick.listeners)
    (game_players : list ref) (sc : Brick.scene) (before after : list ref)
    (r : ref) :
  Brick.scanned game_players (snd sc) = (before ++ r :: after)%list ->
  r ∉ before -> r ∉ after ->
  let turn := Brick.at_turn emit before sc in
  let heard := emit (Brick.Touching r) (Brick.touching_add r turn) in
  let log := snd (Brick._detectTouching_tick emit game_players sc) in
  Brick.emitted (Brick.Touching r) log
  = (if Brick.overlapping (snd sc) (Brick.player_of turn r) then 1 else 0)%nat
  /\ (Brick.overlapping (snd sc) (Brick.player_of turn r) = true ->
      r ∈ Brick.touching_set (Brick.touching_add r turn)
      /\ Brick.at_turn emit (before ++ [r]) sc
         = (if bool_decide (r ∈ Brick.touching_set heard)
               && negb (Player.alive (Brick.player_of heard r))
            then emit (Brick.TouchingEnded r) (Brick.touching_delete r heard)
            else heard)
      /\ (heard = Brick.touching_add r turn ->
          r ∈ Brick.touching_set (Brick.at_turn emit (before ++ [r]) sc)))
  /\ (Brick.overlapping (snd sc) (Brick.player_of turn r) = false ->
      r ∉ Brick.touching_set turn ->
      Brick.at_turn emit (before ++ [r]) sc = turn).
Proof.
  intros Hscan Hb Ha turn heard log. subst log.
  rewrite (tick_turn emit game_players sc before after r) by auto.
  rewrite at_turn_snoc. fold turn.
  rewrite hit_player_spec. cbv zeta.
  change (Brick.overlapping (snd (Brick.prune sc))) with (Brick.overlapping (snd sc)).
  fold heard.
  destruct (Brick.overlapping (snd sc) (Brick.player_of turn r)) eqn:Hov.
  - split_and!; [|intros _|done].
    + destruct (bool_decide _ && _); count_events.
    + split_and!.
      * unfold Brick.touching_set, Brick.touching_add. cbn. set_solver.
      * by destruct (bool_decide _ && _).
      * intros Hquiet. rewrite Hquiet.
        unfold Brick.overlapping in Hov. apply andb_prop in Hov as [_ Halive].
        change (Brick.player_of (Brick.touching_add r turn) r) with (Brick.player_of turn r).
        rewrite Halive, andb_false_r.
        unfold Brick.touching_set, Brick.touching_add. cbn. set_solver.
  - split_and!; [|done|intros _ Hout].
    + destruct (bool_decide _); count_events.
    + by rewrite bool_decide_eq_false_2.
Qed.

Lemma touching_on_every_scan_witness :
  let sc := (fun _ : ref => Examples.standing, Examples.brick0) in
  let turn := Brick.at_turn Examples.lava [] sc in
  let heard := Examples.lava (Brick.Touching 1) (Brick.touching_add 1 turn) in
  let log := snd (Brick._detectTouching_tick Examples.lava [1%nat] sc) in
  Brick.emitted (Brick.Touching 1) log
  = (if Brick.overlapping (snd sc) (Brick.player_of turn 1) then 1 else 0)%nat
  /\ (Brick.overlapping (snd sc) (Brick.player_of turn 1) = true ->
      1%nat ∈ Brick.touching_set (Brick.touching_add 1 turn)
      /\ Brick.at_turn Examples.lava ([] ++ [1%nat]) sc
         = (if bool_decide (1%nat ∈ Brick.touching_set heard)
               && negb (Player.alive (Brick.player_of heard 1))
            then Examples.lava (Brick.TouchingEnded 1) (Brick.touching_delete 1 heard)
            else heard)
      /\ (heard = Brick.touching_add 1 turn ->
          1%nat ∈ Brick.touching_set (Brick.at_turn Examples.lava ([] ++ [1%nat]) sc)))
  /\ (Brick.overlapping (snd sc) (Brick.player_of turn 1) = false ->
      1%nat ∉ Brick.touching_set turn ->
      Brick.at_turn Examples.lava ([] ++ [1%nat]) sc = turn).
Proof.
  apply (touching_on_every_scan Examples.lava [1%nat]
           (fun _ : ref => Examples.standing, Examples.brick0) [] [] 1%nat).
  - reflexivity.
  - apply not_elem_of_nil.
  - apply not_elem_of_nil.
Defined.

(** C1 as stated fails: while one live player stays inside the brick, two
    consecutive firings of the hit monitor emit "touching" twice, with no
    listener at all. *)
Lemma touching_repeats_during_overlap :
  Brick.overlapping Examples.brick0 Examples.standing = true
  /\ snd (Brick.monitor Brick.quiet Examples.brick0
            [([1%nat], fun _ => Examples.standing);
             ([1%nat], fun _ => Examples.standing)])
     = [[Brick.Touching 1]; [Brick.Touching 1]].
Proof. vm_compute. by split. Qed.




(** ** Destruction (Brick.destroy, SoundEmitter.destroy) *)

(** [indexOf] then [splice] takes the element out of a list that holds
    it at most once. *)
Lemma remove_at_indexOf_not_in `{EqDecision A} (x : A) (l : list A) :
  NoDup l -> x ∉ remove_at_indexOf x l.
Proof.
  unfold remove_at_indexOf, indexOf. intros Hnodup.
  destruct (list_find (fun y => y = x) l) as [[i y]|] eqn:Hfind; cbn.
  - apply list_find_Some in Hfind as (Hi & -> & _).
    intros Hin. apply list_elem_of_lookup in Hin as [j Hj].
    rewrite list_lookup_delete in Hj.
    destruct (decide (j < i)%nat) as [Hlt | Hge].
    + pose proof (NoDup_lookup _ _ _ _ Hnodup Hi Hj). lia.
    + pose proof (NoDup_lookup _ _ _ _ Hnodup Hi Hj). lia.
  - apply list_find_None in Hfind. rewrite Forall_forall in Hfind.
    intros Hin. by apply (Hfind x).
Qed.

Section BrickDestroy.
Import Brick.

Lemma store_update (this : ref) (f : t -> t) (w : world) :
  brick_store (update this f w) this = f (brick_store w this).
Proof. unfold update. cbn. apply fn_lookup_insert. Qed.

Lemma clear_steps (steps : list timer) :
  forall w,
    bricks (js_clearIntervals steps w) = bricks w
    /\ player_store (js_clearIntervals steps w) = player_store w
    /\ brick_store (js_clearIntervals steps w) = brick_store w
    /\ forall h, h ∈ intervals (js_clearIntervals steps w)
                 <-> h ∈ intervals w /\ h ∉ steps.
Proof.
  unfold js_clearIntervals.
  induction steps as [|loop steps IH]; intros w; cbn [fold_left].
  - split_and!; try done. set_solver.
  - destruct (IH (js_clearInterval (Some loop) w)) as (H1 & H2 & H3 & H4).
    rewrite H1, H2, H3. split_and!; try done.
    intros h. rewrite H4. cbn. set_solver.
Qed.

Lemma removeAllListeners_spec (this : ref) (w : world) :
  bricks (removeAllListeners this w) = bricks w
  /\ player_store (removeAllListeners this w) = player_store w
  /\ kept (brick_store (removeAllListeners this w) this)
     = kept (brick_store w this)
  /\ (forall h, h ∈ intervals (removeAllListeners this w) -> h ∈ intervals w)
  /\ (forall h, h ∈ intervals w -> Some h <> _hitMonitor (brick_store w this) ->
        h ∈ intervals (removeAllListeners this w)).
Proof.
  unfold removeAllListeners.
  destruct (bool_decide _ && bool_decide _); cbv zeta;
    rewrite ?store_update; cbn.
  - split_and!; try done;
      destruct (_hitMonitor (brick_store w this)); cbn; set_solver.
  - split_and!; done.
Qed.

(** [_cleanup] cancels the timers of the brick and nothing else of what
    [destroy] looks at. *)
Lemma cleanup_spec (this : ref) (w : world) :
  bricks (_cleanup this w) = bricks w
  /\ player_store (_cleanup this w) = player_store w
  /\ kept (brick_store (_cleanup this w) this) = kept (brick_store w this)
  /\ forall h, h ∈ intervals (_cleanup this w)
               <-> h ∈ intervals w /\ h ∉ timers (brick_store w this).
Proof.
  unfold _cleanup. cbv zeta.
  set (w1 := js_clearInterval (_hitMonitor (brick_store w this)) w).
  assert (Hw1 : bricks w1 = bricks w /\ player_store w1 = player_store w
                /\ brick_store w1 = brick_store w
                /\ forall h, h ∈ intervals w1
                     <-> h ∈ intervals w
                         /\ Some h <> _hitMonitor (brick_store w this)).
  { subst w1. destruct (_hitMonitor (brick_store w this)); cbn;
      split_and!; try done; set_solver. }
  destruct Hw1 as (A1 & A2 & A3 & A4).
  destruct (removeAllListeners_spec this w1) as (B1 & B2 & B3 & B4 & B5).
  set (w2 := removeAllListeners this w1) in *.
  destruct (clear_steps (_steps (brick_store w2 this)) w2)
    as (C1 & C2 & C3 & C4).
  rewrite C1, C2, C3, B1, B2, B3, A1, A2, A3. split_and!; try done.
  intros h. rewrite C4.
  assert (Hsteps : _steps (brick_store w2 this) = _steps (brick_store w this)).
  { unfold kept in B3. rewrite A3 in B3. by simplify_eq. }
  rewrite Hsteps. unfold timers. rewrite elem_of_app.
  rewrite A3 in B5. specialize (B4 h). specialize (B5 h).
  specialize (A4 h).
  assert (Hm : h ∈ option_list (_hitMonitor (brick_store w this))
               <-> Some h = _hitMonitor (brick_store w this)).
  { destruct (_hitMonitor (brick_store w this)); cbn.
    - rewrite list_elem_of_singleton. split; intros; by simplify_eq.
    - rewrite elem_of_nil. split; [done | discriminate]. }
  rewrite Hm. tauto.
Qed.

(** [Brick.destroy], first and second call. *)
Lemma brick_destroy_spec (w : world) (this : ref) :
  destroyed (brick_store w this) = false ->
  NoDup (owning_collection (socket (brick_store w this)) w) ->
  exists w',
    (destroy this w = JS.Resolved w')
    /\ (this ∉ owning_collection (socket (brick_store w this)) w')
    /\ (forall h, h ∈ timers (brick_store w this) -> h ∉ intervals w')
    /\ (exists reason, destroy this w' = JS.Rejected reason).
Proof.
  intros Hlive Hnodup. unfold destroy at 1. rewrite Hlive.
  destruct (cleanup_spec this w) as (A1 & A2 & A3 & A4).
  set (w1 := _cleanup this w) in *.
  assert (Hsock : socket (brick_store w1 this) = socket (brick_store w this)).
  { unfold kept in A3. by simplify_eq. }
  rewrite Hsock.
  eexists. split; [reflexivity|].
  split_and!.
  - unfold owning_collection in *.
    destruct (socket (brick_store w this)) as [s|]; cbn.
    + rewrite fn_lookup_insert. cbn. rewrite A2.
      by apply remove_at_indexOf_not_in.
    + rewrite A1. by apply remove_at_indexOf_not_in.
  - intros h Hh.
    assert (Hint : forall w0 : world,
              intervals
                (update this (set_destroyed true)
                   (update this (set_playersTouching ∅)
                      (update this (set_netId None)
                         (update this (set_socket None)
                            (createBrickPacket this "destroy" w0)))))
              = intervals w0) by done.
    rewrite Hint.
    destruct (socket (brick_store w this)); cbn; rewrite A4; tauto.
  - eexists. unfold destroy. by rewrite store_update.
Qed.

End BrickDestroy.

Section SoundEmitterDestroy.
Import SoundEmitter.

Lemma sound_store_update (this : ref) (f : t -> t) (w : world) :
  sound_store (update this f w) this = f (sound_store w this).
Proof. unfold update. cbn. apply fn_lookup_insert. Qed.

Lemma sound_clear_steps (steps : list timer) :
  forall w,
    sounds (js_clearIntervals steps w) = sounds w
    /\ sound_store (js_clearIntervals steps w) = sound_store w
    /\ forall h, h ∈ intervals (js_clearIntervals steps w)
                 <-> h ∈ intervals w /\ h ∉ steps.
Proof.
  unfold js_clearIntervals.
  induction steps as [|loop steps IH]; intros w; cbn [fold_left].
  - split_and!; try done. set_solver.
  - destruct (IH (js_clearInterval loop w)) as (H1 & H2 & H3).
    rewrite H1, H2. split_and!; try done.
    intros h. rewrite H3. cbn. set_solver.
Qed.

(** [SoundEmitter.destroy], first and second call. *)
Lemma sound_destroy_spec (w : world) (this : ref) :
  destroyed (sound_store w this) = false ->
  NoDup (sounds w) ->
  exists w',
    (destroy this w = JS.Resolved w')
    /\ (this ∉ sounds w')
    /\ (forall h, h ∈ _steps (sound_store w this) -> h ∉ intervals w')
    /\ (exists reason, destroy this w' = JS.Rejected reason).
Proof.
  intros Hlive Hnodup. unfold destroy at 1. rewrite Hlive.
  destruct (sound_clear_steps (_steps (sound_store w this)) w)
    as (A1 & A2 & A3).
  set (w1 := js_clearIntervals (_steps (sound_store w this)) w) in *.
  eexists. split; [reflexivity|]. split_and!.
  - cbn. rewrite A1. by apply remove_at_indexOf_not_in.
  - intros h Hh. cbn. rewrite A3. tauto.
  - eexists. unfold destroy. by rewrite sound_store_update.
Qed.

End SoundEmitterDestroy.

Section BrickDestroyTwice.
Import Brick.






End BrickDestroyTwice.

Section SoundDestroyTwice.
Import SoundEmitter.





End SoundDestroyTwice.




(** ** The round trip of the brick serializer *)
Section SerializeRoundTrip.
Import Serialize.

Lemma reparse_finite (f : float) :
  finite f = true -> reparse (VNumber f) = VNumber (renorm f).
Proof.
  unfold finite, renorm. cbn [reparse]. intros Hf.
  apply negb_true_iff in Hf. rewrite Hf. by destruct (is_zero f).
Qed.

Lemma same_renorm (f : float) :
  finite f = true -> same_number f (renorm f) = true.
Proof.
  unfold finite, renorm, same_number. intros Hf.
  destruct (is_zero f) eqn:Hz; [exact Hz|].
  apply negb_true_iff, orb_false_iff in Hf as [Hnan _].
  unfold is_nan in Hnan. by apply negb_false_iff in Hnan.
Qed.

Lemma same_renorm3 (v : Vector3.t) :
  finite3 v = true -> Vector3.equalsVector v (renorm3 v) = true.
Proof.
  unfold finite3, Vector3.equalsVector, renorm3. destruct v as [x y z].
  cbn [Vector3.x Vector3.y Vector3.z].
  rewrite !andb_true_iff. intros [[Hx Hy] Hz].
  split_and!; by apply same_renorm.
Qed.

(** A truthy number is not a zero. *)
Lemma renorm_truthy (f : float) : JS.truthy f = true -> renorm f = f.
Proof.
  unfold JS.truthy, renorm. intros Hf.
  apply negb_true_iff, orb_false_iff in Hf as [-> _]. done.
Qed.

Lemma stringify_app (o1 o2 : object) :
  stringify_object (o1 ++ o2)%list
  = (stringify_object o1 ++ stringify_object o2)%list.
Proof. apply omap_app. Qed.

Lemma assign_all_app (o1 o2 : object) :
  forall x,
    assign_all (o1 ++ o2)%list x
    = match assign_all o1 x with
      | Returns y => assign_all o2 y
      | Throws => Throws
      | OutOfModel => OutOfModel
      end.
Proof.
  induction o1 as [|[k v] o1 IH]; intros x; cbn; [done|].
  destruct (assign k v x); [apply IH | done | done].
Qed.

Lemma stringify_array3 (key : string) (v : Vector3.t) :
  finite3 v = true ->
  stringify_object [(key, array3 v)]
  = [(key, VArray [VNumber (renorm (Vector3.x v));
                   VNumber (renorm (Vector3.y v));
                   VNumber (renorm (Vector3.z v))])].
Proof.
  unfold finite3, finite. rewrite !andb_true_iff, !negb_true_iff.
  intros [[Hx Hy] Hz].
  unfold stringify_object, array3, renorm.
  cbn -[is_nan is_infinity is_zero]. rewrite Hx, Hy, Hz.
  by destruct (is_zero (Vector3.x v)), (is_zero (Vector3.y v)),
    (is_zero (Vector3.z v)).
Qed.

(** The hypotheses that [portable] packs. *)
Lemma portable_inv (b : Brick.t) :
  portable b = true ->
  finite3 (Brick.position b) = true /\ finite3 (Brick.scale b) = true
  /\ finite3 (Brick.rotation b) = true
  /\ seven_bit (Brick.color b) = true
  /\ finite (Brick.visibility b) = true
  /\ ((Brick.visibility b <? 1)%float || (Brick.visibility b =? 1)%float) = true
  /\ match Brick.name b with
     | Some n => String.eqb n "" = false /\ seven_bit n = true
     | None => True
     end
  /\ match Brick.model b with
     | Some m => JS.truthy m = true /\ finite m = true
     | None => True
     end
  /\ (Brick.lightEnabled b = true ->
      seven_bit (Brick.lightColor b) = true
      /\ match Brick.lightRange b with
         | JS.Num f => finite f = true
         | JS.Str s => seven_bit s = true
         | JS.Undefined => False
         end)
  /\ (Brick.clickable b = true -> finite (Brick.clickDistance b) = true).
Proof.
  unfold portable. rewrite !andb_true_iff.
  intros (((((((((H1 & H2) & H3) & H4) & H5) & H6) & H7) & H8) & H9) & H10).
  split_and!; try done.
  - destruct (Brick.name b); [|done].
    apply andb_true_iff in H7 as [H7 H7']. by apply negb_true_iff in H7.
  - destruct (Brick.model b); [|done]. by apply andb_true_iff in H8.
  - intros Hl. rewrite Hl in H9. apply andb_true_iff in H9 as [H9 H9'].
    split; [done|]. by destruct (Brick.lightRange b).
  - intros Hc. by rewrite Hc in H10.
Qed.

(** The loop over the keys, property by property. *)
Lemma seg_position (c : bool) (v : Vector3.t) (x : Brick.t) :
  finite3 v = true ->
  assign_all (stringify_object (if c then [("position", array3 v)] else [])) x
  = Returns (if c then Brick.set_position (renorm3 v) x else x).
Proof. intros Hv. destruct c; [by rewrite stringify_array3|done]. Qed.

Lemma seg_scale (c : bool) (v : Vector3.t) (x : Brick.t) :
  finite3 v = true ->
  assign_all (stringify_object (if c then [("scale", array3 v)] else [])) x
  = Returns (if c then Brick.set_scale (renorm3 v) x else x).
Proof. intros Hv. destruct c; [by rewrite stringify_array3|done]. Qed.

Lemma seg_rotation (c : bool) (v : Vector3.t) (x : Brick.t) :
  finite3 v = true ->
  assign_all (stringify_object (if c then [("rotation", array3 v)] else [])) x
  = Returns (if c then Brick.set_rotation (renorm3 v) x else x).
Proof. intros Hv. destruct c; [by rewrite stringify_array3|done]. Qed.

Lemma seg_color (c : bool) (s : string) (x : Brick.t) :
  assign_all (stringify_object (if c then [("color", VString s)] else [])) x
  = Returns (if c then Brick.set_color s x else x).
Proof. by destruct c. Qed.

Lemma stringify_number (key : string) (f : float) :
  finite f = true ->
  stringify_object [(key, VNumber f)] = [(key, VNumber (renorm f))].
Proof.
  intros Hf. unfold stringify_object. cbn [omap list_omap].
  by rewrite reparse_finite.
Qed.

Lemma seg_visibility (c : bool) (f : float) (x : Brick.t) :
  finite f = true ->
  assign_all (stringify_object (if c then [("visibility", VNumber f)] else []))
    x
  = Returns (if c then Brick.set_visibility (renorm f) x else x).
Proof. intros Hf. destruct c; [by rewrite stringify_number|done]. Qed.

Lemma seg_collision (c : bool) (x : Brick.t) :
  assign_all (stringify_object (if c then [("collision", VBool false)] else []))
    x
  = Returns (if c then Brick.set_collision false x else x).
Proof. by destruct c. Qed.

Lemma seg_name (name : option string) (x : Brick.t) :
  assign_all
    (stringify_object
       match name with
       | Some n => if negb (String.eqb n "") then [("name", VString n)] else []
       | None => []
       end) x
  = Returns
      match name with
      | Some n =>
          if negb (String.eqb n "") then Brick.set_name (Some n) x else x
      | None => x
      end.
Proof. destruct name as [n|]; [|done]. by destruct (negb _). Qed.

Lemma seg_model (model : option float) (x : Brick.t) :
  match model with Some m => finite m = true | None => True end ->
  assign_all
    (stringify_object
       match model with
       | Some m => if JS.truthy m then [("model", VNumber m)] else []
       | None => []
       end) x
  = Returns
      match model with
      | Some m =>
          if JS.truthy m then Brick.set_model (Some (renorm m)) x else x
      | None => x
      end.
Proof.
  destruct model as [m|]; [|done]. intros Hm.
  destruct (JS.truthy m); [by rewrite stringify_number|done].
Qed.

Lemma seg_light (c : bool) (lightColor : string) (lightRange : JS.value)
    (x : Brick.t) :
  (c = true ->
   match lightRange with
   | JS.Num f => finite f = true
   | JS.Str s => True
   | JS.Undefined => False
   end) ->
  assign_all
    (stringify_object
       (if c then [("lightEnabled", VBool true);
                   ("lightColor", VString lightColor);
                   ("lightRange", of_value lightRange)]
        else [])) x
  = Returns
      (if c then
         Brick.set_lightRange (renorm_value lightRange)
           (Brick.set_lightColor lightColor (Brick.set_lightEnabled true x))
       else x).
Proof.
  destruct c; [|done]. intros Hr. specialize (Hr eq_refl).
  destruct lightRange as [|f|s]; [done| |done].
  unfold stringify_object. cbn [omap list_omap of_value].
  by rewrite reparse_finite.
Qed.

Lemma seg_click (c : bool) (f : float) (x : Brick.t) :
  (c = true -> finite f = true) ->
  assign_all
    (stringify_object
       (if c then [("clickable", VBool true); ("clickDistance", VNumber f)]
        else [])) x
  = Returns
      (if c then Brick.set_clickDistance (renorm f) (Brick.set_clickable true x)
       else x).
Proof.
  destruct c; [|done]. intros Hf. specialize (Hf eq_refl).
  unfold stringify_object. cbn [omap list_omap].
  by rewrite reparse_finite.
Qed.

(** The loop over the keys of the object written for a portable brick
    succeeds, with the result [decode]. *)
Lemma assign_data (b x : Brick.t) :
  portable b = true ->
  assign_all (stringify_object (data_of b)) x = Returns (decode b x).
Proof.
  intros Hp.
  destruct (portable_inv b Hp)
    as (Hpos & Hscale & Hrot & _ & Hvis & _ & Hname & Hmodel & Hlight & Hclick).
  unfold data_of, decode.
  rewrite !stringify_app.
  rewrite assign_all_app, seg_position by done. fold (dec_position b x).
  rewrite assign_all_app, seg_scale by done. fold (dec_scale b (dec_position b x)).
  rewrite assign_all_app, seg_color. fold (dec_color b (dec_scale b (dec_position b x))).
  set (x3 := dec_color b (dec_scale b (dec_position b x))).
  rewrite assign_all_app, seg_visibility by done. fold (dec_visibility b x3).
  rewrite assign_all_app, seg_collision. fold (dec_collision b (dec_visibility b x3)).
  set (x5 := dec_collision b (dec_visibility b x3)).
  rewrite assign_all_app, seg_name. fold (dec_name (Brick.name b) x5).
  rewrite assign_all_app, seg_rotation by done.
  fold (dec_rotation b (dec_name (Brick.name b) x5)).
  set (x7 := dec_rotation b (dec_name (Brick.name b) x5)).
  rewrite assign_all_app, seg_model
    by (destruct (Brick.model b); [apply Hmodel | done]).
  fold (dec_model (Brick.model b) x7).
  rewrite assign_all_app, seg_light
    by (intros Hl; destruct (Hlight Hl) as [_ Hr];
        by destruct (Brick.lightRange b)).
  fold (dec_light b (dec_model (Brick.model b) x7)).
  by rewrite seg_click.
Qed.

Lemma if_app {A B : Type} (g : A -> B) (c : bool) (x y : A) :
  g (if c then x else y) = if c then g x else g y.
Proof. by destruct c. Qed.

Lemma if_same {A : Type} (c : bool) (x : A) : (if c then x else x) = x.
Proof. by destruct c. Qed.

Lemma dec_name_frame {B : Type} (f : Brick.t -> B) (name : option string)
    (x : Brick.t) :
  (forall v y, f (Brick.set_name v y) = f y) -> f (dec_name name x) = f x.
Proof.
  intros Hf. unfold dec_name. destruct name; [|done].
  by destruct (negb _).
Qed.

Lemma dec_model_frame {B : Type} (f : Brick.t -> B) (model : option float)
    (x : Brick.t) :
  (forall v y, f (Brick.set_model v y) = f y) -> f (dec_model model x) = f x.
Proof.
  intros Hf. unfold dec_model. destruct model; [|done].
  by destruct (JS.truthy _).
Qed.

(** Reads the field [f] of a brick built by setters under conditions. *)
Local Ltac field f :=
  unfold decode;
  repeat first
    [ rewrite (if_app f)
    | rewrite if_same
    | progress unfold dec_click
    | progress unfold dec_light
    | rewrite (dec_model_frame f) by reflexivity
    | progress unfold dec_rotation
    | rewrite (dec_name_frame f) by reflexivity
    | progress unfold dec_collision
    | progress unfold dec_visibility
    | progress unfold dec_color
    | progress unfold dec_scale
    | progress unfold dec_position
    | progress cbn [
        Brick.name Brick.color Brick.position Brick.scale Brick.lightEnabled
        Brick.lightColor Brick.lightRange Brick.visibility Brick.destroyed
        Brick.netId Brick.collision Brick.rotation Brick.model Brick.clickable
        Brick.clickDistance Brick.socket Brick.shape Brick._hitMonitor
        Brick._hitMonitorSpeed Brick._hitMonitorActive Brick._playersTouching
        Brick._steps Brick._events Brick.set_name Brick.set_color
        Brick.set_position Brick.set_scale Brick.set_lightEnabled
        Brick.set_lightColor Brick.set_lightRange Brick.set_visibility
        Brick.set_destroyed Brick.set_netId Brick.set_collision
        Brick.set_rotation Brick.set_model Brick.set_clickable
        Brick.set_clickDistance Brick.set_socket Brick.set_shape
        Brick.set_hitMonitor Brick.set_hitMonitorSpeed
        Brick.set_hitMonitorActive Brick.set_playersTouching Brick.set_steps
        Brick.set_events Brick.constructor snd fst default ] ].

(** The brick that comes back has the fields of the brick that went in,
    when the constructor took its defaults for the properties that the
    object does not have. *)
Lemma decode_same (b : Brick.t) (st : Statics)
    (position scale : option Vector3.t) (color : option string) :
  portable b = true ->
  (Vector3.equalsVector (Brick.position b) (Brick.position DEFAULT_BRICK)
   = true -> position = None) ->
  (Vector3.equalsVector (Brick.scale b) (Brick.scale DEFAULT_BRICK) = true ->
   scale = None) ->
  (String.eqb (Brick.color b) (Brick.color DEFAULT_BRICK) = true ->
   color = None) ->
  same_fields b (decode b (snd (Brick.constructor st position scale color)))
  = true.
Proof.
  intros Hp Hposition Hscale Hcolor.
  destruct (portable_inv b Hp)
    as (Fpos & Fscale & Frot & _ & Fvis & Hvis & Hname & Hmodel & Hlight
        & Hclick).
  unfold same_fields. rewrite !andb_true_iff. split_and!.
  - field Brick.position.
    destruct (Vector3.equalsVector (Brick.position b)
                (Brick.position DEFAULT_BRICK)) eqn:E; cbn [negb];
      [by rewrite Hposition | by apply same_renorm3].
  - field Brick.scale.
    destruct (Vector3.equalsVector (Brick.scale b)
                (Brick.scale DEFAULT_BRICK)) eqn:E; cbn [negb];
      [by rewrite Hscale | by apply same_renorm3].
  - field Brick.color.
    destruct (String.eqb (Brick.color b) (Brick.color DEFAULT_BRICK)) eqn:E;
      cbn [negb]; [by rewrite Hcolor | apply String.eqb_refl].
  - field Brick.visibility.
    destruct (Brick.visibility b <? 1)%float eqn:E;
      [by apply same_renorm | exact Hvis].
  - field Brick.collision. by destruct (Brick.collision b).
  - field Brick.name. unfold dec_name.
    destruct (Brick.name b) as [n|].
    + destruct Hname as [-> _]. cbn. apply String.eqb_refl.
    + by field Brick.name.
  - field Brick.rotation.
    destruct (Vector3.equalsVector (Brick.rotation b)
                (Brick.rotation DEFAULT_BRICK)) eqn:E; cbn [negb];
      [exact E | by apply same_renorm3].
  - field Brick.model. unfold dec_model.
    destruct (Brick.model b) as [m|].
    + destruct Hmodel as [-> Fm]. cbn. by apply same_renorm.
    + by field Brick.model.
  - field Brick.lightEnabled. by destruct (Brick.lightEnabled b).
  - field Brick.clickable. by destruct (Brick.clickable b).
  - destruct (Brick.lightEnabled b) eqn:El; [|done].
    destruct (Hlight eq_refl) as [_ Hrange].
    apply andb_true_iff. split.
    + field Brick.lightColor. rewrite El. apply String.eqb_refl.
    + field Brick.lightRange. rewrite El.
      destruct (Brick.lightRange b) as [|f|r]; cbn; [done | | ].
      * by apply same_renorm.
      * apply String.eqb_refl.
  - destruct (Brick.clickable b) eqn:Ec; [|done].
    field Brick.clickDistance. rewrite Ec. by apply same_renorm, Hclick.
Qed.

(** *** The properties that the serialized form has *)

Lemma property_absent (o : object) (k : string) :
  k ∉ keys o -> property o k = None.
Proof.
  intros Hk. unfold property.
  destruct (list_find (fun kv => fst kv = k) o) as [[i [k' v]]|] eqn:Hfind;
    [|done].
  apply list_find_Some in Hfind as (Hi & Hk' & _). cbn in Hk'. subst k'.
  exfalso. apply Hk. unfold keys. apply list_elem_of_fmap.
  exists (k, v). split; [done|]. by eapply list_elem_of_lookup_2.
Qed.

Lemma or_iff (A B C D : Prop) : (A <-> C) -> (B <-> D) -> (A \/ B <-> C \/ D).
Proof. tauto. Qed.

Local Ltac segment_keys :=
  unfold keys, stringify_object;
  repeat match goal with
         | |- context [if negb ?c then _ else _] =>
             destruct c eqn:?; cbn [negb]
         | |- context [if ?c then _ else _] => destruct c eqn:?
         | |- context [match Brick.name ?b with Some _ => _ | None => _ end] =>
             destruct (Brick.name b) eqn:?
         | |- context [match Brick.model ?b with Some _ => _ | None => _ end] =>
             destruct (Brick.model b) eqn:?
         | |- context [of_value (Brick.lightRange ?b)] =>
             destruct (Brick.lightRange b) eqn:?; cbn [of_value]
         end;
  cbn [omap list_omap map fst array3 of_value];
  rewrite ?elem_of_cons, ?elem_of_nil;
  split; intros;
  repeat match goal with
         | H : _ /\ _ |- _ => destruct H
         | H : exists _, _ |- _ => destruct H
         | H : _ \/ _ |- _ => destruct H
         | H : False |- _ => destruct H
         end;
  simplify_eq; try congruence; eauto 10.

(** The properties of the object written for a brick, one by one. *)
Lemma serialized_keys (b : Brick.t) (k : string) :
  k ∈ keys (stringify_object (data_of b))
  <-> (k = "position"
       /\ Vector3.equalsVector (Brick.position b)
            (Brick.position DEFAULT_BRICK) = false)
      \/ (k = "scale"
          /\ Vector3.equalsVector (Brick.scale b) (Brick.scale DEFAULT_BRICK)
             = false)
      \/ (k = "color"
          /\ String.eqb (Brick.color b) (Brick.color DEFAULT_BRICK) = false)
      \/ (k = "visibility" /\ (Brick.visibility b <? 1)%float = true)
      \/ (k = "collision" /\ Brick.collision b = false)
      \/ (k = "name"
          /\ exists n, Brick.name b = Some n /\ String.eqb n "" = false)
      \/ (k = "rotation"
          /\ Vector3.equalsVector (Brick.rotation b)
               (Brick.rotation DEFAULT_BRICK) = false)
      \/ (k = "model"
          /\ exists m, Brick.model b = Some m /\ JS.truthy m = true)
      \/ ((k = "lightEnabled" \/ k = "lightColor"
           \/ (k = "lightRange" /\ Brick.lightRange b <> JS.Undefined))
          /\ Brick.lightEnabled b = true)
      \/ ((k = "clickable" \/ k = "clickDistance")
          /\ Brick.clickable b = true).
Proof.
  unfold data_of. rewrite !stringify_app. unfold keys at 1.
  rewrite !map_app, !elem_of_app.
  repeat (apply or_iff; [segment_keys|]).
  segment_keys.
Qed.

(** The text written for a portable brick is 7-bit. *)
Lemma serialized_seven_bit (b : Brick.t) :
  portable b = true ->
  forallb (fun '(k, v) => seven_bit k && val_seven_bit v)
    (stringify_object (data_of b)) = true.
Proof.
  intros Hp.
  destruct (portable_inv b Hp)
    as (Fpos & Fscale & Frot & Hcolor & Fvis & _ & Hname & Hmodel & Hlight
        & Hclick).
  unfold data_of. rewrite !stringify_app, !forallb_app, !andb_true_iff.
  split_and!.
  - destruct (negb _); [by rewrite stringify_array3|done].
  - destruct (negb _); [by rewrite stringify_array3|done].
  - destruct (negb _); [|done]. cbn. by rewrite Hcolor.
  - destruct (_ <? _)%float; [by rewrite stringify_number|done].
  - by destruct (negb _).
  - destruct (Brick.name b) as [n|]; [|done]. destruct Hname as [_ Hn].
    destruct (negb _); [|done]. cbn. by rewrite Hn.
  - destruct (negb _); [by rewrite stringify_array3|done].
  - destruct (Brick.model b) as [m|]; [|done]. destruct Hmodel as [_ Fm].
    destruct (JS.truthy m); [by rewrite stringify_number|done].
  - destruct (Brick.lightEnabled b); [|done].
    destruct (Hlight eq_refl) as [Hlc Hlr].
    destruct (Brick.lightRange b) as [|f|r]; [done| |].
    + unfold stringify_object. cbn [omap list_omap of_value].
      rewrite reparse_finite by done. cbn. by rewrite Hlc.
    + cbn. by rewrite Hlc, Hlr.
  - destruct (Brick.clickable b); [|done].
    unfold stringify_object. cbn [omap list_omap].
    by rewrite reparse_finite by auto.
Qed.

(** [toString_ascii] accepts the serialized form of portable bricks. *)
Lemma toString_ascii_serialize (bricks : list Brick.t) :
  Forall (fun b => portable b = true) bricks ->
  toString_ascii (serialize bricks) = Returns (serialize bricks).
Proof.
  intros Hall. unfold toString_ascii.
  assert (H : forallb
                (forallb (fun '(k, v) => seven_bit k && val_seven_bit v))
                (serialize bricks) = true).
  { unfold serialize. induction Hall as [|b bricks Hb _ IH]; [done|].
    cbn [map forallb]. by rewrite serialized_seven_bit, IH. }
  by rewrite H.
Qed.

(** The arguments that the constructor takes from the object are absent
    when the property is. *)
Lemma constructor_arguments (b : Brick.t) :
  let o := stringify_object (data_of b) in
  (Vector3.equalsVector (Brick.position b) (Brick.position DEFAULT_BRICK)
   = true -> vector_argument o "position" = None)
  /\ (Vector3.equalsVector (Brick.scale b) (Brick.scale DEFAULT_BRICK) = true ->
      vector_argument o "scale" = None)
  /\ (String.eqb (Brick.color b) (Brick.color DEFAULT_BRICK) = true ->
      string_argument o "color" = None).
Proof.
  cbv zeta. unfold vector_argument, string_argument. split_and!; intros H.
  all: rewrite property_absent; [done|].
  all: rewrite serialized_keys; intros Hk.
  all: repeat match goal with
              | H : _ /\ _ |- _ => destruct H
              | H : exists _, _ |- _ => destruct H
              | H : _ \/ _ |- _ => destruct H
              end; simplify_eq; congruence.
Qed.

(** The loop of [deserialize] over the objects written for portable
    bricks gives a brick with the same fields for each. *)
Lemma deserialize_each_serialize (bricks : list Brick.t) :
  Forall (fun b => portable b = true) bricks ->
  forall st,
  exists st' bricks',
    deserialize_each st (serialize bricks) = Returns (st', bricks')
    /\ Forall2 (fun b b' => same_fields b b' = true) bricks bricks'.
Proof.
  induction 1 as [|b bricks Hb _ IH]; intros st.
  - exists st, []. by split.
  - cbn [serialize map deserialize_each].
    set (o := stringify_object (data_of b)).
    destruct (constructor_arguments b) as (A1 & A2 & A3). fold o in A1, A2, A3.
    pose proof (decode_same b st (vector_argument o "position")
                  (vector_argument o "scale") (string_argument o "color")
                  Hb A1 A2 A3) as Hsame.
    destruct (Brick.constructor st _ _ _) as [st1 newBrick] eqn:Hnew.
    cbn [snd] in Hsame. subst o. rewrite assign_data by done.
    destruct (IH st1) as (st' & bricks' & Hrest & Hall).
    fold (serialize bricks). rewrite Hrest.
    eexists _, _. split; [reflexivity|]. by constructor.
Qed.

Lemma lookup_map {A B : Type} (f : A -> B) (l : list A) (i : nat) :
  map f l !! i = f <$> l !! i.
Proof.
  revert i. induction l as [|a l IH]; intros [|i]; cbn; try done.
Qed.

(** A number equal to another is not below it. *)
Lemma eqb_not_ltb (a b : float) :
  (a =? b)%float = true -> (a <? b)%float = false.
Proof.
  rewrite FloatAxioms.eqb_spec, FloatAxioms.ltb_spec. unfold SFeqb, SFltb.
  destruct (SFcompare _ _) as [[]|]; congruence.
Qed.

Local Ltac key_cases Hk :=
  apply serialized_keys in Hk;
  repeat match goal with
         | H : _ /\ _ |- _ => destruct H
         | H : exists _, _ |- _ => destruct H
         | H : _ \/ _ |- _ => destruct H
         end;
  simplify_eq; try congruence.

Lemma serialized_omits_defaults (b : Brick.t) :
  omits_defaults b (stringify_object (data_of b)).
Proof.
  unfold omits_defaults. split_and!.
  - intros H Hk. key_cases Hk.
  - intros H Hk. key_cases Hk.
  - intros H Hk. key_cases Hk.
  - intros H Hk. apply String.eqb_eq in H. key_cases Hk.
  - intros H Hk. apply eqb_not_ltb in H. cbn in H. key_cases Hk.
  - intros H Hk. cbn in H. key_cases Hk.
  - intros H Hk. cbn in H. key_cases Hk.
  - intros H Hk. cbn in H. key_cases Hk.
  - intros H. cbn in H. split_and!; intros Hk; key_cases Hk.
  - intros H. cbn in H. split_and!; intros Hk; key_cases Hk.
  - intros H. split_and!; [| |intros Hr]; apply serialized_keys; tauto.
  - intros H. split_and!; apply serialized_keys; tauto.
Qed.

End SerializeRoundTrip.

(** C5, as the code has it.  For every list of bricks whose fields the
    serialized form can hold (finite numbers, 7-bit strings, a visibility
    of at most 1, a name that is not empty and a model that is not zero
    when they are set, a light range that is set when the light is
    enabled), [deserialize(serialize(bricks))] returns as many bricks, each
    with the position, scale, color, visibility, collision, name, rotation,
    model, lightEnabled and clickable of the original, with its lightColor
    and lightRange when the light is enabled and with its clickDistance
    when it is clickable (numbers compared by [==]).  For every brick the
    serialized form leaves out position, scale, rotation, color,
    visibility, collision, name and model when they have the value of the
    default brick, and the light and click settings when their switch is
    off; when the switch is on it carries them whatever their values. *)
Theorem serialize_round_trip (st : Statics) (bricks : list Brick.t) :
  (Forall (fun b => Serialize.portable b = true) bricks ->
   exists st' bricks',
     Serialize.deserialize st (Serialize.serialize bricks)
     = Serialize.Returns (st', bricks')
     /\ Forall2 (fun b b' => Serialize.same_fields b b' = true)
          bricks bricks')
  /\ (forall i b o,
        bricks !! i = Some b ->
        Serialize.serialize bricks !! i = Some o ->
        Serialize.omits_defaults b o).
Proof.
  split.
  - intros Hall. unfold Serialize.deserialize.
    rewrite toString_ascii_serialize by done.
    by apply deserialize_each_serialize.
  - intros i b o Hb Ho.
    unfold Serialize.serialize, Serialize.Buffer in Ho.
    rewrite lookup_map, Hb in Ho. cbn in Ho. simplify_eq.
    apply serialized_omits_defaults.
Qed.

Lemma serialize_round_trip_witness :
  exists st' bricks',
    Serialize.deserialize process_start
      (Serialize.serialize [Examples.door; Examples.brick0])
    = Serialize.Returns (st', bricks')
    /\ Forall2 (fun b b' => Serialize.same_fields b b' = true)
         [Examples.door; Examples.brick0] bricks'.
Proof.
  apply (proj1 (serialize_round_trip process_start
                  [Examples.door; Examples.brick0])).
  repeat constructor.
Defined.

(** C5 as stated fails.  A brick whose light is enabled with the default
    color and range has both written in its serialized form, although
    they equal the values of the default brick.  And fields that are not
    at their defaults do not all come back: a click distance of 30 on a
    brick that is not clickable, and a visibility of 2, are not written,
    so the bricks that come back have the defaults, 50 and 1. *)
Lemma default_light_settings_are_written :
  let lit := Brick.set_lightEnabled true Serialize.DEFAULT_BRICK in
  let far := Brick.set_clickDistance 30 Serialize.DEFAULT_BRICK in
  let bright := Brick.set_visibility 2 Serialize.DEFAULT_BRICK in
  Brick.lightColor lit = Brick.lightColor Serialize.DEFAULT_BRICK
  /\ Brick.lightRange lit = Brick.lightRange Serialize.DEFAULT_BRICK
  /\ Serialize.serialize [lit]
     = [[("lightEnabled", Serialize.VBool true);
         ("lightColor", Serialize.VString "#000000");
         ("lightRange", Serialize.VNumber 5)]]
  /\ (exists st' far' bright',
        Serialize.deserialize process_start (Serialize.serialize [far; bright])
        = Serialize.Returns (st', [far'; bright'])
        /\ Brick.clickDistance far' = 50%float
        /\ Brick.visibility bright' = 1%float).
Proof.
  cbv zeta. split_and!; try reflexivity.
  eexists _, _, _. split_and!; vm_compute; reflexivity.
Qed.

(** ** The map loader *)

Section MapLoader.

Context {channel : Type}.
Variable Number : string -> float.
Variable js_rem : float -> float -> float.
Variable convertRGB :
  option string -> option string -> option string -> channel * channel * channel.
Variable rgbToHex : channel -> channel -> channel -> string.

Lemma split_first (sep : ascii) (s : string) :
  exists line rest, LoadBrk.split sep s = line :: rest.
Proof.
  induction s as [|c s [line [rest IH]]]; cbn [LoadBrk.split]; [by eauto|].
  rewrite IH. destruct (Ascii.eqb c sep); eauto.
Qed.




End MapLoader.



(** * Further properties of the code *)

(** ** Numbers *)

Lemma SFeqb_irrefl_nan (p : spec_float) : SFeqb p p = false -> p = S754_nan.
Proof.
  unfold SFeqb. destruct p as [s|s| |s m e]; cbn; try done.
  - by destruct s.
  - rewrite Z.compare_refl, Pos.compare_cont_refl. by destruct s.
Qed.

Lemma is_nan_Prim2SF (x : float) : is_nan x = true -> FloatOps.Prim2SF x = S754_nan.
Proof.
  unfold is_nan. rewrite negb_true_iff, FloatAxioms.eqb_spec.
  apply SFeqb_irrefl_nan.
Qed.

Lemma Prim2SF_is_nan (x : float) : FloatOps.Prim2SF x = S754_nan -> is_nan x = true.
Proof.
  intros H. unfold is_nan. by rewrite negb_true_iff, FloatAxioms.eqb_spec, H.
Qed.

Lemma leb_nan_l (x y : float) : is_nan x = true -> (x <=? y)%float = false.
Proof.
  intros H. by rewrite leb_spec, (is_nan_Prim2SF _ H).
Qed.

Lemma leb_nan_r (x y : float) : is_nan y = true -> (x <=? y)%float = false.
Proof.
  intros H. rewrite leb_spec, (is_nan_Prim2SF _ H).
  by destruct (FloatOps.Prim2SF x).
Qed.

Lemma add_nan_l (x y : float) : is_nan x = true -> is_nan (x + y) = true.
Proof.
  intros H. apply Prim2SF_is_nan. by rewrite add_spec, (is_nan_Prim2SF _ H).
Qed.

Lemma add_nan_r (x y : float) : is_nan y = true -> is_nan (x + y) = true.
Proof.
  intros H. apply Prim2SF_is_nan. rewrite add_spec, (is_nan_Prim2SF _ H).
  by destruct (FloatOps.Prim2SF x).
Qed.

(** [a == b] for a [b] that is not a zero means that [a] is [b]. *)
Lemma SFeqb_eq (f1 f2 : spec_float) :
  SFeqb f1 f2 = true ->
  (forall s, f2 <> S754_zero s) ->
  f1 = f2.
Proof.
  unfold SFeqb, SFcompare. intros H Hz.
  destruct f1 as [s1|s1| |s1 m1 e1], f2 as [s2|s2| |s2 m2 e2];
    try done; try (by destruct (Hz s2));
    try (by destruct s1); try (by destruct s2); try (by destruct s1, s2).
  destruct s1, s2; try done;
    (destruct (Z.compare e1 e2) eqn:He; try done;
     apply Z.compare_eq in He; subst;
     destruct (Pos.compare_cont Eq m1 m2) eqn:Hm; try done;
     apply Pos.compare_eq in Hm; by subst).
Qed.

Lemma eqb_one (a : float) : (a =? 1)%float = true -> a = 1%float.
Proof.
  rewrite FloatAxioms.eqb_spec. intros H.
  apply Prim2SF_inj, SFeqb_eq; [done|]. by vm_compute.
Qed.

Lemma eqb_ten (a : float) : (a =? 10)%float = true -> a = 10%float.
Proof.
  rewrite FloatAxioms.eqb_spec. intros H.
  apply Prim2SF_inj, SFeqb_eq; [done|]. by vm_compute.
Qed.

(** ** Arrays *)

Lemma remove_at_indexOf_other `{EqDecision A} (x y : A) (l : list A) :
  y <> x -> y ∈ remove_at_indexOf x l <-> y ∈ l.
Proof.
  intros Hne. unfold remove_at_indexOf, indexOf.
  destruct (list_find (fun z => z = x) l) as [[i z]|] eqn:Hfind; cbn; [|done].
  apply list_find_Some in Hfind as (Hi & -> & _).
  rewrite <- (take_drop_middle l i x Hi) at 2.
  rewrite delete_take_drop. set_solver.
Qed.

Lemma remove_at_indexOf_cons `{EqDecision A} (x y : A) (l : list A) :
  remove_at_indexOf x (y :: l)
  = if decide (y = x) then l else y :: remove_at_indexOf x l.
Proof.
  unfold remove_at_indexOf, indexOf. cbn.
  destruct (decide (y = x)); cbn; [done|].
  by destruct (list_find (fun z => z = x) l) as [[i z]|].
Qed.

Lemma filter_absent `{EqDecision A} (x : A) (l : list A) :
  x ∉ l -> filter (fun y => y <> x) l = l.
Proof.
  induction l as [|y l IH]; [done|].
  intros Hx. apply not_elem_of_cons in Hx as [Hne Hx].
  rewrite filter_cons, decide_True by done. by rewrite IH.
Qed.

Lemma remove_at_indexOf_filter `{EqDecision A} (x : A) (l : list A) :
  NoDup l -> remove_at_indexOf x l = filter (fun y => y <> x) l.
Proof.
  induction 1 as [|y l Hy Hnd IH]; [done|].
  rewrite remove_at_indexOf_cons, filter_cons.
  destruct (decide (y = x)) as [->|Hne].
  - rewrite decide_False by tauto. by rewrite filter_absent.
  - rewrite decide_True by done. by rewrite IH.
Qed.

Lemma remove_all_filter `{EqDecision A} (xs : list A) :
  forall l,
    NoDup l ->
    fold_left (fun l x => remove_at_indexOf x l) xs l
    = filter (fun y => y ∉ xs) l.
Proof.
  induction xs as [|x xs IH]; intros l Hnd; cbn [fold_left].
  - symmetry. induction l as [|y l IHl]; [done|].
    apply NoDup_cons in Hnd as [_ Hnd].
    rewrite filter_cons, decide_True by set_solver. by rewrite IHl.
  - rewrite remove_at_indexOf_filter by done.
    rewrite IH by by apply NoDup_filter.
    rewrite list_filter_filter. apply list_filter_iff. set_solver.
Qed.

Lemma length_remove_at_indexOf `{EqDecision A} (x : A) (l : list A) :
  x ∈ l -> S (length (remove_at_indexOf x l)) = length l.
Proof.
  intros Hin. unfold remove_at_indexOf, indexOf.
  destruct (list_find (fun y => y = x) l) as [[i y]|] eqn:Hfind; cbn.
  - apply list_find_Some in Hfind as (Hi & _).
    apply lookup_lt_Some in Hi. rewrite length_delete; [lia|].
    by apply lookup_lt_is_Some_2.
  - apply list_find_None in Hfind. rewrite Forall_forall in Hfind.
    by destruct (Hfind x Hin).
Qed.

Lemma remove_at_indexOf_snoc `{EqDecision A} (x : A) (l : list A) :
  x ∉ l -> remove_at_indexOf x (l ++ [x]) = l.
Proof.
  induction l as [|y l IH]; intros Hx.
  - cbn [app]. rewrite remove_at_indexOf_cons. by rewrite decide_True.
  - apply not_elem_of_cons in Hx as [Hne Hx]. cbn [app].
    rewrite remove_at_indexOf_cons, decide_False by done.
    by rewrite IH.
Qed.

Lemma remove_at_indexOf_middle `{EqDecision A} (x : A) (l1 l2 : list A) :
  x ∉ l1 -> remove_at_indexOf x (l1 ++ x :: l2) = (l1 ++ l2)%list.
Proof.
  induction l1 as [|y l1 IH]; intros Hx; cbn [app].
  - rewrite remove_at_indexOf_cons. by rewrite decide_True.
  - apply not_elem_of_cons in Hx as [Hne Hx].
    rewrite remove_at_indexOf_cons, decide_False by done.
    by rewrite IH.
Qed.

Lemma length_remove_at_indexOf_in `{EqDecision A} (x : A) (l : list A) :
  x ∈ l -> S (length (remove_at_indexOf x l)) = length l.
Proof.
  intros Hin. unfold remove_at_indexOf, indexOf.
  destruct (list_find (fun y => y = x) l) as [[i y]|] eqn:Hfind; cbn.
  - apply list_find_Some in Hfind as (Hi & _).
    rewrite length_delete by eauto.
    apply lookup_lt_Some in Hi. lia.
  - apply list_find_None in Hfind. rewrite Forall_forall in Hfind.
    by destruct (Hfind x Hin).
Qed.

Lemma remove_at_indexOf_twice `{EqDecision A} (x : A) (l : list A) :
  x ∈ remove_at_indexOf x (l ++ [x; x]).
Proof.
  induction l as [|y l IH]; cbn [app]; rewrite remove_at_indexOf_cons.
  - rewrite decide_True by done. set_solver.
  - destruct (decide (y = x)); set_solver.
Qed.

Lemma delete_last {A} (l : list A) :
  delete (Nat.pred (length l)) l = removelast l.
Proof.
  induction l as [|a [|b l] IH]; [done..|].
  change (removelast (a :: b :: l)) with (a :: removelast (b :: l)).
  rewrite <- IH. done.
Qed.

(** ** Brick *)

(** X1.  [intersects] is symmetric: for all bricks [a] and [b],
    [a.intersects(b)] and [b.intersects(a)] give the same answer. *)
Theorem intersects_symmetric (a b : Brick.t) :
  Brick.intersects a b = Brick.intersects b a.
Proof.
  unfold Brick.intersects, JS.geq.
  repeat match goal with
         | |- context [(?x <=? ?y)%float] =>
             let c := fresh "c" in
             generalize (x <=? y)%float; intros c
         end.
  by repeat match goal with c : bool |- _ => destruct c end.
Qed.

(** X2.  A brick one of whose position or scale coordinates is NaN
    intersects no brick and no brick intersects it; it does not even
    intersect itself. *)
Theorem intersects_nan (a b : Brick.t) :
  Brick.has_nan (Brick.position a) || Brick.has_nan (Brick.scale a) = true ->
  Brick.intersects a b = false /\ Brick.intersects b a = false
  /\ Brick.intersects a a = false.
Proof.
  intros H.
  assert (forall c, Brick.intersects a c = false
                    /\ Brick.intersects c a = false) as Ha.
  { intros c. unfold Brick.intersects, JS.geq.
    unfold Brick.has_nan in H.
    repeat (apply orb_prop in H; destruct H as [H|H]).
    all: split.
    all: first
      [ rewrite (leb_nan_l _ _ H)
      | rewrite (leb_nan_r _ _ (add_nan_l _ _ H))
      | rewrite (leb_nan_r _ _ (add_nan_r _ _ H)) ].
    all: by rewrite ?andb_false_r, ?andb_false_l. }
  split_and!; apply Ha.
Qed.

Section BrickMethods.
Import Brick.

(** X3.  For every brick, [clone()] gives a brick with the same
    serialized fields (position, scale, color, visibility, collision, name,
    rotation, model, light and click settings) and the same shape, whose
    netId is the next value of the brick counter; whatever the state of the
    original, the clone is not destroyed, has no socket, no timer, nobody
    touching it, an idle hit monitor and only the two listeners of the
    constructor. *)
Theorem clone_copies_appearance (st : Statics) (b : Brick.t) :
  Serialize.data_of (snd (clone st b)) = Serialize.data_of b
  /\ shape (snd (clone st b)) = shape b
  /\ netId (snd (clone st b)) = Some (JS.incr (brickId st))
  /\ brickId (fst (clone st b)) = JS.incr (brickId st)
  /\ destroyed (snd (clone st b)) = false
  /\ socket (snd (clone st b)) = None
  /\ timers (snd (clone st b)) = []
  /\ _playersTouching (snd (clone st b)) = ∅
  /\ _hitMonitorActive (snd (clone st b)) = false
  /\ _events (snd (clone st b)) = ["newListener"; "removeListener"].
Proof.
  by split_and!.
Qed.

Lemma update_other (this r : ref) (f : t -> t) (w : world) :
  r <> this -> brick_store (update this f w) r = brick_store w r.
Proof. intros Hr. unfold update. cbn. by apply fn_lookup_insert_ne. Qed.

Lemma setter_step_spec (this : ref) (c : setter_call) (w : world) :
  same_identity (brick_store w this) (brick_store (setter_step this w c) this)
  /\ bricks (setter_step this w c) = bricks w
  /\ players (setter_step this w c) = players w
  /\ player_store (setter_step this w c) = player_store w
  /\ intervals (setter_step this w c) = intervals w
  /\ (forall r, r <> this ->
        brick_store (setter_step this w c) r = brick_store w r)
  /\ exists sent,
       packets (setter_step this w c) = (packets w ++ sent)%list
       /\ (length sent <= 1)%nat
       /\ Forall (sent_for (brick_store w this)) sent.
Proof.
  unfold same_identity, sent_for.
  destruct c; cbn [setter_step];
    unfold setPosition, setScale, setRotation, setModel, setColor,
      setLightColor, setLightRange, setVisibility, setCollision, setClickable;
    cbv zeta;
    repeat match goal with
           | |- context [if ?c then _ else _] => destruct c eqn:?
           end;
    cbn [settled];
    unfold createBrickPacket; cbn;
    rewrite ?fn_lookup_insert; cbn; rewrite ?fn_lookup_insert; cbn;
    (split_and!; try done;
     try (by intros r Hr; rewrite ?fn_lookup_insert_ne by done);
     first [ by eexists (cons _ nil); split_and!;
                  [reflexivity | cbn; lia | repeat constructor]
           | by exists nil; rewrite app_nil_r; split_and!;
                  [done | cbn; lia | constructor] ]).
Qed.

Lemma setter_run_spec (this : ref) (cs : list setter_call) :
  forall w,
    same_identity (brick_store w this)
      (brick_store (fold_left (setter_step this) cs w) this)
    /\ bricks (fold_left (setter_step this) cs w) = bricks w
    /\ players (fold_left (setter_step this) cs w) = players w
    /\ player_store (fold_left (setter_step this) cs w) = player_store w
    /\ intervals (fold_left (setter_step this) cs w) = intervals w
    /\ (forall r, r <> this ->
          brick_store (fold_left (setter_step this) cs w) r = brick_store w r)
    /\ exists sent,
         packets (fold_left (setter_step this) cs w) = (packets w ++ sent)%list
         /\ (length sent <= length cs)%nat
         /\ Forall (sent_for (brick_store w this)) sent.
Proof.
  induction cs as [|c cs IH]; intros w; cbn [fold_left].
  - unfold same_identity. split_and!; try done.
    exists nil. by rewrite app_nil_r.
  - destruct (setter_step_spec this c w)
      as (A1 & A2 & A3 & A4 & A5 & A6 & sent1 & A7 & A8 & A9).
    destruct (IH (setter_step this w c))
      as (B1 & B2 & B3 & B4 & B5 & B6 & sent2 & B7 & B8 & B9).
    unfold same_identity in *.
    destruct A1 as (A11 & A12 & A13 & A14 & A15 & A16 & A17 & A18).
    destruct B1 as (B11 & B12 & B13 & B14 & B15 & B16 & B17 & B18).
    split_and!; try congruence.
    + intros r Hr. rewrite B6, A6; done.
    + exists (sent1 ++ sent2)%list. split_and!.
      * by rewrite B7, A7, app_assoc.
      * rewrite length_app. cbn. lia.
      * apply Forall_app. split; [done|].
        eapply Forall_impl; [exact B9|].
        unfold sent_for. intros p [? ?]. split; congruence.
Qed.

(** X4.  For every sequence of setter calls on a brick (setPosition,
    setScale, setRotation, setModel, setColor, setLightColor, setLightRange,
    setVisibility, setCollision, setClickable): the brick keeps its netId,
    socket, destroyed flag, lightEnabled flag, timers, listeners and touch
    state; the list of bricks, the intervals and the other bricks are the
    same; at most one packet per call is sent, each with the netId of the
    brick and addressed to its socket (to everybody when it has none).  No
    setter enables the light: when lightEnabled is false beforehand,
    setLightColor and setLightRange are still rejected afterwards. *)
Theorem setters_keep_identity (this : ref) (cs : list setter_call)
    (w : world) :
  same_identity (brick_store w this)
    (brick_store (fold_left (setter_step this) cs w) this)
  /\ bricks (fold_left (setter_step this) cs w) = bricks w
  /\ intervals (fold_left (setter_step this) cs w) = intervals w
  /\ (forall r, r <> this ->
        brick_store (fold_left (setter_step this) cs w) r = brick_store w r)
  /\ (exists sent,
        packets (fold_left (setter_step this) cs w) = (packets w ++ sent)%list
        /\ (length sent <= length cs)%nat
        /\ Forall (sent_for (brick_store w this)) sent)
  /\ (lightEnabled (brick_store w this) = false ->
      forall color range,
        setLightColor color this (fold_left (setter_step this) cs w)
        = JS.Rejected "brick.lightEnabled must be enabled first!"
        /\ setLightRange range this (fold_left (setter_step this) cs w)
           = JS.Rejected "brick.lightEnabled must be enabled first!").
Proof.
  destruct (setter_run_spec this cs w)
    as (A1 & A2 & A3 & A4 & A5 & A6 & A7).
  split_and!; try done.
  intros Hlight color range. unfold setLightColor, setLightRange.
  destruct A1 as (_ & _ & _ & -> & _). by rewrite Hlight.
Qed.

Lemma destroy_store (this : ref) (w w' : world) :
  destroy this w = JS.Resolved w' ->
  netId (brick_store w' this) = None
  /\ socket (brick_store w' this) = None
  /\ destroyed (brick_store w' this) = true.
Proof.
  unfold destroy. destruct (destroyed (brick_store w this)); [done|].
  intros [= <-]. by rewrite !store_update.
Qed.

(** X5.  The setters do not look at [destroyed].  After
    [destroy()] resolved, every setter call that is not rejected still
    writes to the brick and sends a packet, whose netId is null and which
    is broadcast (the socket was reset) even when the brick was a local
    one; [setColor] for instance stores the color and broadcasts such a
    packet. *)
Theorem setters_after_destroy (this : ref) (w : world) :
  destroyed (brick_store w this) = false ->
  exists w',
    destroy this w = JS.Resolved w'
    /\ (forall cs, exists sent,
          packets (fold_left (setter_step this) cs w')
          = (packets w' ++ sent)%list
          /\ Forall (fun p => packet_netId p = None /\ packet_socket p = None)
               sent)
    /\ (forall color,
          color = Brick.color (brick_store (setColor color this w') this)
          /\ packets (setColor color this w')
             = (packets w'
                ++ [{| packet_netId := None; packet_modification := "col";
                       packet_socket := None |}])%list).
Proof.
  intros Hlive.
  destruct (destroy this w) as [w'|reason] eqn:Hdestroy.
  2: { unfold destroy in Hdestroy. by rewrite Hlive in Hdestroy. }
  destruct (destroy_store _ _ _ Hdestroy) as (Hid & Hsock & _).
  exists w'. split_and!; [done| |].
  - intros cs.
    destruct (setter_run_spec this cs w')
      as (_ & _ & _ & _ & _ & _ & sent & A1 & _ & A2).
    exists sent. split; [done|].
    eapply Forall_impl; [exact A2|].
    unfold sent_for. intros p [? ?]. split; congruence.
  - intros color. unfold setColor, createBrickPacket. cbn.
    rewrite !fn_lookup_insert. cbn. by rewrite Hid, Hsock.
Qed.

Lemma on_other (event : string) (this : ref) (w : world) :
  event ∉ TOUCH_EVENTS ->
  on event this w
  = update this (fun b => set_events (_events b ++ [event])%list b) w.
Proof.
  intros H. unfold on. cbv zeta.
  by rewrite (bool_decide_eq_false_2 _ H), andb_false_r.
Qed.

Lemma off_other (event : string) (this : ref) (w : world) :
  event <> "touching" ->
  off event this w
  = if bool_decide (event ∈ _events (brick_store w this)) then
      update this
        (fun b => set_events (remove_at_indexOf event (_events b)) b) w
    else w.
Proof.
  intros H. unfold off, removeListener_handler. cbv zeta.
  destruct (bool_decide (event ∈ _)); cbn [negb]; [|done].
  rewrite (bool_decide_eq_false_2 _ H). cbn [negb].
  by destruct (bool_decide ("removeListener" ∈ _)).
Qed.

(** X6.  [clicked(callback)] followed by the [disconnect()] of the
    handle it returned leaves the brick not clickable with a click distance
    of 50, whatever the flag and the distance were before; the intervals,
    the hit monitor and the number of listeners are as they were. *)
Theorem clicked_then_disconnect (this : ref) (w : world) :
  clickable (brick_store (clicked_disconnect this (clicked this w)) this)
  = false
  /\ clickDistance
       (brick_store (clicked_disconnect this (clicked this w)) this)
     = 50%float
  /\ intervals (clicked_disconnect this (clicked this w)) = intervals w
  /\ _hitMonitorActive
       (brick_store (clicked_disconnect this (clicked this w)) this)
     = _hitMonitorActive (brick_store w this)
  /\ length (_events
               (brick_store (clicked_disconnect this (clicked this w)) this))
     = length (_events (brick_store w this)).
Proof.
  unfold clicked_disconnect, clicked. cbv zeta.
  set (w1 := if negb (clickable (brick_store w this)) then _ else w).
  assert (Hw1 : intervals w1 = intervals w
                /\ _hitMonitorActive (brick_store w1 this)
                   = _hitMonitorActive (brick_store w this)
                /\ _events (brick_store w1 this)
                   = _events (brick_store w this)).
  { subst w1. destruct (negb _); [|done].
    unfold setClickable, createBrickPacket. cbv zeta.
    destruct (JS.truthy _); cbn; by rewrite !fn_lookup_insert. }
  destruct Hw1 as (A1 & A2 & A3).
  rewrite on_other by (unfold TOUCH_EVENTS; set_solver).
  rewrite off_other by done.
  rewrite store_update. cbn [_events set_events].
  rewrite bool_decide_eq_true_2 by set_solver.
  unfold setClickable, createBrickPacket. cbv zeta.
  change (JS.truthy (default 50%float None)) with true. cbn.
  rewrite !fn_lookup_insert. cbn.
  split_and!; try done.
  apply eq_add_S. rewrite length_remove_at_indexOf by set_solver.
  rewrite length_app, A3. cbn. lia.
Qed.

End BrickMethods.

Section HitMonitorLifecycle.
Import Brick.

Variable this : ref.
Variable base : gset timer.

Lemma on_step (event : string) (w : world) :
  event <> "newListener" -> event <> "removeListener" ->
  monitor_inv this base w -> monitor_inv this base (on event this w).
Proof.
  intros Hn Hr (I1 & I2 & I3 & I4 & I5). unfold monitor_inv, on. cbv zeta.
  rewrite (bool_decide_eq_true_2 _ I1). cbn [andb].
  unfold monitor_accounted in *.
  destruct (bool_decide (event ∈ TOUCH_EVENTS)) eqn:Htouch; cbn [andb].
  - destruct (_hitMonitorActive (brick_store w this)) eqn:Hactive; cbn [negb].
    + rewrite store_update. cbn. rewrite Hactive.
      split_and!; try done; set_solver.
    + unfold _detectTouching, js_setInterval. cbv zeta.
      rewrite !store_update. cbn.
      split_and!; try set_solver.
      eexists. split_and!; [done| |by rewrite I4].
      intros Hin. specialize (I3 _ Hin). lia.
  - rewrite store_update. cbn.
    apply bool_decide_eq_false in Htouch.
    unfold TOUCH_EVENTS in Htouch.
    split_and!; try done; set_solver.
Qed.

Local Ltac norm :=
  repeat (rewrite ?store_update; cbn; rewrite ?fn_lookup_insert; cbn).

Lemma off_step (event : string) (w : world) :
  event <> "newListener" -> event <> "removeListener" ->
  monitor_inv this base w -> monitor_inv this base (off event this w).
Proof.
  intros Hn Hr (I1 & I2 & I3 & I4 & I5). unfold off. cbv zeta.
  destruct (bool_decide (event ∈ _events (brick_store w this))) eqn:Hin;
    cbn [negb]; [|done].
  rewrite (bool_decide_eq_true_2 _ I2).
  unfold removeListener_handler. cbv zeta. rewrite store_update.
  cbn [_events set_events].
  assert (Hkeep : forall y, y <> event ->
            y ∈ remove_at_indexOf event (_events (brick_store w this))
            <-> y ∈ _events (brick_store w this)).
  { intros y Hy. by apply remove_at_indexOf_other. }
  unfold monitor_inv, monitor_accounted in *.
  apply bool_decide_eq_true in Hin.
  destruct (bool_decide (event = "touching")) eqn:Hev; cbn [negb].
  - apply bool_decide_eq_true in Hev. subst event.
    destruct (bool_decide ("touching" ∈ _)) eqn:Hleft.
    + norm.
      split_and!; try done; try (by apply Hkeep). auto.
    + apply bool_decide_eq_false in Hleft.
      rewrite (I5 Hin) in I4. destruct I4 as (h & Hh & Hfresh & Hint).
      norm. rewrite Hh. norm.
      split_and!; try done; try (by apply Hkeep).
      rewrite Hint. set_solver.
  - apply bool_decide_eq_false in Hev.
    norm.
    split_and!; try done; try (by apply Hkeep).
    intros Hin'. apply I5. by apply Hkeep in Hin'.
Qed.

Lemma listener_run_inv (cs : list listener_call) :
  forall w,
    Forall user_call cs -> monitor_inv this base w ->
    monitor_inv this base (fold_left (listener_step this) cs w).
Proof.
  induction cs as [|c cs IH]; intros w Hcs Hinv; cbn [fold_left]; [done|].
  apply Forall_cons in Hcs as [Hc Hcs]. apply IH; [done|].
  destruct c as [event|event]; destruct Hc as [Hn Hr]; cbn [listener_step].
  - by apply on_step.
  - by apply off_step.
Qed.
End HitMonitorLifecycle.

(** X7.  The hit monitor does not leak.  Take a brick with the two
    listeners of its constructor, no listener of "touching" and an idle hit
    monitor, in a world whose interval handles are below the next one.
    After every sequence of [on] and [off] calls with events other than
    "newListener" and "removeListener": when the monitor is active, the
    intervals are the ones set before plus the one interval of
    [_hitMonitor], which is new; when it is not active, they are exactly
    the ones set before.  And the monitor is active whenever a listener of
    "touching" is registered. *)
Theorem hit_monitor_never_leaks (this : ref) (w : Brick.world)
    (cs : list Brick.listener_call) :
  "newListener" ∈ Brick._events (Brick.brick_store w this) ->
  "removeListener" ∈ Brick._events (Brick.brick_store w this) ->
  "touching" ∉ Brick._events (Brick.brick_store w this) ->
  Brick._hitMonitorActive (Brick.brick_store w this) = false ->
  (forall h, h ∈ Brick.intervals w -> (h < Brick.next_interval w)%nat) ->
  Forall Brick.user_call cs ->
  Brick.monitor_accounted this (Brick.intervals w)
    (fold_left (Brick.listener_step this) cs w)
  /\ ("touching"
        ∈ Brick._events
            (Brick.brick_store (fold_left (Brick.listener_step this) cs w)
               this) ->
      Brick._hitMonitorActive
        (Brick.brick_store (fold_left (Brick.listener_step this) cs w) this)
      = true).
Proof.
  intros H1 H2 H3 H4 H5 Hcs.
  destruct (listener_run_inv this (Brick.intervals w) cs w Hcs)
    as (_ & _ & _ & A & B); [|done].
  unfold Brick.monitor_inv, Brick.monitor_accounted. rewrite H4.
  split_and!; done.
Qed.

(** X8.  Taking off the last listener of "touching" stops the hit
    monitor: its interval is cleared and [_hitMonitorActive] is false,
    while the listeners of all other events, those of "touchingEnded"
    included, stay registered. *)
Theorem last_touching_listener_stops_monitor (this : ref) (w : Brick.world) :
  "removeListener" ∈ Brick._events (Brick.brick_store w this) ->
  "touching" ∈ Brick._events (Brick.brick_store w this) ->
  "touching"
    ∉ remove_at_indexOf "touching" (Brick._events (Brick.brick_store w this)) ->
  Brick._hitMonitorActive
    (Brick.brick_store (Brick.off "touching" this w) this) = false
  /\ (forall h,
        Brick._hitMonitor (Brick.brick_store w this) = Some h ->
        h ∉ Brick.intervals (Brick.off "touching" this w))
  /\ (forall event,
        event <> "touching" ->
        event ∈ Brick._events (Brick.brick_store w this) ->
        event
          ∈ Brick._events
              (Brick.brick_store (Brick.off "touching" this w) this)).
Proof.
  intros Hr Hin Hlast. unfold Brick.off. cbv zeta.
  rewrite (bool_decide_eq_true_2 _ Hin), (bool_decide_eq_true_2 _ Hr).
  cbn [negb]. unfold Brick.removeListener_handler. cbv zeta.
  rewrite bool_decide_eq_true_2 by done. cbn [negb].
  rewrite store_update. cbn [Brick._events Brick.set_events].
  rewrite (bool_decide_eq_false_2 _ Hlast).
  rewrite store_update. cbn.
  split_and!; [done| |].
  - intros h ->. cbn. set_solver.
  - intros event Hne Hev.
    destruct (Brick._hitMonitor (Brick.brick_store w this)); cbn;
      rewrite fn_lookup_insert; cbn; by apply remove_at_indexOf_other.
Qed.

(** ** Player *)

Section PlayerTools.
Import Player.

Lemma unequipTool_spec (tool : ref) (p : t) :
  inventory (fst (unequipTool tool p)) = inventory p
  /\ (toolEquipped (fst (unequipTool tool p)) = toolEquipped p
      \/ toolEquipped (fst (unequipTool tool p)) = None).
Proof.
  unfold unequipTool. destruct (negb _); cbn; auto.
Qed.

Lemma tool_step_inv (c : tool_call) (p : t) :
  tools_consistent p -> tools_consistent (tool_step p c).
Proof.
  intros [Hnd Heq]. unfold tools_consistent.
  destruct c as [tool|tool|tool|tool]; cbn [tool_step].
  - unfold addTool. case_bool_decide as Hin; cbn; [done|].
    split.
    + apply NoDup_app. split_and!; [done| set_solver | apply NoDup_singleton].
    + intros t' Ht'. apply elem_of_app. left. by apply Heq.
  - unfold removeTool, indexOf.
    destruct (list_find (fun y => y = tool) (inventory p)) as [[i y]|] eqn:Hfind;
      cbn; [|done].
    apply list_find_Some in Hfind as (Hi & -> & _).
    unfold unequipTool. cbn.
    case_bool_decide as Hheld; cbn.
    + split; [|done]. by apply sublist_NoDup with (inventory p), sublist_delete.
    + split; [by apply sublist_NoDup with (inventory p), sublist_delete|].
      intros t' Ht'. specialize (Heq t' Ht').
      assert (t' <> tool) by congruence.
      rewrite <- (take_drop_middle _ _ _ Hi) in Heq.
      rewrite delete_take_drop. set_solver.
  - unfold equipTool, addTool.
    case_bool_decide as Hin; cbn.
    + unfold unequipTool.
      destruct (toolEquipped p) as [held|] eqn:Hheld; cbn;
        repeat (case_bool_decide; cbn); simplify_eq; split; try done;
        intros t' Ht'; simplify_eq; done.
    + rewrite bool_decide_eq_false_2 by set_solver. cbn.
      assert (NoDup (inventory p ++ [tool])).
      { apply NoDup_app. split_and!; [done| set_solver | apply NoDup_singleton]. }
      unfold unequipTool.
      destruct (toolEquipped p) as [held|] eqn:Hheld; cbn;
        repeat (case_bool_decide; cbn); simplify_eq; split; try done;
        intros t' Ht'; simplify_eq; set_solver.
  - destruct (unequipTool_spec tool p) as [-> [-> | ->]]; split; done.
Qed.

Lemma tool_run_inv (cs : list tool_call) :
  forall p, tools_consistent p -> tools_consistent (fold_left tool_step cs p).
Proof.
  induction cs as [|c cs IH]; intros p Hp; cbn [fold_left]; [done|].
  by apply IH, tool_step_inv.
Qed.

Lemma removeTool_gone (tool : ref) (p : t) :
  tools_consistent p ->
  (tool ∉ inventory (fst (removeTool tool p)))
  /\ toolEquipped (fst (removeTool tool p)) <> Some tool.
Proof.
  intros [Hnd Heq].
  assert (Hinv : inventory (fst (removeTool tool p))
                 = remove_at_indexOf tool (inventory p)).
  { unfold removeTool, remove_at_indexOf.
    destruct (indexOf tool (inventory p)); [|done].
    unfold unequipTool. cbn. by case_bool_decide. }
  split.
  - rewrite Hinv. by apply remove_at_indexOf_not_in.
  - intros Hheld.
    destruct (tool_step_inv (RemoveTool tool) p (conj Hnd Heq)) as [_ Heq'].
    cbn [tool_step] in Heq'. specialize (Heq' _ Hheld).
    rewrite Hinv in Heq'. by apply remove_at_indexOf_not_in in Heq'.
Qed.
End PlayerTools.

Section ToolCalls.
Import Player.

(** An awaited call is the call run to its end. *)
Lemma awaited_tool_step (c : tool_call) (p : t) :
  awaited c p = (tool_step p c, []).
Proof.
  unfold awaited, start, tool_step, switch_segment, equip_segment.
  destruct c as [tool|tool|tool|tool].
  - unfold addTool. by case_bool_decide.
  - by destruct (removeTool tool p).
  - unfold equipTool, addTool.
    case_bool_decide as Hin; cbn.
    + unfold unequipTool.
      destruct (toolEquipped p) as [held|];
        repeat (case_bool_decide; cbn); simplify_eq; try done.
    + unfold switch_segment, equip_segment, unequipTool. cbn.
      destruct (toolEquipped p) as [held|];
        repeat (case_bool_decide; cbn); simplify_eq; try done.
  - by destruct (unequipTool tool p).
Qed.

Lemma switch_inventory (tool : ref) (p : t) :
  inventory (fst (fst (switch_segment tool p))) = inventory p.
Proof.
  unfold switch_segment, equip_segment, unequipTool.
  destruct (toolEquipped p) as [held|];
    repeat (case_bool_decide; cbn); done.
Qed.

Lemma resume_inventory (s : segment) (p : t) :
  inventory (fst (fst (resume s p))) = inventory p.
Proof. destruct s; cbn; try done. apply switch_inventory. Qed.

Lemma start_NoDup (c : tool_call) (p : t) :
  NoDup (inventory p) -> NoDup (inventory (fst (fst (start c p)))).
Proof.
  intros Hnd. destruct c as [tool|tool|tool|tool]; cbn.
  - case_bool_decide; cbn; [done|].
    apply NoDup_app. split_and!; [done| set_solver | apply NoDup_singleton].
  - unfold removeTool. destruct (indexOf tool (inventory p)); cbn; [|done].
    unfold unequipTool. cbn. case_bool_decide; cbn;
      by apply sublist_NoDup with (inventory p), sublist_delete.
  - case_bool_decide; cbn.
    + by rewrite switch_inventory.
    + apply NoDup_app. split_and!; [done| set_solver | apply NoDup_singleton].
  - unfold unequipTool. by case_bool_decide.
Qed.

Lemma act_NoDup (a : action) (st : t * list (list segment)) :
  NoDup (inventory (fst st)) -> NoDup (inventory (fst (act st a))).
Proof.
  destruct st as [p calls]. intros Hnd. destruct a as [c|i]; cbn.
  - pose proof (start_NoDup c p Hnd) as H.
    by destruct (start c p) as [[p' log] rest].
  - destruct (calls !! i) as [[|s rest]|]; try done.
    pose proof (resume_inventory s p) as H.
    destruct (resume s p) as [[p' log] more]. cbn in *. by rewrite H.
Qed.

Lemma run_NoDup (actions : list action) :
  forall st, NoDup (inventory (fst st)) ->
             NoDup (inventory (fst (fold_left act actions st))).
Proof.
  induction actions as [|a actions IH]; intros st Hst; [done|].
  cbn [fold_left]. by apply IH, act_NoDup.
Qed.

Lemma removeTool_spec (tool : ref) (p : t) :
  inventory (fst (removeTool tool p)) = remove_at_indexOf tool (inventory p)
  /\ (toolEquipped (fst (removeTool tool p)) = toolEquipped p
      \/ toolEquipped (fst (removeTool tool p)) = None).
Proof.
  unfold removeTool, remove_at_indexOf.
  destruct (indexOf tool (inventory p)); cbn; [|auto].
  unfold unequipTool. cbn. case_bool_decide; cbn; auto.
Qed.

End ToolCalls.

(** X9.  The tool methods are asynchronous.  When every call of
    [addTool], [removeTool], [equipTool] and [unequipTool] is awaited
    before the next is made, the inventory holds no tool twice and the
    tool in hand is in the inventory, after any sequence of calls, and
    [removeTool(tool)] leaves the tool out of the inventory and out of
    the hand; an awaited call has run all its parts.  When calls are not
    awaited, their parts run in any order: the inventory still holds no
    tool twice, but the tool in hand need not be in the inventory.  On a
    session with no tool in hand, [equipTool(tool)] followed at once by
    [removeTool(tool)] ends, when both calls have run all their parts,
    with the tool in hand and not in the inventory. *)
Theorem tools_stay_consistent (p : Player.t) :
  Player.tools_consistent p ->
  (forall cs,
     let q := fold_left (fun q c => fst (Player.awaited c q)) cs p in
     Player.tools_consistent q
     /\ forall tool,
          (tool ∉ Player.inventory (fst (Player.awaited (Player.RemoveTool tool) q)))
          /\ Player.toolEquipped (fst (Player.awaited (Player.RemoveTool tool) q))
             <> Some tool)
  /\ (forall c q, Player.awaited c q = (Player.tool_step q c, []))
  /\ (forall actions,
        NoDup (Player.inventory (fst (fold_left Player.act actions (p, [])))))
  /\ (forall tool,
        tool ∉ Player.inventory p ->
        Player.toolEquipped p = None ->
        let '(q, calls) :=
          fold_left Player.act
            [Player.Call (Player.EquipTool tool);
             Player.Call (Player.RemoveTool tool);
             Player.Resume 0; Player.Resume 0; Player.Resume 0]
            (p, []) in
        Player.toolEquipped q = Some tool
        /\ (tool ∉ Player.inventory q)
        /\ calls = [[]; []]).
Proof.
  intros Hp. split_and!.
  - intros cs. cbv zeta.
    assert (fold_left (fun q c => fst (Player.awaited c q)) cs p
            = fold_left Player.tool_step cs p) as ->.
    { generalize p. induction cs as [|c cs IH]; intros q; [done|].
      cbn [fold_left]. by rewrite awaited_tool_step, IH. }
    pose proof (tool_run_inv cs p Hp) as Hrun.
    split; [done|]. intros tool. rewrite awaited_tool_step. cbn [fst].
    by apply removeTool_gone.
  - apply awaited_tool_step.
  - intros actions. apply run_NoDup. apply Hp.
  - intros tool Hout Hfree. cbn [fold_left Player.act Player.start].
    rewrite bool_decide_eq_false_2 by done. cbn [negb app].
    set (p1 := Player.set_inventory _ p).
    pose proof (removeTool_spec tool p1) as [Hinv Hhand].
    cbn -[Player.removeTool Player.switch_segment].
    destruct (Player.removeTool tool p1) as [p2 log]. cbn [fst] in *.
    assert (Player.inventory p2 = Player.inventory p) as Hinv2.
    { rewrite Hinv. unfold p1. cbn. by apply remove_at_indexOf_snoc. }
    assert (Player.toolEquipped p2 = None) as Hhand2.
    { destruct Hhand as [-> | ->]; done. }
    cbn -[Player.switch_segment].
    unfold Player.switch_segment. rewrite Hhand2.
    rewrite bool_decide_eq_false_2 by done. cbn.
    by rewrite Hinv2.
Qed.

Section PlayerHealth.
Import Player.

Lemma health_step_spec (c : health_call) (p : living) :
  maxHealth (fst (health_step p c)) = maxHealth p
  /\ (alive (session (fst (health_step p c))) = true ->
      alive (session p) = true)
  /\ (health_inv p -> health_inv (fst (health_step p c)))
  /\ deaths (snd (health_step p c))
     = (if alive (session p) && negb (alive (session (fst (health_step p c))))
        then 1 else 0)%nat.
Proof.
  unfold health_inv.
  destruct c as [|h]; cbn [health_step]; unfold setHealth, kill.
  - destruct (alive (session p)) eqn:Halive; cbn; by rewrite ?Halive.
  - destruct (h <=? 0)%float eqn:Hh, (alive (session p)) eqn:Halive,
      (maxHealth p <? h)%float; cbn; rewrite ?Halive; try done.
Qed.

Lemma deaths_app (log log' : list health_effect) :
  deaths (log ++ log') = (deaths log + deaths log')%nat.
Proof. unfold deaths. by rewrite List.filter_app, length_app. Qed.

Lemma health_run_spec (cs : list health_call) :
  forall p,
    maxHealth (fst (health_run p cs)) = maxHealth p
    /\ (alive (session (fst (health_run p cs))) = true ->
        alive (session p) = true)
    /\ (health_inv p -> health_inv (fst (health_run p cs)))
    /\ deaths (snd (health_run p cs))
       = (if alive (session p)
             && negb (alive (session (fst (health_run p cs))))
          then 1 else 0)%nat.
Proof.
  induction cs as [|c cs IH]; intros p; cbn [health_run].
  - cbn. split_and!; try done. by destruct (alive (session p)).
  - destruct (health_step_spec c p) as (A1 & A2 & A3 & A4).
    destruct (health_step p c) as [p1 log] eqn:Hstep. cbn [fst snd] in *.
    destruct (IH p1) as (B1 & B2 & B3 & B4).
    destruct (health_run p1 cs) as [p2 log'] eqn:Hrun. cbn [fst snd] in *.
    split_and!; [congruence | tauto | tauto |].
    rewrite deaths_app, A4, B4.
    destruct (alive (session p)), (alive (session p1)) eqn:H1,
      (alive (session p2)) eqn:H2; cbn; try done;
      try (by specialize (B2 eq_refl)); try (by specialize (A2 eq_refl)).
Qed.
End PlayerHealth.

(** X10.  For every sequence of kill and setHealth calls: maxHealth
    is unchanged; a session that is alive at the end was alive all along;
    if a live session had no health [<= 0] at the start, it has none at the
    end; "died" is emitted once when the session was alive at the start and
    is not at the end and not at all otherwise; and setHealth stores its
    argument as it is, above maxHealth too, unless it kills (the argument
    is [<= 0] and the session is alive). *)
Theorem health_runs (p : Player.living) (cs : list Player.health_call) :
  Player.maxHealth (fst (Player.health_run p cs)) = Player.maxHealth p
  /\ (Player.alive (Player.session (fst (Player.health_run p cs))) = true ->
      Player.alive (Player.session p) = true)
  /\ ((Player.alive (Player.session p) = true ->
       (Player.health p <=? 0)%float = false) ->
      Player.alive (Player.session (fst (Player.health_run p cs))) = true ->
      (Player.health (fst (Player.health_run p cs)) <=? 0)%float = false)
  /\ Player.deaths (snd (Player.health_run p cs))
     = (if Player.alive (Player.session p)
           && negb (Player.alive
                      (Player.session (fst (Player.health_run p cs))))
        then 1 else 0)%nat
  /\ (forall h,
        (h <=? 0)%float
        && Player.alive (Player.session (fst (Player.health_run p cs)))
        = false ->
        Player.health (fst (Player.setHealth h (fst (Player.health_run p cs))))
        = h).
Proof.
  destruct (health_run_spec cs p) as (A1 & A2 & A3 & A4).
  split_and!; try done.
  intros h Hh. unfold Player.setHealth. by rewrite Hh.
Qed.

Section PlayerDeleteBricks.
Import Player.

(** More fuel than the length of the array changes nothing: the loop has
    come to the end of the array. *)
Lemma deleteBricks_own_fuel (fuel : nat) :
  forall i l n,
    (length l - i <= fuel)%nat ->
    deleteBricks_own (fuel + n) i l = deleteBricks_own fuel i l.
Proof.
  induction fuel as [|fuel IH]; intros i l n Hlen.
  - cbn. destruct n as [|n]; cbn; [done|].
    rewrite lookup_ge_None_2 by lia. done.
  - cbn. destruct (l !! i) as [brick|] eqn:Hi; [|done].
    apply IH.
    pose proof (length_remove_at_indexOf_in brick l
                  (list_elem_of_lookup_2 _ _ _ Hi)).
    apply lookup_lt_Some in Hi. lia.
Qed.

(** Over an array that holds no brick twice, the loop takes out the
    bricks at the even positions from [i] on. *)
Lemma deleteBricks_own_spec (l : list ref) :
  forall kept fuel,
    NoDup (kept ++ l) -> (length l <= fuel)%nat ->
    deleteBricks_own fuel (length kept) (kept ++ l)
    = (kept ++ at_odd l)%list.
Proof.
  induction l as [l IH] using (induction_ltof1 _ (@length ref)).
  unfold ltof in IH. intros kept fuel Hnd Hfuel.
  destruct l as [|a [|b l]].
  - cbn [at_odd]. rewrite !app_nil_r. destruct fuel; cbn; [done|].
    by rewrite lookup_ge_None_2 by lia.
  - destruct fuel as [|fuel]; [cbn in Hfuel; lia|]. cbn [deleteBricks_own].
    rewrite list_lookup_middle by done.
    apply NoDup_app in Hnd as (_ & Hdisj & _).
    rewrite remove_at_indexOf_middle by set_solver.
    rewrite app_nil_r. cbn [at_odd]. rewrite app_nil_r.
    destruct fuel; cbn; [done|]. by rewrite lookup_ge_None_2 by lia.
  - destruct fuel as [|fuel]; [cbn in Hfuel; lia|]. cbn [deleteBricks_own].
    rewrite list_lookup_middle by done.
    pose proof Hnd as Hnd'.
    apply NoDup_app in Hnd' as (_ & Hdisj & _).
    rewrite remove_at_indexOf_middle by set_solver.
    cbn [at_odd].
    replace (kept ++ b :: l)%list with ((kept ++ [b]) ++ l)%list
      by (by rewrite <- app_assoc).
    replace (S (length kept)) with (length (kept ++ [b]))
      by (rewrite length_app; cbn; lia).
    rewrite IH.
    + by rewrite <- app_assoc.
    + cbn. lia.
    + rewrite <- app_assoc. cbn.
      apply NoDup_app in Hnd as (H1 & H2 & H3).
      apply NoDup_cons in H3 as [H3 H4].
      apply NoDup_app. split_and!; [done| set_solver | done].
    + cbn in Hfuel. lia.
Qed.

Lemma player_deleteBricks_spec (bricks : list ref) :
  forall p,
    localBricks (fst (deleteBricks (Another bricks) p))
    = fold_left (fun l b => remove_at_indexOf b l) bricks (localBricks p)
    /\ forall l,
         set_localBricks l (fst (deleteBricks (Another bricks) p))
         = set_localBricks l p.
Proof.
  unfold deleteBricks. cbn [fst].
  induction bricks as [|b bricks IH]; intros p; cbn [fold_left]; [done|].
  destruct (IH (set_localBricks (remove_at_indexOf b (localBricks p)) p))
    as [A1 A2].
  split; [by rewrite A1|]. intros l. by rewrite A2.
Qed.

End PlayerDeleteBricks.

(** X11.  [Player.deleteBricks(bricks)] on a session whose
    [localBricks] holds no brick twice.  Called with an array of its
    own, it takes exactly the given bricks out of [localBricks], keeps
    the order of the rest, skips bricks that are not local, and the
    packet names the given bricks.  Called with [localBricks] itself,
    the loop runs over the array it takes bricks out of and skips every
    other brick: the bricks at the positions 1, 3, 5, ... stay, and the
    packet names only these.  In both cases no other field of the
    session changes. *)
Theorem player_deleteBricks_removes (p : Player.t) :
  NoDup (Player.localBricks p) ->
  (forall bricks,
     Player.localBricks (fst (Player.deleteBricks (Another bricks) p))
     = filter (fun b => b ∉ bricks) (Player.localBricks p)
     /\ snd (Player.deleteBricks (Another bricks) p) = bricks)
  /\ Player.localBricks (fst (Player.deleteBricks Itself p))
     = at_odd (Player.localBricks p)
  /\ snd (Player.deleteBricks Itself p) = at_odd (Player.localBricks p)
  /\ (forall n,
        Player.deleteBricks_own (length (Player.localBricks p) + n) 0
          (Player.localBricks p)
        = Player.deleteBricks_own (length (Player.localBricks p)) 0
            (Player.localBricks p))
  /\ (forall bricks l,
        Player.set_localBricks l (fst (Player.deleteBricks bricks p))
        = Player.set_localBricks l p).
Proof.
  intros Hnd.
  assert (Player.deleteBricks_own (length (Player.localBricks p)) 0
            (Player.localBricks p)
          = at_odd (Player.localBricks p)) as Hown.
  { by apply (deleteBricks_own_spec (Player.localBricks p) []). }
  split_and!.
  - intros bricks. destruct (player_deleteBricks_spec bricks p) as [A1 A2].
    split; [|done]. rewrite A1. by apply remove_all_filter.
  - cbn. by rewrite Hown.
  - cbn. by rewrite Hown.
  - intros n. apply deleteBricks_own_fuel. lia.
  - intros [|bricks] l; [done|].
    by destruct (player_deleteBricks_spec bricks p) as [_ A2].
Qed.

(** ** Game *)

Section GameBricks.
Import Brick.

Lemma clearInterval_store (h : option timer) (w : world) :
  brick_store (js_clearInterval h w) = brick_store w.
Proof. by destruct h. Qed.

Lemma cleanup_other (this r : ref) (w : world) :
  r <> this -> brick_store (_cleanup this w) r = brick_store w r.
Proof.
  intros Hr.
  destruct (clear_steps
              (_steps (brick_store
                         (removeAllListeners this
                            (js_clearInterval
                               (_hitMonitor (brick_store w this)) w)) this))
              (removeAllListeners this
                 (js_clearInterval (_hitMonitor (brick_store w this)) w)))
    as (_ & _ & C & _).
  unfold _cleanup. cbv zeta. rewrite C.
  unfold removeAllListeners.
  destruct (bool_decide _ && bool_decide _); cbv zeta; unfold update;
    cbn [brick_store set_brick_store];
    rewrite ?fn_lookup_insert_ne by done;
    by rewrite !clearInterval_store.
Qed.

Lemma cleanup_durable (this r : ref) (w : world) :
  netId (brick_store (_cleanup this w) r) = netId (brick_store w r)
  /\ kept (brick_store (_cleanup this w) r) = kept (brick_store w r).
Proof.
  destruct (decide (r = this)) as [->|Hr]; [|by rewrite cleanup_other].
  destruct (cleanup_spec this w) as (_ & _ & A & _). split; [|done].
  destruct (clear_steps
              (_steps (brick_store
                         (removeAllListeners this
                            (js_clearInterval
                               (_hitMonitor (brick_store w this)) w)) this))
              (removeAllListeners this
                 (js_clearInterval (_hitMonitor (brick_store w this)) w)))
    as (_ & _ & C & _).
  unfold _cleanup. cbv zeta. rewrite C.
  unfold removeAllListeners.
  destruct (bool_decide _ && bool_decide _); cbv zeta;
    rewrite ?store_update; cbn; by rewrite !clearInterval_store.
Qed.

Lemma kept_timers (b b' : t) : kept b = kept b' -> timers b = timers b'.
Proof. unfold kept, timers. by intros [= _ _ -> ->]. Qed.

Lemma deleteBricks_spec (bs : list ref) :
  forall w,
    bricks (fst (Game.deleteBricks (Another bs) w))
    = fold_left (fun l b => remove_at_indexOf b l) bs (bricks w)
    /\ player_store (fst (Game.deleteBricks (Another bs) w)) = player_store w
    /\ (forall r,
          netId (brick_store (fst (Game.deleteBricks (Another bs) w)) r)
          = netId (brick_store w r)
          /\ kept (brick_store (fst (Game.deleteBricks (Another bs) w)) r)
             = kept (brick_store w r))
    /\ (forall h,
          h ∈ intervals (fst (Game.deleteBricks (Another bs) w))
          <-> h ∈ intervals w
              /\ forall b, b ∈ bs -> h ∉ timers (brick_store w b)).
Proof.
  unfold Game.deleteBricks. cbn [fst].
  induction bs as [|b bs IH]; intros w; cbn [fold_left].
  - split_and!; try done. set_solver.
  - destruct (cleanup_spec b w) as (A1 & A2 & _ & A4).
    set (w1 := set_bricks (remove_at_indexOf b (bricks (_cleanup b w)))
                 (_cleanup b w)).
    destruct (IH w1) as (B1 & B2 & B3 & B4).
    assert (Hstore : forall r,
              netId (brick_store w1 r) = netId (brick_store w r)
              /\ kept (brick_store w1 r) = kept (brick_store w r)).
    { intros r. apply cleanup_durable. }
    split_and!.
    + rewrite B1. subst w1. cbn. by rewrite A1.
    + by rewrite B2.
    + intros r. destruct (B3 r) as [-> ->]. apply Hstore.
    + intros h. rewrite B4. subst w1. cbn [intervals set_bricks].
      rewrite A4. split.
      * intros ([Hh Hb] & Hrest). split; [done|].
        intros b' Hb'. apply elem_of_cons in Hb' as [->|Hb']; [done|].
        specialize (Hrest b' Hb').
        by rewrite <- (kept_timers _ _ (proj2 (Hstore b'))).
      * intros (Hh & Hall). split_and!; [done| apply Hall; set_solver |].
        intros b' Hb'.
        rewrite (kept_timers _ _ (proj2 (Hstore b'))).
        apply Hall. set_solver.
Qed.

Lemma game_deleteBricks_own_fuel (fuel : nat) :
  forall i w n,
    (length (bricks w) - i <= fuel)%nat ->
    Game.deleteBricks_own (fuel + n) i w = Game.deleteBricks_own fuel i w.
Proof.
  induction fuel as [|fuel IH]; intros i w n Hlen.
  - cbn. destruct n as [|n]; cbn; [done|].
    rewrite lookup_ge_None_2 by lia. done.
  - cbn. destruct (bricks w !! i) as [brick|] eqn:Hi; [|done].
    apply IH. cbn.
    destruct (cleanup_spec brick w) as (A1 & _). rewrite A1.
    pose proof (length_remove_at_indexOf_in brick (bricks w)
                  (list_elem_of_lookup_2 _ _ _ Hi)).
    apply lookup_lt_Some in Hi. lia.
Qed.

Lemma game_deleteBricks_own_spec (l : list ref) :
  forall w kept_bricks fuel,
    bricks w = (kept_bricks ++ l)%list ->
    NoDup (kept_bricks ++ l) -> (length l <= fuel)%nat ->
    let w' := Game.deleteBricks_own fuel (length kept_bricks) w in
    bricks w' = (kept_bricks ++ at_odd l)%list
    /\ player_store w' = player_store w
    /\ (forall r,
          netId (brick_store w' r) = netId (brick_store w r)
          /\ kept (brick_store w' r) = kept (brick_store w r))
    /\ (forall h,
          h ∈ intervals w'
          <-> h ∈ intervals w
              /\ forall b, b ∈ at_even l -> h ∉ timers (brick_store w b)).
Proof.
  induction l as [l IH] using (induction_ltof1 _ (@length ref)).
  unfold ltof in IH. intros w kb fuel Hw Hnd Hfuel. cbv zeta.
  assert (forall fuel, Game.deleteBricks_own fuel (length kb + length l) 
             w = w) as Hend.
  { intros [|f]; cbn; [done|].
    rewrite Hw, lookup_ge_None_2; [done|]. rewrite length_app. lia. }
  destruct l as [|a [|b l]].
  - cbn [at_odd at_even]. rewrite app_nil_r.
    specialize (Hend fuel). cbn in Hend. rewrite Nat.add_0_r in Hend.
    rewrite Hend. rewrite app_nil_r in Hw.
    split_and!; try done. set_solver.
  - destruct fuel as [|fuel]; [cbn in Hfuel; lia|].
    cbn [Game.deleteBricks_own].
    rewrite Hw, list_lookup_middle by done.
    destruct (cleanup_spec a w) as (A1 & A2 & _ & A4).
    pose proof (fun r => cleanup_durable a r w) as Hstore.
    rewrite A1, Hw.
    pose proof Hnd as Hnd'. apply NoDup_app in Hnd' as (_ & Hdisj & _).
    rewrite remove_at_indexOf_middle by set_solver.
    rewrite app_nil_r. cbn [at_odd at_even]. rewrite app_nil_r.
    set (w1 := set_bricks kb (_cleanup a w)).
    assert (Game.deleteBricks_own fuel (S (length kb)) w1 = w1) as ->.
    { destruct fuel; cbn; [done|]. by rewrite lookup_ge_None_2 by lia. }
    subst w1. cbn. rewrite A2. split_and!; try done.
    intros h. rewrite A4. set_solver.
  - destruct fuel as [|fuel]; [cbn in Hfuel; lia|].
    cbn [Game.deleteBricks_own].
    rewrite Hw, list_lookup_middle by done.
    destruct (cleanup_spec a w) as (A1 & A2 & _ & A4).
    pose proof (fun r => cleanup_durable a r w) as Hstore.
    rewrite A1, Hw.
    pose proof Hnd as Hnd'. apply NoDup_app in Hnd' as (_ & Hdisj & _).
    rewrite remove_at_indexOf_middle by set_solver.
    set (w1 := set_bricks (kb ++ b :: l) (_cleanup a w)).
    replace (S (length kb)) with (length (kb ++ [b]))
      by (rewrite length_app; cbn; lia).
    assert (NoDup ((kb ++ [b]) ++ l)) as Hnd1.
    { rewrite <- app_assoc. cbn.
      apply NoDup_app in Hnd as (H1 & H2 & H3).
      apply NoDup_cons in H3 as [H3 H4].
      apply NoDup_app. split_and!; [done| set_solver | done]. }
    destruct (IH l ltac:(cbn; lia) w1 (kb ++ [b])%list fuel) as (B1 & B2 & B3 & B4).
    { subst w1. cbn. by rewrite <- app_assoc. }
    { done. }
    { cbn in Hfuel. lia. }
    cbn [at_odd at_even].
    split_and!.
    + rewrite B1. by rewrite <- app_assoc.
    + rewrite B2. subst w1. cbn. done.
    + intros r. destruct (B3 r) as [-> ->]. subst w1. cbn. apply Hstore.
    + intros h. rewrite B4. subst w1. cbn [intervals set_bricks brick_store].
      rewrite A4. split.
      * intros ([Hh Hb] & Hrest). split; [done|].
        intros b' Hb'. apply elem_of_cons in Hb' as [->|Hb']; [done|].
        specialize (Hrest b' Hb').
        by rewrite <- (kept_timers _ _ (proj2 (Hstore b'))).
      * intros (Hh & Hall). split_and!; [done| apply Hall; set_solver |].
        intros b' Hb'.
        rewrite (kept_timers _ _ (proj2 (Hstore b'))).
        apply Hall. set_solver.
Qed.

(** X12.  [Game.deleteBricks(bricks)] on a world whose [bricks] holds
    no brick twice.  Called with an array of its own, it takes exactly
    the given bricks out of [world.bricks] (order kept), broadcasts a
    packet that names them, and clears their timers and no others.
    Called with [world.bricks] itself, the packet, built before the
    loop, names every brick, but the loop runs over the array it takes
    bricks out of and skips every other brick: the bricks at the
    positions 1, 3, 5, ... stay in [world.bricks] and keep their timers.
    In both cases no brick is marked destroyed and no netId is cleared,
    so that [destroy()] on such a brick still resolves afterwards. *)
Theorem deleteBricks_removes (w : Brick.world) :
  NoDup (Brick.bricks w) ->
  (forall bs,
     let w' := fst (Game.deleteBricks (Another bs) w) in
     Brick.bricks w' = filter (fun b => b ∉ bs) (Brick.bricks w)
     /\ snd (Game.deleteBricks (Another bs) w)
        = [Game.DeleteBricksPacket bs Broadcast]
     /\ (forall h,
           h ∈ Brick.intervals w'
           <-> h ∈ Brick.intervals w
               /\ forall b, b ∈ bs ->
                    h ∉ Brick.timers (Brick.brick_store w b)))
  /\ (let w' := fst (Game.deleteBricks Itself w) in
      Brick.bricks w' = at_odd (Brick.bricks w)
      /\ snd (Game.deleteBricks Itself w)
         = [Game.DeleteBricksPacket (Brick.bricks w) Broadcast]
      /\ (forall h,
            h ∈ Brick.intervals w'
            <-> h ∈ Brick.intervals w
                /\ forall b, b ∈ at_even (Brick.bricks w) ->
                     h ∉ Brick.timers (Brick.brick_store w b))
      /\ (forall n,
            Game.deleteBricks_own (length (Brick.bricks w) + n) 0 w = w'))
  /\ (forall bricks r,
        let w' := fst (Game.deleteBricks bricks w) in
        Brick.destroyed (Brick.brick_store w' r)
        = Brick.destroyed (Brick.brick_store w r)
        /\ Brick.netId (Brick.brick_store w' r)
           = Brick.netId (Brick.brick_store w r)
        /\ (Brick.destroyed (Brick.brick_store w r) = false ->
            exists w'', Brick.destroy r w' = JS.Resolved w'')).
Proof.
  intros Hnd.
  pose proof (game_deleteBricks_own_spec (Brick.bricks w) w []
                (length (Brick.bricks w)) eq_refl Hnd (le_n _))
    as (O1 & O2 & O3 & O4).
  cbn [length app] in O1, O2, O3, O4.
  split_and!.
  - intros bs. cbv zeta.
    destruct (deleteBricks_spec bs w) as (A1 & A2 & A3 & A4).
    split_and!; try done. rewrite A1. by apply remove_all_filter.
  - cbv zeta. cbn [Game.deleteBricks fst snd]. split_and!; try done.
    intros n. apply game_deleteBricks_own_fuel. lia.
  - intros bricks r. cbv zeta.
    assert (Brick.netId (Brick.brick_store (fst (Game.deleteBricks bricks w)) r)
            = Brick.netId (Brick.brick_store w r)
            /\ Brick.kept (Brick.brick_store (fst (Game.deleteBricks bricks w)) r)
               = Brick.kept (Brick.brick_store w r)) as [Hid Hk].
    { destruct bricks as [|bs]; [apply O3|].
      destruct (deleteBricks_spec bs w) as (_ & _ & A3 & _). apply A3. }
    unfold Brick.kept in Hk. injection Hk as _ Hflag _ _.
    split_and!; try done.
    intros Hr. unfold Brick.destroy. rewrite Hflag, Hr. by eexists.
Qed.

Lemma cleanup_all_spec (bs : list ref) :
  forall w,
    bricks (fold_left (fun w b => _cleanup b w) bs w) = bricks w
    /\ (forall r,
          netId (brick_store (fold_left (fun w b => _cleanup b w) bs w) r)
          = netId (brick_store w r)
          /\ kept (brick_store (fold_left (fun w b => _cleanup b w) bs w) r)
             = kept (brick_store w r))
    /\ (forall h,
          h ∈ intervals (fold_left (fun w b => _cleanup b w) bs w)
          <-> h ∈ intervals w
              /\ forall b, b ∈ bs -> h ∉ timers (brick_store w b)).
Proof.
  induction bs as [|b bs IH]; intros w; cbn [fold_left].
  - split_and!; try done. set_solver.
  - destruct (cleanup_spec b w) as (A1 & A2 & _ & A4).
    destruct (IH (_cleanup b w)) as (B1 & B3 & B4).
    pose proof (cleanup_durable b) as Hstore.
    split_and!.
    + by rewrite B1.
    + intros r. destruct (B3 r) as [-> ->]. apply Hstore.
    + intros h. rewrite B4, A4. split.
      * intros ([Hh Hb] & Hrest). split; [done|].
        intros b' Hb'. apply elem_of_cons in Hb' as [->|Hb']; [done|].
        specialize (Hrest b' Hb').
        by rewrite <- (kept_timers _ _ (proj2 (Hstore b' w))).
      * intros (Hh & Hall). split_and!; [done| apply Hall; set_solver |].
        intros b' Hb'.
        rewrite (kept_timers _ _ (proj2 (Hstore b' w))).
        apply Hall. set_solver.
Qed.

(** X13.  [Game.clearMap()] empties [Game.world.bricks] and
    broadcasts one ClearMap packet; the intervals left are those that were
    set and are no timer of a brick of the world; the bricks themselves are
    not marked destroyed and keep their netId. *)
Theorem clearMap_clears (w : world) :
  bricks (fst (Game.clearMap w)) = []
  /\ snd (Game.clearMap w) = [Game.ClearMapPacket Broadcast]
  /\ (forall h,
        h ∈ intervals (fst (Game.clearMap w))
        <-> h ∈ intervals w
            /\ forall b, b ∈ bricks w -> h ∉ timers (brick_store w b))
  /\ (forall r,
        destroyed (brick_store (fst (Game.clearMap w)) r)
        = destroyed (brick_store w r)
        /\ netId (brick_store (fst (Game.clearMap w)) r)
           = netId (brick_store w r)).
Proof.
  destruct (cleanup_all_spec (bricks w) w) as (A1 & A3 & A4).
  unfold Game.clearMap. cbn. split_and!; try done.
  intros r. destruct (A3 r) as [Hid Hk]. unfold kept in Hk.
  split; [by simplify_eq | done].
Qed.

(** X14.  [Game.newBrick] does not look for duplicates.  After a
    global brick that is not destroyed was given to [newBrick] twice,
    [destroy()] resolves and takes one entry out, so that the brick, now
    destroyed and without netId, is still in [Game.world.bricks]. *)
Theorem newBrick_twice_then_destroy (b : ref) (w : world) :
  destroyed (brick_store w b) = false ->
  socket (brick_store w b) = None ->
  exists w',
    destroy b (fst (Game.newBrick b (fst (Game.newBrick b w))))
    = JS.Resolved w'
    /\ b ∈ bricks w'
    /\ destroyed (brick_store w' b) = true
    /\ netId (brick_store w' b) = None.
Proof.
  intros Hlive Hsock.
  set (w2 := fst (Game.newBrick b (fst (Game.newBrick b w)))).
  assert (Hb : bricks w2 = (bricks w ++ [b; b])%list).
  { subst w2. cbn. by rewrite <- app_assoc. }
  assert (Hs : brick_store w2 = brick_store w) by done.
  destruct (destroy b w2) as [w'|reason] eqn:Hdestroy.
  2: { unfold destroy in Hdestroy. by rewrite Hs, Hlive in Hdestroy. }
  destruct (destroy_store _ _ _ Hdestroy) as (Hid & _ & Hdead).
  exists w'. split_and!; try done.
  unfold destroy in Hdestroy. rewrite Hs, Hlive in Hdestroy.
  destruct (cleanup_spec b w2) as (A1 & _ & A3 & _).
  assert (Hsock' : socket (brick_store (_cleanup b w2) b) = None).
  { unfold kept in A3. rewrite Hs in A3. simplify_eq. congruence. }
  rewrite Hsock' in Hdestroy. injection Hdestroy as <-.
  change (b ∈ remove_at_indexOf b (bricks (_cleanup b w2))).
  rewrite A1, Hb. apply remove_at_indexOf_twice.
Qed.
End GameBricks.

Section PlayerLeft.

Lemma splice1_indexOf `{EqDecision A} (x : A) (l : list A) :
  Game.splice1 (Game.js_indexOf x l) l
  = if bool_decide (x ∈ l) then remove_at_indexOf x l else removelast l.
Proof.
  unfold Game.splice1, Game.js_indexOf, remove_at_indexOf, indexOf.
  destruct (list_find (fun y => y = x) l) as [[i y]|] eqn:Hfind; cbn.
  - apply list_find_Some in Hfind as (Hi & -> & _).
    rewrite bool_decide_eq_true_2 by by eapply list_elem_of_lookup_2.
    apply lookup_lt_Some in Hi.
    replace (Z.of_nat i <? 0) with false by lia.
    f_equal. lia.
  - apply list_find_None in Hfind. rewrite Forall_forall in Hfind.
    rewrite bool_decide_eq_false_2 by (intros Hin; by apply (Hfind x)).
    rewrite <- delete_last. f_equal. lia.
Qed.

Lemma clear_steps_players (steps : list timer) :
  forall w,
    Brick.players (Brick.js_clearIntervals steps w) = Brick.players w.
Proof.
  unfold Brick.js_clearIntervals.
  induction steps as [|loop steps IH]; intros w; cbn [fold_left]; [done|].
  by rewrite IH.
Qed.

(** X15.  [Game._playerLeft(p)] does nothing for a player that is not
    authenticated.  For one that is: when [p] is in [Game.players] its
    first entry is taken out, and when it is not (indexOf gives -1) the
    last player of the list is taken out instead; [p] is marked destroyed,
    the intervals left are those that are not intervals of [p]; the first
    effect is the "playerLeave" event and the last one the RemovePlayer
    packet with the netId of [p], broadcast to the others. *)
Theorem playerLeft_spec (p : ref) (g : Game.t) :
  (Game.authenticated g p = false -> Game._playerLeft p g = (g, []))
  /\ (Game.authenticated g p = true ->
      Brick.players (Game.world (fst (Game._playerLeft p g)))
      = (if bool_decide (p ∈ Brick.players (Game.world g))
         then remove_at_indexOf p (Brick.players (Game.world g))
         else removelast (Brick.players (Game.world g)))
      /\ Player.destroyed
           (Brick.player_store (Game.world (fst (Game._playerLeft p g))) p)
         = true
      /\ (forall h,
            h ∈ Brick.intervals (Game.world (fst (Game._playerLeft p g)))
            <-> h ∈ Brick.intervals (Game.world g)
                /\ h ∉ Player._steps (Brick.player_store (Game.world g) p))
      /\ head (snd (Game._playerLeft p g)) = Some (Game.Emit "playerLeave" p)
      /\ last (snd (Game._playerLeft p g))
         = Some (Game.RemovePlayerPacket
                   (Player.netId (Brick.player_store (Game.world g) p))
                   BroadcastExceptSelf)).
Proof.
  unfold Game._playerLeft. split; intros ->; [done|].
  unfold Game._left. cbv zeta. cbn [fst snd Game.world Game.set_world].
  match goal with
  | |- context [Game.update_player p ?f ?w0] =>
      set (w1 := Game.update_player p f w0)
  end.
  assert (Hp : Brick.player_store w1 p
               = Player.set_destroyed true
                   (Brick.player_store (Game.world g) p)).
  { subst w1. unfold Game.update_player. cbn. by rewrite fn_lookup_insert. }
  rewrite Hp. cbn [Player._steps Player.set_destroyed].
  destruct (clear_steps
              (Player._steps (Brick.player_store (Game.world g) p)) w1)
    as (_ & C2 & _ & C4).
  rewrite C2, Hp, clear_steps_players. cbn [Player.netId Player.destroyed
    Player.set_destroyed].
  split_and!; try done.
  - apply splice1_indexOf.
  - by rewrite app_comm_cons, last_snoc.
Qed.
End PlayerLeft.

(** ** The calls that describe sound emitters *)

Section Sounds.
Import PacketBuilder SendSound.

Lemma addSoundProperties_eq (resolves : JS.value -> bool)
    (packet : list field) (s : SoundEmitter.t) :
  addSoundProperties resolves packet s
  = if resolves (JS.Num (SoundEmitter.sound s))
    then Some (packet ++ calls s)%list else None.
Proof.
  unfold addSoundProperties, writeAsset, calls, attributes, payload,
    write_attribute. cbv zeta.
  destruct (resolves (JS.Num (SoundEmitter.sound s))); [|done].
  destruct (JS.neq (SoundEmitter.volume s) 1),
    (JS.neq (SoundEmitter.pitch s) 1), (SoundEmitter.loop s),
    (JS.neq (SoundEmitter.range s) 10), (SoundEmitter.global s);
    cbv [String.append]; cbn;
    by rewrite <- ?app_assoc.
Qed.

Lemma attributes_flags (s1 s2 : SoundEmitter.t) :
  attributes s1 = attributes s2 -> flags s1 = flags s2.
Proof.
  unfold attributes, flags. cbv zeta.
  destruct (JS.neq (SoundEmitter.volume s1) 1),
    (JS.neq (SoundEmitter.pitch s1) 1), (SoundEmitter.loop s1),
    (JS.neq (SoundEmitter.range s1) 10), (SoundEmitter.global s1),
    (JS.neq (SoundEmitter.volume s2) 1),
    (JS.neq (SoundEmitter.pitch s2) 1), (SoundEmitter.loop s2),
    (JS.neq (SoundEmitter.range s2) 10), (SoundEmitter.global s2);
    vm_compute; congruence.
Qed.

Lemma neq_one (a b : float) :
  JS.neq a 1 = false -> JS.neq b 1 = false -> a = b.
Proof.
  unfold JS.neq. rewrite !negb_false_iff.
  intros Ha%eqb_one Hb%eqb_one. congruence.
Qed.

Lemma neq_ten (a b : float) :
  JS.neq a 10 = false -> JS.neq b 10 = false -> a = b.
Proof.
  unfold JS.neq. rewrite !negb_false_iff.
  intros Ha%eqb_ten Hb%eqb_ten. congruence.
Qed.

Lemma sound_calls_inj (s1 s2 : SoundEmitter.t) (rest1 rest2 : list field) :
  (calls s1 ++ rest1 = calls s2 ++ rest2)%list ->
  described s1 = described s2 /\ rest1 = rest2.
Proof.
  unfold calls. rewrite <- !app_assoc. cbn [app].
  intros [= Hid Hsound Hpos Hattr Hrest].
  apply attributes_flags in Hattr. unfold flags in Hattr.
  injection Hattr as Hv Hp Hl Hr Hg.
  unfold described, payload in *. rewrite Hid, Hsound, Hpos, Hl, Hg.
  rewrite <- Hv, <- Hp, <- Hl, <- Hr, <- Hg in Hrest.
  destruct (JS.neq (SoundEmitter.volume s1) 1) eqn:Ev,
    (JS.neq (SoundEmitter.pitch s1) 1) eqn:Ep,
    (SoundEmitter.loop s1) eqn:El,
    (JS.neq (SoundEmitter.range s1) 10) eqn:Er,
    (SoundEmitter.global s1) eqn:Eg;
    cbn [app] in Hrest; simplify_eq;
    (assert (SoundEmitter.volume s1 = SoundEmitter.volume s2) as ->
       by first [assumption | apply neq_one; congruence]);
    (assert (SoundEmitter.pitch s1 = SoundEmitter.pitch s2) as ->
       by first [assumption | apply neq_one; congruence]);
    (assert (SoundEmitter.range s1 = SoundEmitter.range s2) as ->
       by first [assumption | apply neq_ten; congruence]);
    done.
Qed.

(** The loop of the script: it comes to its end when every asset is
    resolved, and is left at the first one that is not. *)
Lemma add_all_spec (resolves : JS.value -> bool)
    (store : ref -> SoundEmitter.t) (sounds : list ref) :
  forall packet,
    add_all resolves store sounds packet
    = if forallb (fun sound =>
                    resolves (JS.Num (SoundEmitter.sound (store sound))))
           sounds
      then Some (packet
                 ++ concat (map (fun sound => calls (store sound)) sounds))%list
      else None.
Proof.
  induction sounds as [|sound sounds IH]; intros packet; cbn.
  - by rewrite app_nil_r.
  - rewrite addSoundProperties_eq.
    destruct (resolves (JS.Num (SoundEmitter.sound (store sound)))); [|done].
    cbn. rewrite IH.
    by destruct (forallb _ sounds); rewrite <- ?app_assoc.
Qed.

Lemma loadSounds_spec (resolves : JS.value -> bool)
    (store : ref -> SoundEmitter.t) (sounds : list ref) :
  loadSounds resolves store sounds
  = if (length sounds =? 0)%nat then Nothing
    else if forallb (fun sound =>
                       resolves (JS.Num (SoundEmitter.sound (store sound))))
              sounds
    then Packet {| packetType := "SendSoundEmitters";
                   compression := true;
                   fields :=
                     WUint32 (Some (Z.of_nat (length sounds)))
                     :: concat (map (fun sound => calls (store sound))
                                  sounds) |}
    else AssetFailed.
Proof.
  unfold loadSounds. rewrite add_all_spec.
  destruct (length sounds =? 0)%nat; [done|].
  by destruct (forallb _ sounds).
Qed.

Lemma sounds_inj (store1 store2 : ref -> SoundEmitter.t) (sounds1 : list ref) :
  forall sounds2,
    length sounds1 = length sounds2 ->
    concat (map (fun sound => calls (store1 sound)) sounds1)
    = concat (map (fun sound => calls (store2 sound)) sounds2) ->
    map (fun sound => described (store1 sound)) sounds1
    = map (fun sound => described (store2 sound)) sounds2.
Proof.
  induction sounds1 as [|a sounds1 IH]; intros [|b sounds2] Hlen Heq;
    try done.
  cbn in *. apply sound_calls_inj in Heq as [-> Heq].
  f_equal. apply IH; [lia | done].
Qed.

(** X16.  The calls of [write] and [writeAsset] that the script
    [loadSounds] makes on its packet, with the values it hands over,
    determine the sound emitters.  When the script returns a packet, the
    array is not empty, every asset was resolved, and the calls are one
    with the number of emitters followed by those of each emitter in
    turn; two arrays for which the script makes the same calls have the
    same length and, position by position, emitters with the same netId,
    asset, position, volume, pitch, loop, range and global.  This is a
    property of what is handed to the packet, not of the bytes made of
    it. *)
Theorem loadSounds_unambiguous (resolves1 resolves2 : JS.value -> bool)
    (store1 store2 : ref -> SoundEmitter.t)
    (sounds1 sounds2 : list ref) (packet : PacketBuilder.t) :
  loadSounds resolves1 store1 sounds1 = Packet packet ->
  loadSounds resolves2 store2 sounds2 = Packet packet ->
  map (fun sound => described (store1 sound)) sounds1
  = map (fun sound => described (store2 sound)) sounds2
  /\ sounds1 <> []
  /\ Forall (fun sound =>
               resolves1 (JS.Num (SoundEmitter.sound (store1 sound))) = true)
       sounds1
  /\ packetType packet = "SendSoundEmitters"
  /\ compression packet = true
  /\ fields packet
     = WUint32 (Some (Z.of_nat (length sounds1)))
       :: concat (map (fun sound => calls (store1 sound)) sounds1).
Proof.
  rewrite !loadSounds_spec.
  destruct (length sounds1 =? 0)%nat eqn:E1; [done|].
  destruct (length sounds2 =? 0)%nat; [done|].
  destruct (forallb _ sounds1) eqn:F1; [|done].
  destruct (forallb _ sounds2); [|done].
  intros [= <-] [= Hlen Heq].
  split_and!; try done.
  - apply sounds_inj; [lia | done].
  - by intros ->.
  - apply Forall_forall. intros sound Hin.
    rewrite forallb_forall in F1. apply F1. by apply list_elem_of_In.
Qed.

(** X17.  [Game.loadSounds(sounds)] first appends the sounds to
    [Game.world.sounds], duplicates included, and they stay there
    however the call ends.  For an empty array the script returns
    nothing and the call is rejected with a TypeError.  For an array
    that is not empty the call resolves, with one compressed packet
    broadcast that starts with the number of sounds, exactly when the
    asset of every sound is resolved; when one is not, the call is
    rejected and nothing is sent.  [Game.newSoundEmitter] appends the
    emitter and likewise resolves exactly when its asset is resolved. *)
Theorem loadSounds_rejects_empty (resolves : JS.value -> bool)
    (sounds : list ref) (w : SoundEmitter.world) :
  fst (Game.loadSounds resolves sounds w)
  = SoundEmitter.set_sounds (SoundEmitter.sounds w ++ sounds)%list w
  /\ (sounds = [] ->
      snd (Game.loadSounds resolves sounds w) = Game.TypeError)
  /\ (sounds <> [] ->
      Forall (fun sound =>
                resolves
                  (JS.Num (SoundEmitter.sound (SoundEmitter.sound_store w sound)))
                = true) sounds ->
      exists packet,
        snd (Game.loadSounds resolves sounds w)
        = Game.Sent [Game.SoundsPacket packet Broadcast]
        /\ PacketBuilder.packetType packet = "SendSoundEmitters"
        /\ PacketBuilder.compression packet = true
        /\ PacketBuilder.fields packet
           = PacketBuilder.WUint32 (Some (Z.of_nat (length sounds)))
             :: concat (map (fun sound =>
                               calls (SoundEmitter.sound_store w sound))
                          sounds))
  /\ (forall sound,
        sound ∈ sounds ->
        resolves
          (JS.Num (SoundEmitter.sound (SoundEmitter.sound_store w sound)))
        = false ->
        snd (Game.loadSounds resolves sounds w) = Game.AssetRejected)
  /\ (forall sound,
        fst (Game.newSoundEmitter resolves sound w)
        = SoundEmitter.set_sounds (SoundEmitter.sounds w ++ [sound])%list w
        /\ snd (Game.newSoundEmitter resolves sound w)
           = if resolves
                  (JS.Num
                     (SoundEmitter.sound (SoundEmitter.sound_store w sound)))
             then Game.Sent
                    [Game.SoundsPacket
                       {| packetType := "SendSoundEmitters";
                          compression := true;
                          fields :=
                            WUint32 (Some 1)
                            :: calls (SoundEmitter.sound_store w sound) |}
                       Broadcast]
             else Game.AssetRejected).
Proof.
  unfold Game.loadSounds, Game.newSoundEmitter. cbv zeta.
  cbn [fst snd SoundEmitter.set_sounds SoundEmitter.sound_store].
  rewrite !loadSounds_spec.
  split_and!.
  - done.
  - by intros ->.
  - intros Hne Hall.
    destruct sounds as [|sound sounds]; [done|]. cbn [length Nat.eqb].
    assert (forallb (fun sound =>
              resolves
                (JS.Num (SoundEmitter.sound (SoundEmitter.sound_store w sound))))
              (sound :: sounds) = true) as ->.
    { apply forallb_forall. intros x Hx.
      rewrite Forall_forall in Hall. apply Hall. by apply list_elem_of_In. }
    by eexists.
  - intros sound Hin Hno.
    destruct sounds as [|sound' sounds]; [by apply elem_of_nil in Hin|].
    cbn [length Nat.eqb].
    destruct (forallb _ (sound' :: sounds)) eqn:F; [|done].
    rewrite forallb_forall in F.
    rewrite F in Hno by (by apply list_elem_of_In). done.
  - intros sound. split; [done|].
    rewrite loadSounds_spec.
    cbn [length Nat.eqb forallb map concat].
    rewrite andb_true_r, app_nil_r.
    by destruct (resolves _).
Qed.
End Sounds.

(** ** More on the map loader *)

Section LoaderInvariants.
Import LoadBrk.

Context {channel : Type}.
Variable Number : string -> float.
Variable js_rem : float -> float -> float.
Variable convertRGB :
  option string -> option string -> option string -> channel * channel * channel.
Variable rgbToHex : channel -> channel -> channel -> string.

Lemma on_current_spec (f : Brick.t -> Brick.t) (s : state) :
  well_formed s ->
  match on_current f s with
  | Continue s' => layout s' = layout s /\ bricks s <> []
  | Exit _ _ => False
  | Throw => bricks s = []
  end.
Proof.
  intros (Hcur & _). unfold on_current. rewrite Hcur.
  destruct (bricks s) as [|b bs] eqn:Hb; cbn [length]; [done|].
  rewrite (proj2 (Z.ltb_ge _ _)) by lia.
  replace (Z.to_nat (Z.of_nat (S (length bs)) - 1)) with (length bs) by lia.
  destruct ((b :: bs) !! length bs) as [b'|] eqn:Hlook.
  - unfold layout. cbn. by rewrite length_insert, Hb.
  - apply lookup_ge_None in Hlook. cbn in Hlook. lia.
Qed.

Lemma layout_well_formed (s s' : state) :
  layout s' = layout s -> well_formed s -> well_formed s'.
Proof.
  unfold layout, well_formed. intros [= _ -> -> -> -> ->]. tauto.
Qed.

Local Ltac current f s H :=
  let Hc := fresh "Hc" in
  pose proof (on_current_spec f s H) as Hc;
  destruct (on_current f s) as [?s| |] eqn:?; [|done|].

Lemma current_branch (f : Brick.t -> Brick.t) (ATTRIBUTE : string)
    (s : state) :
  well_formed s -> ATTRIBUTE ∈ needs_brick ->
  attribute_result ATTRIBUTE s (on_current f s).
Proof.
  intros Hwf Hin. current f s Hwf; cbn; [|done].
  destruct Hc as [Hl Hne]. pose proof (layout_well_formed _ _ Hl Hwf).
  unfold layout in Hl. simplify_eq. by split_and!.
Qed.

Lemma attribute_line_spec (ATTRIBUTE VALUE : string) (s : state) (r : step) :
  well_formed s ->
  attribute_line Number js_rem convertRGB rgbToHex ATTRIBUTE VALUE s = Some r ->
  attribute_result ATTRIBUTE s r.
Proof.
  intros Hwf. unfold attribute_line.
  repeat match goal with
         | |- context [String.eqb ATTRIBUTE ?a] =>
             destruct (String.eqb_spec ATTRIBUTE a) as [->|?]
         end; cbv zeta.
  - (* NAME *)
    intros [= <-]. apply current_branch; [done|]. unfold needs_brick. set_solver.
  - (* ROT *)
    destruct (_ =? 1)%nat; intros [= <-];
      (apply current_branch; [done|]; unfold needs_brick; set_solver).
  - (* SHAPE *)
    pose proof (current_branch (Brick.set_shape (Some VALUE)) "SHAPE" s Hwf) as Hc.
    destruct (on_current (Brick.set_shape (Some VALUE)) s) as [s1| |] eqn:Hs1;
      cbn in Hc.
    + destruct Hc as (Hwf1 & Hl1 & Hb1 & Hne); [unfold needs_brick; set_solver|].
      destruct (String.eqb VALUE "spawnpoint"); intros [= <-]; cbn;
        [|by split_and!].
      destruct Hwf1 as (Hc1 & Hsp & Hcon). unfold well_formed. cbn.
      split_and!; try done.
      apply Forall_app. split; [done|]. apply Forall_singleton.
      assert (bricks s1 <> []) as Hne1.
      { intros Hnil. rewrite Hnil in Hb1. destruct (bricks s); [|done].
        apply Hne; [unfold needs_brick; set_solver|done]. }
      destruct (bricks s1); [done|]. cbn [length] in *. lia.
    + intros [= <-]. apply Hc. unfold needs_brick; set_solver.
    + intros [= <-]. apply Hc. unfold needs_brick; set_solver.
  - (* MODEL *)
    intros [= <-]. apply current_branch; [done|]. unfold needs_brick. set_solver.
  - (* NOCOLLISION *)
    intros [= <-]. apply current_branch; [done|]. unfold needs_brick. set_solver.
  - (* COLOR *)
    destruct (length (teams s)); intros [= <-]; cbn;
      (split_and!; [done..|]); unfold needs_brick; set_solver.
  - (* LIGHT *)
    assert (Hin : "LIGHT" ∈ needs_brick) by (unfold needs_brick; set_solver).
    pose proof (current_branch (Brick.set_lightEnabled true) "LIGHT" s Hwf Hin)
      as Hc1.
    destruct (on_current (Brick.set_lightEnabled true) s) as [s1| |];
      cbn in Hc1; [|by intros [= <-]..].
    destruct Hc1 as (Hwf1 & Ht1 & Hb1 & Hne).
    match goal with
    | |- context [on_current ?f s1] =>
        pose proof (current_branch f "LIGHT" s1 Hwf1 Hin) as Hc2;
        destruct (on_current f s1) as [s2| |]; cbn in Hc2
    end.
    2: by intros [= <-].
    2: { destruct Hc2 as [Hnil _]. rewrite Hnil in Hb1.
         destruct (bricks s); [by destruct (Hne Hin)|done]. }
    destruct Hc2 as (Hwf2 & Ht2 & Hb2 & _).
    match goal with
    | |- context [on_current ?f s2] =>
        pose proof (current_branch f "LIGHT" s2 Hwf2 Hin) as Hc3;
        destruct (on_current f s2) as [s3| |]; cbn in Hc3
    end; intros [= <-]; cbn.
    + destruct Hc3 as (Hwf3 & Ht3 & Hb3 & _).
      split_and!; [done|congruence|congruence|done].
    + done.
    + destruct Hc3 as [Hnil _]. rewrite Hnil in Hb2. rewrite <- Hb2 in Hb1.
      destruct (bricks s); [by destruct (Hne Hin)|done].
  - (* SCRIPT *)
    destruct (scriptWarning s) eqn:Hw; intros [= <-]; cbn.
    + split_and!; try done. unfold needs_brick; set_solver.
    + destruct Hwf as (A & B & C). unfold well_formed. cbn.
      rewrite C, Hw. split_and!; try done. unfold needs_brick; set_solver.
  - done.
Qed.

Lemma definition_line_spec (DATA : list string) (VALUE : string) (s : state) :
  well_formed s ->
  well_formed (definition_line Number convertRGB rgbToHex DATA VALUE s)
  /\ totalLines (definition_line Number convertRGB rgbToHex DATA VALUE s)
     = totalLines s
  /\ (length (bricks s)
      <= length (bricks (definition_line Number convertRGB rgbToHex DATA VALUE s)))%nat.
Proof.
  intros (Hc & Hsp & Hcon). unfold definition_line, well_formed. cbv zeta.
  destruct (length DATA =? 10)%nat;
    repeat match goal with
           | |- context [if negb ?a && ?b then _ else _] =>
               destruct (negb a && b)
           end;
    cbn; rewrite ?length_app; cbn; (split_and!; try done; try lia);
    eapply Forall_impl; try exact Hsp; cbn; intros; lia.
Qed.

Lemma environment_line_spec (line : string) (s : state) (r : step) :
  environment_line Number convertRGB rgbToHex line s = Some r ->
  match r with
  | Continue s' =>
      layout s' = layout s /\ tools s' = tools s /\ teams s' = teams s
      /\ bricks s' = bricks s /\ statics s' = statics s
  | Exit code s' => totalLines s = 1%nat /\ code = 0 /\ line <> HEADER
  | Throw => False
  end.
Proof.
  unfold environment_line. cbv zeta.
  destruct (totalLines s) as [|[|[|[|[|[|[|[|n]]]]]]]] eqn:Ht; try done;
    try (by intros [= <-]).
  destruct (String.eqb_spec line HEADER); cbn; by intros [= <-].
Qed.

Lemma attribute_line_none (ATTRIBUTE VALUE : string) (s : state) :
  attribute_line Number js_rem convertRGB rgbToHex ATTRIBUTE VALUE s = None ->
  ATTRIBUTE ∉ needs_brick.
Proof.
  unfold attribute_line, needs_brick.
  repeat match goal with
         | |- context [String.eqb ATTRIBUTE ?a] =>
             destruct (String.eqb_spec ATTRIBUTE a) as [->|?]
         end; cbv zeta;
    repeat match goal with
           | |- context [match ?x with _ => _ end] => destruct x
           end; try done.
  intros _. set_solver.
Qed.

Lemma set_totalLines_well_formed (n : nat) (s : state) :
  well_formed s -> well_formed (set_totalLines n s).
Proof. done. Qed.

Lemma line_step_spec (line : string) (s : state) :
  well_formed s ->
  match line_step Number js_rem convertRGB rgbToHex line s with
  | Continue s' =>
      well_formed s' /\ totalLines s' = S (totalLines s)
      /\ (length (bricks s) <= length (bricks s'))%nat
      /\ (totalLines s <> 0%nat -> ~ environment_position (totalLines s) ->
          keyword line ∈ needs_brick -> bricks s <> [])
  | Exit code s' =>
      totalLines s = 0%nat /\ code = 0 /\ trim line <> HEADER
  | Throw =>
      bricks s = [] /\ keyword line ∈ needs_brick
      /\ totalLines s <> 0%nat /\ ~ environment_position (totalLines s)
  end.
Proof.
  intros Hwf. unfold line_step. cbv zeta.
  pose proof (set_totalLines_well_formed (S (totalLines s)) s Hwf) as Hwf1.
  set (s1 := set_totalLines (S (totalLines s)) s) in *.
  pose proof (environment_line_spec (trim line) s1) as Henv.
  destruct (environment_line _ _ _ _ s1) as [r|] eqn:Hr.
  - specialize (Henv r eq_refl).
    destruct r as [s'|code s'|]; [| |done].
    + destruct Henv as (Hl & _ & _ & Hb & _).
      pose proof (layout_well_formed _ _ Hl Hwf1).
      unfold layout in Hl. injection Hl as Ht _ _ _ _ _. rewrite Hb, Ht.
      split_and!; try done.
      intros H0 Hp _. exfalso.
      unfold environment_line, environment_position in *. cbv zeta in Hr.
      cbn [totalLines s1 set_totalLines] in Hr.
      destruct (totalLines s) as [|[|[|[|[|[|[|n]]]]]]]; try done; lia.
    + destruct Henv as (Ht & -> & Hh). cbn in Ht. split_and!; [lia|done..].
  - clear Henv.
    assert (Hpos : totalLines s <> 0%nat
                   /\ ~ environment_position (totalLines s)).
    { unfold environment_line, environment_position in *. cbv zeta in Hr.
      cbn [totalLines s1 set_totalLines] in Hr.
      destruct (totalLines s) as [|[|[|[|[|[|[|n]]]]]]]; try done;
        [by destruct (negb _) in Hr|..]; split; try done; lia. }
    fold (keyword line).
    pose proof (attribute_line_spec (keyword line)
                  (String.concat " " (drop 1 (split SPACE (trim line)))) s1)
      as Hattr.
    destruct (attribute_line _ _ _ _ (keyword line) _ s1) as [r|] eqn:Hattr'.
    + specialize (Hattr r Hwf1 eq_refl).
      destruct r as [s'|code s'|]; cbn in Hattr; [|done|].
      * destruct Hattr as (H1 & H2 & H3 & H4).
        split_and!; [done | done | by rewrite H3 | auto].
      * destruct Hattr as [H1 H2]. destruct Hpos. by split_and!.
    + destruct (definition_line_spec (split SPACE (trim line))
                  (String.concat " " (drop 1 (split SPACE (trim line)))) s1 Hwf1)
        as (H1 & H2 & H3).
      split_and!; try done.
      intros _ _ Hk. by apply attribute_line_none in Hattr'.
Qed.

Lemma lines_loop_spec (lines : list string) :
  forall s,
    well_formed s ->
    match lines_loop Number js_rem convertRGB rgbToHex lines s with
    | Loaded s' =>
        well_formed s'
        /\ totalLines s' = (totalLines s + length lines)%nat
        /\ (length (bricks s) <= length (bricks s'))%nat
    | ProcessExit code s' =>
        totalLines s = 0%nat /\ code = 0 /\ trim (hd "" lines) <> HEADER
    | TypeError => True
    end.
Proof.
  induction lines as [|line lines IH]; intros s Hwf; cbn [lines_loop].
  - split_and!; [done | cbn; lia | done].
  - pose proof (line_step_spec line s Hwf) as Hstep.
    destruct (line_step _ _ _ _ line s) as [s1|code s1|]; [| |done].
    + destruct Hstep as (Hwf1 & Ht1 & Hb1 & _).
      specialize (IH s1 Hwf1).
      destruct (lines_loop _ _ _ _ lines s1) as [s2|code s2|]; [| |done].
      * destruct IH as (Hwf2 & Ht2 & Hb2).
        split_and!; [done | cbn; lia | lia].
      * destruct IH as (Ht2 & _). lia.
    + done.
Qed.

Lemma lines_loop_total (lines : list string) :
  forall s,
    well_formed s -> bricks s <> [] -> totalLines s <> 0%nat ->
    exists s', lines_loop Number js_rem convertRGB rgbToHex lines s = Loaded s'.
Proof.
  induction lines as [|line lines IH]; intros s Hwf Hne Ht; cbn [lines_loop].
  - by eexists.
  - pose proof (line_step_spec line s Hwf) as Hstep.
    destruct (line_step _ _ _ _ line s) as [s1|code s1|].
    + destruct Hstep as (Hwf1 & Ht1 & Hb1 & _). apply IH; [done| |lia].
      intros Hnil. rewrite Hnil in Hb1. destruct (bricks s); [done|].
      cbn in Hb1. lia.
    + by destruct Hstep as (Ht0 & _).
    + by destruct Hstep as (Hnil & _).
Qed.

Lemma lines_loop_app (lines1 lines2 : list string) :
  forall s,
    lines_loop Number js_rem convertRGB rgbToHex (lines1 ++ lines2) s
    = match lines_loop Number js_rem convertRGB rgbToHex lines1 s with
      | Loaded s1 => lines_loop Number js_rem convertRGB rgbToHex lines2 s1
      | other => other
      end.
Proof.
  induction lines1 as [|line lines1 IH]; intros s; cbn; [done|].
  by destruct (line_step _ _ _ _ line s).
Qed.

Lemma split_app (sep : ascii) (a b : string) :
  split sep (a ++ String sep b) = (split sep a ++ split sep b)%list.
Proof.
  induction a as [|c a IH].
  - change ("" ++ String sep b) with (String sep b). cbn.
    by rewrite Ascii.eqb_refl.
  - change (String c a ++ String sep b) with (String c (a ++ String sep b)).
    cbn [split]. rewrite IH. destruct (Ascii.eqb c sep); [done|].
    destruct (split_first sep a) as (part & parts & ->). done.
Qed.

Lemma loadBrk_Loaded (st : Statics) (game_weather : Weather) (FILE : string)
    (s : state) :
  loadBrk Number js_rem convertRGB rgbToHex st game_weather FILE = Loaded s ->
  exists s0,
    lines_loop Number js_rem convertRGB rgbToHex (split LF FILE) (start st)
    = Loaded s0
    /\ s = set_environment (set_weather game_weather (environment s0)) s0.
Proof.
  unfold loadBrk. cbv zeta.
  destruct (lines_loop _ _ _ _ _ _) as [s0| |]; [|done..].
  intros [= <-]. by eexists.
Qed.

Lemma start_well_formed (st : Statics) : well_formed (start st).
Proof. done. Qed.

Lemma environment_step (line : string) (s : state) :
  environment_position (totalLines s) ->
  exists s',
    line_step Number js_rem convertRGB rgbToHex line s = Continue s'
    /\ bricks s' = bricks s /\ spawns s' = spawns s /\ tools s' = tools s
    /\ teams s' = teams s /\ statics s' = statics s
    /\ currentBrick s' = currentBrick s.
Proof.
  unfold environment_position, line_step, environment_line. cbv zeta.
  cbn [totalLines set_totalLines].
  intros [-> | [-> | [-> | [-> | ->]]]]; eexists; by split_and!.
Qed.

Section Outcomes.
Variable st : Statics.
Variable game_weather : Weather.

Abbreviation load := (loadBrk Number js_rem convertRGB rgbToHex st game_weather).

(** X18.  For every file, whatever [Number], the remainder and the
    color module do.  When [loadBrk] returns map data: the current brick is
    the last of the bricks, every spawn is one of the bricks, the warning
    about scripts was logged once if a SCRIPT line was met and nothing was
    logged otherwise, every line of the file was read, and the weather is
    that of the game.  When it exits the process: the exit code is 0 and
    the first line, trimmed, is not the header. *)
Theorem loadBrk_outcomes (FILE : string) :
  match load FILE with
  | Loaded s =>
      currentBrick s = Z.of_nat (length (bricks s)) - 1
      /\ Forall (fun i => (i < length (bricks s))%nat) (spawns s)
      /\ console s = (if scriptWarning s then [WARNING] else [])
      /\ totalLines s = length (split LF FILE)
      /\ weather (environment s) = Some game_weather
  | ProcessExit code s =>
      code = 0 /\ trim (hd "" (split LF FILE)) <> HEADER
  | TypeError => True
  end.
Proof.
  unfold loadBrk. cbv zeta.
  pose proof (lines_loop_spec (split LF FILE) (start st)
                (start_well_formed st)) as H.
  destruct (lines_loop _ _ _ _ _ _) as [s|code s|]; [| |done].
  - destruct H as ((A & B & C) & D & _). cbn. by split_and!.
  - by destruct H as (_ & -> & H).
Qed.

(** X19.  Once a file with at least one brick loads, it loads
    with anything appended: for every text [rest], the file followed by a
    line feed and [rest] loads too, with at least as many bricks (the loop
    neither throws nor exits after the first brick). *)
Theorem loadBrk_accepts_any_continuation (FILE rest : string) (s : state) :
  load FILE = Loaded s ->
  bricks s <> [] ->
  exists s',
    load (FILE ++ String LF rest) = Loaded s'
    /\ (length (bricks s) <= length (bricks s'))%nat.
Proof.
  intros (s0 & Hs0 & ->)%loadBrk_Loaded Hne. cbn in Hne.
  pose proof (lines_loop_spec (split LF FILE) _ (start_well_formed st)) as H.
  rewrite Hs0 in H. destruct H as (Hwf & Ht & _).
  destruct (split_first LF FILE) as (l & ls & Hsplit).
  rewrite Hsplit in Ht. cbn in Ht.
  destruct (lines_loop_total (split LF rest) s0 Hwf Hne ltac:(lia)) as [s1 Hs1].
  unfold loadBrk. cbv zeta. rewrite split_app, lines_loop_app, Hs0, Hs1.
  eexists. split; [done|]. cbn.
  pose proof (lines_loop_spec (split LF rest) s0 Hwf) as H.
  rewrite Hs1 in H. by destruct H as (_ & _ & H).
Qed.

(** X20.  An attribute of the current brick before any brick is a
    TypeError.  When a file of one line, or of at least seven lines, loads
    without any brick, the same file followed by a line whose keyword is
    NAME, ROT, SHAPE, MODEL, NOCOLLISION or LIGHT makes [loadBrk] throw,
    whatever follows that line. *)
Theorem attribute_before_brick_throws (FILE line rest : string) (s : state) :
  load FILE = Loaded s ->
  bricks s = [] ->
  (length (split LF FILE) = 1 \/ 7 <= length (split LF FILE))%nat ->
  split LF line = [line] ->
  keyword line ∈ needs_brick ->
  load (FILE ++ String LF line) = TypeError
  /\ load (FILE ++ String LF (line ++ String LF rest)) = TypeError.
Proof.
  intros (s0 & Hs0 & ->)%loadBrk_Loaded Hnil Hpos Hline Hkey. cbn in Hnil.
  pose proof (lines_loop_spec (split LF FILE) _ (start_well_formed st)) as H.
  rewrite Hs0 in H. destruct H as (Hwf & Ht & _). cbn in Ht.
  assert (Hstep : line_step Number js_rem convertRGB rgbToHex line s0 = Throw).
  { pose proof (line_step_spec line s0 Hwf) as H.
    destruct (line_step _ _ _ _ line s0) as [s1|code s1|]; [| |done].
    - destruct H as (_ & _ & _ & H). destruct H; try done; [lia|].
      unfold environment_position. lia.
    - destruct H as (H & _). lia. }
  unfold loadBrk. cbv zeta.
  rewrite !split_app, !lines_loop_app, Hs0, Hline. cbn [lines_loop app].
  by rewrite Hstep.
Qed.

(** X21.  Lines 3 to 7 are read by position.  When a file of two to
    six lines loads, the file with one more line loads too, whatever that
    line is, with the same bricks, spawns, tools and teams and the same id
    counters: a brick line or a directive on one of the lines 3 to 7 makes
    no entity. *)
Theorem environment_lines_take_anything (FILE line : string) (s : state) :
  load FILE = Loaded s ->
  (2 <= length (split LF FILE) <= 6)%nat ->
  split LF line = [line] ->
  exists s',
    load (FILE ++ String LF line) = Loaded s'
    /\ bricks s' = bricks s /\ spawns s' = spawns s /\ tools s' = tools s
    /\ teams s' = teams s /\ statics s' = statics s.
Proof.
  intros (s0 & Hs0 & ->)%loadBrk_Loaded Hpos Hline.
  pose proof (lines_loop_spec (split LF FILE) _ (start_well_formed st)) as H.
  rewrite Hs0 in H. destruct H as (Hwf & Ht & _). cbn in Ht.
  destruct (environment_step line s0) as (s1 & Hs1 & A1 & A2 & A3 & A4 & A5 & _).
  { unfold environment_position. lia. }
  unfold loadBrk. cbv zeta.
  rewrite !split_app, !lines_loop_app, Hs0, Hline. cbn [lines_loop].
  rewrite Hs1. eexists. split; [done|]. cbn. by split_and!.
Qed.
End Outcomes.
End LoaderInvariants.

(** ** More on the serializer *)

Section Deserialize.
Import Serialize.

Lemma assign_untouched (prop : string) (v : val) (b b' : Brick.t) :
  assign prop v b = Returns b' -> untouched b' = untouched b.
Proof.
  unfold assign.
  destruct v as [| |c|f|str|l]; try done;
    repeat match goal with
           | |- context [match ?x with _ => _ end] => destruct x
           end; try done; by intros [= <-].
Qed.

Lemma assign_all_untouched (o : object) :
  forall b b', assign_all o b = Returns b' -> untouched b' = untouched b.
Proof.
  induction o as [|[prop v] o IH]; intros b b'; cbn [assign_all].
  - by intros [= <-].
  - destruct (assign prop v b) as [b1| |] eqn:H1; try done.
    intros H2. rewrite (IH _ _ H2). by eapply assign_untouched.
Qed.

Lemma deserialize_each_fresh (data : list object) :
  forall st st' bricks,
    deserialize_each st data = Returns (st', bricks) ->
    length bricks = length data
    /\ brickId st' = Nat.iter (length data) JS.incr (brickId st)
    /\ playerId st' = playerId st
    /\ soundEmitterId st' = soundEmitterId st
    /\ forall i b,
         bricks !! i = Some b ->
         untouched b
         = (Some (Nat.iter (S i) JS.incr (brickId st)), None, false, None,
            [], None, false, ["newListener"; "removeListener"], ∅).
Proof.
  induction data as [|o data IH]; intros st st' bricks; cbn [deserialize_each].
  - intros [= <- <-]. by split_and!.
  - destruct (Brick.constructor st _ _ _) as [st1 newBrick] eqn:Hnew.
    destruct (assign_all o newBrick) as [b1| |] eqn:Hb1; try done.
    destruct (deserialize_each st1 data) as [[st2 bs]| |] eqn:Hrest; try done.
    intros [= <- <-].
    destruct (IH _ _ _ Hrest) as (A1 & A2 & A3 & A4 & A5).
    unfold Brick.constructor in Hnew. injection Hnew as <- <-.
    cbn [length]. split_and!.
    + by rewrite A1.
    + by rewrite Nat.iter_succ_r, A2.
    + by rewrite A3.
    + by rewrite A4.
    + intros [|i] b.
      * intros [= <-]. by rewrite (assign_all_untouched _ _ _ Hb1).
      * intros Hb. rewrite (A5 _ _ Hb). by rewrite !Nat.iter_succ_r.
Qed.

(** X22.  For every list of bricks that the serialized form can hold,
    [deserialize] of the buffer that [serialize] makes of it returns,
    with one brick per brick of the list, and takes one brick id per
    brick: the brick of position [i] has the netId that [i + 1]
    increments of the counter give, whatever the netId of the brick that
    was serialized; and every brick is a new global brick: not
    destroyed, without socket, shape, timers or touching players, with
    the listeners of the constructor only.  (A buffer from elsewhere can
    name any property, and [deserialize] assigns whatever it names.) *)
Theorem deserialize_gives_new_bricks (st : Statics) (bricks : list Brick.t) :
  Forall (fun b => portable b = true) bricks ->
  exists st' bricks',
    deserialize st (serialize bricks) = Returns (st', bricks')
    /\ length bricks' = length bricks
    /\ brickId st' = Nat.iter (length bricks) JS.incr (brickId st)
    /\ playerId st' = playerId st
    /\ soundEmitterId st' = soundEmitterId st
    /\ forall i b,
         bricks' !! i = Some b ->
         Brick.netId b = Some (Nat.iter (S i) JS.incr (brickId st))
         /\ Brick.destroyed b = false
         /\ Brick.socket b = None
         /\ Brick.shape b = None
         /\ Brick.timers b = []
         /\ Brick._playersTouching b = ∅
         /\ Brick._hitMonitorActive b = false
         /\ Brick._events b = ["newListener"; "removeListener"].
Proof.
  intros Hall. unfold deserialize.
  rewrite toString_ascii_serialize by done.
  destruct (deserialize_each_serialize bricks Hall st)
    as (st' & bricks' & Hret & _).
  exists st', bricks'. split; [done|].
  apply deserialize_each_fresh in Hret as (A1 & A2 & A3 & A4 & A5).
  assert (length (serialize bricks) = length bricks) as Hlen
    by (unfold serialize; apply length_map).
  rewrite Hlen in A1, A2.
  split_and!; try done.
  intros i b Hb. specialize (A5 i b Hb). unfold untouched in A5.
  unfold Brick.timers.
  injection A5 as E1 E2 E3 E4 E5 E6 E7 E8 E9.
  rewrite E1, E2, E3, E4, E5, E6, E7, E8, E9. by split_and!.
Qed.

Lemma deserialize_each_app (data1 data2 : list object) :
  forall st,
    deserialize_each st (data1 ++ data2)
    = match deserialize_each st data1 with
      | Returns (st1, bricks1) =>
          match deserialize_each st1 data2 with
          | Returns (st2, bricks2) => Returns (st2, (bricks1 ++ bricks2)%list)
          | Throws => Throws
          | OutOfModel => OutOfModel
          end
      | Throws => Throws
      | OutOfModel => OutOfModel
      end.
Proof.
  induction data1 as [|o data1 IH]; intros st; cbn [app deserialize_each].
  - by destruct (deserialize_each st data2) as [[]| |].
  - destruct (Brick.constructor st _ _ _) as [st1 newBrick].
    destruct (assign_all o newBrick); try done.
    rewrite IH.
    destruct (deserialize_each st1 data1) as [[st2 bs]| |]; try done.
    by destruct (deserialize_each st2 data2) as [[]| |].
Qed.

Lemma data_of_click (b : Brick.t) (d : float) :
  Brick.clickable b = false ->
  data_of (Brick.set_clickDistance d (Brick.set_clickable true b))
  = (data_of b
     ++ [("clickable", VBool true); ("clickDistance", VNumber d)])%list.
Proof.
  intros Hc. unfold data_of. cbn. rewrite Hc.
  by rewrite app_nil_r, <- !app_assoc.
Qed.

Lemma stringify_click (d : float) :
  finite d = false ->
  stringify_object [("clickable", VBool true); ("clickDistance", VNumber d)]
  = [("clickable", VBool true); ("clickDistance", VNull)].
Proof.
  unfold finite. rewrite negb_false_iff. intros Hd.
  unfold stringify_object. cbn -[is_nan is_infinity is_zero]. by rewrite Hd.
Qed.

(** X23.  [serialize] writes a click distance that is NaN or
    infinite as null, and [deserialize] throws on it.  For every list of
    bricks that the serialized form can hold except that one brick was made
    clickable with a distance that is not finite, [deserialize] of
    [serialize] of the list throws. *)
Theorem nonfinite_click_distance_throws (st : Statics)
    (before after : list Brick.t) (b : Brick.t) (d : float) :
  Forall (fun b => portable b = true) before ->
  Forall (fun b => portable b = true) after ->
  portable b = true ->
  Brick.clickable b = false ->
  finite d = false ->
  deserialize st
    (serialize
       (before
        ++ Brick.set_clickDistance d (Brick.set_clickable true b) :: after))
  = Throws.
Proof.
  intros Hbefore Hafter Hb Hc Hd.
  set (b' := Brick.set_clickDistance d (Brick.set_clickable true b)).
  assert (Ho : stringify_object (data_of b')
               = (stringify_object (data_of b)
                  ++ [("clickable", VBool true); ("clickDistance", VNull)])%list).
  { subst b'. by rewrite data_of_click, stringify_app, stringify_click. }
  unfold deserialize, serialize, Buffer.
  rewrite map_app. cbn [map].
  set (data := (map (fun brick => stringify_object (data_of brick)) before
                ++ stringify_object (data_of b')
                   :: map (fun brick => stringify_object (data_of brick))
                        after)%list).
  assert (Hascii : toString_ascii data = Returns data).
  { unfold toString_ascii. subst data.
    rewrite forallb_app. cbn [forallb].
    pose proof (toString_ascii_serialize before Hbefore) as H1.
    pose proof (toString_ascii_serialize after Hafter) as H2.
    unfold toString_ascii, serialize, Buffer in H1, H2.
    destruct (forallb _ (map _ before)); [|done].
    destruct (forallb _ (map _ after)); [|done].
    rewrite Ho, forallb_app, (serialized_seven_bit b Hb). done. }
  rewrite Hascii. subst data. rewrite deserialize_each_app.
  destruct (deserialize_each_serialize before Hbefore st)
    as (st1 & bricks1 & H1 & _).
  unfold serialize, Buffer in H1. rewrite H1.
  cbn [deserialize_each].
  destruct (Brick.constructor st1 _ _ _) as [st2 newBrick].
  rewrite Ho, assign_all_app, (assign_data b _ Hb). done.
Qed.
End Deserialize.

(** ** Respawning *)

(** X24.  [respawn()] takes the tool out of the player's hand without a
    word to the tool.  For a player who holds [tool]: after [respawn()]
    the player is alive with [health = maxHealth], stands at
    [spawnPosition] (at the position the spawn handler chose when none is
    set), holds nothing and has the inventory they had; no tool received
    an event.  A following [equipTool(other)] resolves and puts [other]
    in hand, and the tool events of the two calls do not replay from
    [tool] in hand: "equipped" reaches [other] while [tool] never got
    "unequipped". *)
Theorem respawn_drops_tool_silently (this : ref) (chosen : Vector3.t)
    (p : Player.living) (tool other : ref) :
  Player.toolEquipped (Player.session p) = Some tool ->
  let '(p1, log) := Player.respawn this chosen p in
  Player.alive (Player.session p1) = true
  /\ Player.health p1 = Player.maxHealth p
  /\ Player.position (Player.session p1)
     = default chosen (Player.spawnPosition p)
  /\ Player.toolEquipped (Player.session p1) = None
  /\ Player.inventory (Player.session p1)
     = Player.inventory (Player.session p)
  /\ Player.tool_events log = []
  /\ exists s2 log2,
       Player.equipTool other (Player.session p1) = JS.Resolved (s2, log2)
       /\ Player.toolEquipped s2 = Some other
       /\ Player.replay (Some tool) (Player.tool_events log ++ log2) = None.
Proof.
  intros Hheld. unfold Player.respawn, Player.setPosition. cbn.
  split_and!; try done.
  - by destruct (Player.spawnPosition p) as [[]|], chosen.
  - unfold Player.equipTool, Player.addTool. cbn.
    destruct (bool_decide (other ∈ Player.inventory (Player.session p)));
      cbn; eexists _, _; split_and!; try done.
Qed.

(** ** The local bricks of a player *)

Section LocalBricks.
Import Brick.

Lemma cleanup_packets (this : ref) (w : world) :
  packets (_cleanup this w) = packets w.
Proof.
  assert (forall steps w',
            packets (js_clearIntervals steps w') = packets w') as Hsteps.
  { unfold js_clearIntervals. induction steps as [|h steps IH]; [done|].
    intros w'. cbn [fold_left]. by rewrite IH. }
  assert (forall h w', packets (js_clearInterval h w') = packets w')
    as Hclear by (by intros [h|]).
  unfold _cleanup. cbv zeta. rewrite Hsteps.
  unfold removeAllListeners.
  destruct (bool_decide _ && bool_decide _); cbn; by rewrite !Hclear.
Qed.

(** [destroy()] of a brick that is not destroyed, by the collection it
    is taken from. *)
Lemma destroy_resolves (this : ref) (w : world) :
  destroyed (brick_store w this) = false ->
  exists w',
    destroy this w = JS.Resolved w'
    /\ match socket (brick_store w this) with
       | Some s =>
           bricks w' = bricks w
           /\ player_store w'
              = <[s := Player.set_localBricks
                         (remove_at_indexOf this
                            (Player.localBricks (player_store w s)))
                         (player_store w s)]> (player_store w)
       | None =>
           bricks w' = remove_at_indexOf this (bricks w)
           /\ player_store w' = player_store w
       end
    /\ packets w'
       = (packets w
          ++ [{| packet_netId := netId (brick_store w this);
                 packet_modification := "destroy";
                 packet_socket := socket (brick_store w this) |}])%list
    /\ forall h, h ∈ intervals w'
                 <-> h ∈ intervals w /\ h ∉ timers (brick_store w this).
Proof.
  intros Hlive. unfold destroy. rewrite Hlive.
  destruct (cleanup_spec this w) as (A1 & A2 & A3 & A4).
  destruct (cleanup_durable this this w) as [A5 _].
  pose proof (cleanup_packets this w) as A6.
  unfold kept in A3. injection A3 as E1 E2 E3 E4.
  eexists. split; [reflexivity|].
  rewrite E1.
  destruct (socket (brick_store w this)) as [s|];
    unfold createBrickPacket; cbn;
    rewrite ?A1, ?A2, ?A5, ?A6, ?E1; split_and!; try done.
Qed.

Lemma clone_fresh (st : Statics) (b : t) :
  brickId (fst (clone st b)) = JS.incr (brickId st)
  /\ netId (snd (clone st b)) = Some (JS.incr (brickId st))
  /\ socket (snd (clone st b)) = None
  /\ destroyed (snd (clone st b)) = false
  /\ timers (snd (clone st b)) = [].
Proof. unfold clone, constructor. cbn -[JS.incr]. done. Qed.

(** X25.  A local brick from creation to destruction.  [newBrick(brick)]
    on a player, the clone being a new object: one packet of the clone
    goes to the player's socket; [brick] and [Game.world.bricks] are as
    before; the clone has the player's socket and the next brick id, and
    is the last of the player's local bricks.  [destroy()] of the clone
    then resolves: the local bricks of the player are those before
    [newBrick], the other players, the bricks of the world and the
    intervals are untouched, and the one packet sent carries the clone's
    id and goes to the player's socket. *)
Theorem local_brick_lifecycle (st : Statics) (localBrick brick this : ref)
    (w : world) :
  localBrick <> brick ->
  localBrick ∉ Player.localBricks (player_store w this) ->
  let '(st1, w1, log) := PlayerBricks.newBrick st localBrick brick this w in
  log = [PlayerBricks.LoadBricksPacket [localBrick] this]
  /\ brick_store w1 brick = brick_store w brick
  /\ bricks w1 = bricks w
  /\ socket (brick_store w1 localBrick) = Some this
  /\ netId (brick_store w1 localBrick) = Some (brickId st1)
  /\ brickId st1 = JS.incr (brickId st)
  /\ Player.localBricks (player_store w1 this)
     = (Player.localBricks (player_store w this) ++ [localBrick])%list
  /\ exists w2,
       destroy localBrick w1 = JS.Resolved w2
       /\ Player.localBricks (player_store w2 this)
          = Player.localBricks (player_store w this)
       /\ (forall q, q <> this -> player_store w2 q = player_store w q)
       /\ bricks w2 = bricks w
       /\ intervals w2 = intervals w
       /\ packets w2
          = (packets w
             ++ [{| packet_netId := Some (brickId st1);
                    packet_modification := "destroy";
                    packet_socket := Some this |}])%list.
Proof.
  intros Hne Hfresh. unfold PlayerBricks.newBrick.
  destruct (clone_fresh st (brick_store w brick)) as (C1 & C2 & C3 & C4 & C5).
  destruct (clone st (brick_store w brick)) as [st1 b]. cbn [fst snd] in *.
  set (w1 := Game.update_player _ _ _).
  assert (brick_store w1 localBrick = set_socket (Some this) b) as Hlocal.
  { unfold w1, Game.update_player, update. cbn. by rewrite !fn_lookup_insert. }
  assert (brick_store w1 brick = brick_store w brick) as Hbrick.
  { unfold w1, Game.update_player, update. cbn.
    by rewrite !fn_lookup_insert_ne. }
  assert (player_store w1 this
          = Player.set_localBricks
              (Player.localBricks (player_store w this) ++ [localBrick])%list
              (player_store w this)) as Hthis.
  { unfold w1, Game.update_player, update. cbn. by rewrite fn_lookup_insert. }
  assert (forall q, q <> this -> player_store w1 q = player_store w q)
    as Hothers.
  { intros q Hq. unfold w1, Game.update_player, update. cbn.
    by rewrite fn_lookup_insert_ne. }
  assert (bricks w1 = bricks w /\ intervals w1 = intervals w
          /\ packets w1 = packets w) as (Hbricks & Hintervals & Hpackets)
    by done.
  clearbody w1. cbv beta iota.
  destruct (destroy_resolves localBrick w1) as (w2 & D1 & D2 & D3 & D4).
  { by rewrite Hlocal. }
  rewrite Hlocal in D2, D3, D4.
  change (socket (set_socket (Some this) b)) with (Some this) in D2, D3.
  change (netId (set_socket (Some this) b)) with (netId b) in D3.
  change (timers (set_socket (Some this) b)) with (timers b) in D4.
  destruct D2 as [D2 D2']. rewrite Hlocal.
  split_and!; try done.
  - cbn. by rewrite C2, C1.
  - by rewrite Hthis.
  - exists w2. split_and!.
    + done.
    + rewrite D2', fn_lookup_insert, Hthis. cbn.
      by rewrite remove_at_indexOf_snoc.
    + intros q Hq. rewrite D2', fn_lookup_insert_ne by done.
      by apply Hothers.
    + by rewrite D2.
    + apply set_eq. intros h. rewrite D4, C5, Hintervals. set_solver.
    + by rewrite D3, Hpackets, C2, C1.
Qed.

(** X26.  [loadBricks(bricks)] does not bind a brick to the player.  For
    a brick [b] of no socket that is not destroyed: after
    [loadBricks([b])] the brick is the last of the player's local bricks
    and still has no socket, so that [destroy()] of it resolves, takes it
    out of [Game.world.bricks] (its first occurrence, if there is one)
    and broadcasts the packet, and leaves it among the player's local
    bricks, destroyed and with a null netId. *)
Theorem loadBricks_does_not_bind (b this : ref) (w : world) :
  socket (brick_store w b) = None ->
  destroyed (brick_store w b) = false ->
  let '(w1, log) := PlayerBricks.loadBricks [b] this w in
  log = [PlayerBricks.LoadBricksPacket [b] this]
  /\ Player.localBricks (player_store w1 this)
     = (Player.localBricks (player_store w this) ++ [b])%list
  /\ brick_store w1 = brick_store w
  /\ exists w2,
       destroy b w1 = JS.Resolved w2
       /\ Player.localBricks (player_store w2 this)
          = (Player.localBricks (player_store w this) ++ [b])%list
       /\ destroyed (brick_store w2 b) = true
       /\ netId (brick_store w2 b) = None
       /\ bricks w2 = remove_at_indexOf b (bricks w)
       /\ packets w2
          = (packets w
             ++ [{| packet_netId := netId (brick_store w b);
                    packet_modification := "destroy";
                    packet_socket := None |}])%list.
Proof.
  intros Hsock Hlive. unfold PlayerBricks.loadBricks.
  set (w1 := Game.update_player _ _ _).
  assert (player_store w1 this
          = Player.set_localBricks
              (Player.localBricks (player_store w this) ++ [b])%list
              (player_store w this)) as Hthis.
  { unfold w1, Game.update_player. cbn. by rewrite fn_lookup_insert. }
  cbv beta iota. split_and!; [done|by rewrite Hthis|done|].
  destruct (destroy_resolves b w1) as (w2 & D1 & D2 & D3 & D4); [done|].
  change (brick_store w1) with (brick_store w) in D2, D3.
  rewrite Hsock in D2, D3. destruct D2 as [D2 D2'].
  destruct (destroy_store b w1 w2 D1) as (S1 & S2 & S3).
  exists w2. split_and!; try done.
  by rewrite D2', Hthis.
Qed.

End LocalBricks.

(** ** The calls that describe a brick *)

Section BrickPackets.
Import PacketBuilder SendBrick.
Variable hexToDec : string -> JS.value.
Variable resolves : JS.value -> bool.

Lemma addBrickProperties_eq (packet : list field) (b : Brick.t) :
  addBrickProperties hexToDec resolves packet b
  = if truthy_number (Brick.model b)
       && negb (resolves (number_value (Brick.model b)))
    then None
    else Some (packet ++ brick_head hexToDec b ++ payload hexToDec b)%list.
Proof.
  unfold addBrickProperties, writeAsset, brick_head, attributes, payload,
    write_attribute. cbv zeta.
  destruct (truthy_string (Brick.shape b)), (Brick.lightEnabled b),
    (negb (Brick.collision b)), (Brick.clickable b),
    (truthy_number (Brick.model b));
    cbv [String.append]; cbn;
    try destruct (resolves (number_value (Brick.model b))); cbn;
    by rewrite <- ?app_assoc.
Qed.

Lemma brick_attributes_flags (b1 b2 : Brick.t) :
  attributes b1 = attributes b2 -> flags b1 = flags b2.
Proof.
  unfold attributes, flags. cbv zeta.
  destruct (truthy_string (Brick.shape b1)), (Brick.lightEnabled b1),
    (negb (Brick.collision b1)), (Brick.clickable b1),
    (truthy_number (Brick.model b1)),
    (truthy_string (Brick.shape b2)), (Brick.lightEnabled b2),
    (negb (Brick.collision b2)), (Brick.clickable b2),
    (truthy_number (Brick.model b2));
    vm_compute; congruence.
Qed.

Lemma string_value_inj (s1 s2 : option string) :
  truthy_string s1 = true -> string_value s1 = string_value s2 -> s1 = s2.
Proof. destruct s1, s2; cbn; (done || congruence). Qed.

Lemma number_value_inj (n1 n2 : option float) :
  truthy_number n1 = true -> number_value n1 = number_value n2 -> n1 = n2.
Proof. destruct n1, n2; cbn; (done || congruence). Qed.

Lemma brick_calls_inj (b1 b2 : Brick.t) (rest1 rest2 : list field) :
  ((brick_head hexToDec b1 ++ payload hexToDec b1) ++ rest1
   = (brick_head hexToDec b2 ++ payload hexToDec b2) ++ rest2)%list ->
  described hexToDec b1 = described hexToDec b2 /\ rest1 = rest2.
Proof.
  unfold brick_head, payload. rewrite <- !app_assoc. cbn [app].
  intros [= Hid Hpx Hpy Hpz Hsx Hsy Hsz Hcolor Hvis Hattr Hrx Hry Hrz Hrest].
  apply brick_attributes_flags in Hattr. unfold flags in Hattr.
  injection Hattr as Hshape Hlight Hcoll Hclick Hmodel.
  assert (Brick.collision b1 = Brick.collision b2) as Hcoll'
    by (by destruct (Brick.collision b1), (Brick.collision b2)).
  assert (Brick.position b1 = Brick.position b2) as Hpos.
  { destruct (Brick.position b1), (Brick.position b2). cbn in *. congruence. }
  assert (Brick.scale b1 = Brick.scale b2) as Hscale.
  { destruct (Brick.scale b1), (Brick.scale b2). cbn in *. congruence. }
  assert (Brick.rotation b1 = Brick.rotation b2) as Hrot.
  { destruct (Brick.rotation b1), (Brick.rotation b2). cbn in *. congruence. }
  unfold described.
  rewrite Hid, Hpos, Hscale, Hcolor, Hvis, Hrot, Hcoll'.
  rewrite <- Hshape, <- Hlight, <- Hclick, <- Hmodel in *.
  destruct (truthy_string (Brick.shape b1)) eqn:Es,
    (Brick.lightEnabled b1) eqn:El,
    (Brick.clickable b1) eqn:Ec,
    (truthy_number (Brick.model b1)) eqn:Em;
    cbn [app] in Hrest; simplify_eq;
    repeat match goal with
           | H : string_value _ = string_value _ |- _ =>
               apply string_value_inj in H; [|done]
           | H : number_value _ = number_value _ |- _ =>
               apply number_value_inj in H; [|done]
           end;
    split; congruence.
Qed.

(** X27.  The calls of [write] and [writeAsset] that [addBrickProperties]
    makes for a brick, with the values it hands over, can be read back
    in one way only.  The function returns unless the brick has a truthy
    model whose asset is not resolved; it only adds calls after those
    already made on the packet.  If the calls made for [b1] after
    [packet], followed by [rest1], are those made for [b2] after
    [packet], followed by [rest2], then the two bricks agree on what
    the calls describe (netId, position, scale, the code of the color,
    visibility, rotation, collision, a truthy shape or model, the light
    settings of a light that is on, the click distance of a brick that
    can be clicked), and [rest1 = rest2]: the calls for a brick end
    where the attribute string says.  This is a property of what is
    handed to the packet, not of the bytes made of it. *)
Theorem addBrickProperties_unambiguous (packet : list field)
    (b1 b2 : Brick.t) (calls1 calls2 rest1 rest2 : list field) :
  addBrickProperties hexToDec resolves packet b1 = Some calls1 ->
  addBrickProperties hexToDec resolves packet b2 = Some calls2 ->
  (calls1 ++ rest1 = calls2 ++ rest2)%list ->
  described hexToDec b1 = described hexToDec b2
  /\ rest1 = rest2
  /\ calls1 = (packet ++ brick_head hexToDec b1 ++ payload hexToDec b1)%list
  /\ (truthy_number (Brick.model b1) = true ->
      resolves (number_value (Brick.model b1)) = true)
  /\ (forall b,
        addBrickProperties hexToDec resolves packet b = None
        <-> truthy_number (Brick.model b) = true
            /\ resolves (number_value (Brick.model b)) = false).
Proof.
  rewrite !addBrickProperties_eq.
  destruct (truthy_number (Brick.model b1)
            && negb (resolves (number_value (Brick.model b1)))) eqn:E1;
    [done|].
  destruct (truthy_number (Brick.model b2)
            && negb (resolves (number_value (Brick.model b2)))) eqn:E2;
    [done|].
  intros [= <-] [= <-]. rewrite <- !app_assoc.
  intros H%app_inv_head.
  change (((brick_head hexToDec b1 ++ payload hexToDec b1) ++ rest1
           = (brick_head hexToDec b2 ++ payload hexToDec b2) ++ rest2)%list)
    in H.
  apply brick_calls_inj in H as [Hd Hr].
  split_and!; [done | done | done | |].
  - intros Ht. rewrite Ht in E1. cbn in E1.
    by apply negb_false_iff in E1.
  - intros b. rewrite addBrickProperties_eq.
    destruct (truthy_number (Brick.model b)),
      (resolves (number_value (Brick.model b))); cbn; intuition congruence.
Qed.

End BrickPackets.

(** ** The theorems at concrete inputs *)

Lemma intersects_nan_witness :
  Brick.intersects
    (Brick.set_position (Vector3.new nan 0 0) Examples.brick0) Examples.brick0
  = false
  /\ Brick.intersects Examples.brick0
       (Brick.set_position (Vector3.new nan 0 0) Examples.brick0)
     = false
  /\ Brick.intersects
       (Brick.set_position (Vector3.new nan 0 0) Examples.brick0)
       (Brick.set_position (Vector3.new nan 0 0) Examples.brick0)
     = false.
Proof.
  apply (intersects_nan
           (Brick.set_position (Vector3.new nan 0 0) Examples.brick0)
           Examples.brick0).
  vm_compute. reflexivity.
Defined.

Lemma setters_after_destroy_witness :
  exists w',
    Brick.destroy 1 Examples.brick_world = JS.Resolved w'
    /\ (forall cs, exists sent,
          Brick.packets (fold_left (Brick.setter_step 1) cs w')
          = (Brick.packets w' ++ sent)%list
          /\ Forall (fun p => Brick.packet_netId p = None
                              /\ Brick.packet_socket p = None) sent)
    /\ (forall color,
          color = Brick.color (Brick.brick_store (Brick.setColor color 1 w') 1)
          /\ Brick.packets (Brick.setColor color 1 w')
             = (Brick.packets w'
                ++ [{| Brick.packet_netId := None;
                       Brick.packet_modification := "col";
                       Brick.packet_socket := None |}])%list).
Proof.
  apply (setters_after_destroy 1 Examples.brick_world). reflexivity.
Defined.

Lemma hit_monitor_never_leaks_witness :
  Brick.monitor_accounted 1 (Brick.intervals Examples.fresh_world)
    (fold_left (Brick.listener_step 1)
       [Brick.On "touchingEnded"; Brick.On "touching"; Brick.Off "touching";
        Brick.On "touching"; Brick.Off "touchingEnded"]
       Examples.fresh_world)
  /\ ("touching"
        ∈ Brick._events
            (Brick.brick_store
               (fold_left (Brick.listener_step 1)
                  [Brick.On "touchingEnded"; Brick.On "touching";
                   Brick.Off "touching"; Brick.On "touching";
                   Brick.Off "touchingEnded"]
                  Examples.fresh_world) 1) ->
      Brick._hitMonitorActive
        (Brick.brick_store
           (fold_left (Brick.listener_step 1)
              [Brick.On "touchingEnded"; Brick.On "touching";
               Brick.Off "touching"; Brick.On "touching";
               Brick.Off "touchingEnded"]
              Examples.fresh_world) 1)
      = true).
Proof.
  apply (hit_monitor_never_leaks 1 Examples.fresh_world).
  - vm_compute. set_solver.
  - vm_compute. set_solver.
  - vm_compute. set_solver.
  - reflexivity.
  - intros h Hh. cbn in Hh. set_solver.
  - repeat first [apply Forall_cons; split | apply Forall_nil]; by split.
Defined.

Lemma last_touching_listener_stops_monitor_witness :
  Brick._hitMonitorActive
    (Brick.brick_store
       (Brick.off "touching" 1
          (Brick.on "touching" 1
             (Brick.on "touchingEnded" 1 Examples.fresh_world))) 1)
  = false
  /\ (forall h,
        Brick._hitMonitor
          (Brick.brick_store
             (Brick.on "touching" 1
                (Brick.on "touchingEnded" 1 Examples.fresh_world)) 1)
        = Some h ->
        h ∉ Brick.intervals
              (Brick.off "touching" 1
                 (Brick.on "touching" 1
                    (Brick.on "touchingEnded" 1 Examples.fresh_world))))
  /\ (forall event,
        event <> "touching" ->
        event
          ∈ Brick._events
              (Brick.brick_store
                 (Brick.on "touching" 1
                    (Brick.on "touchingEnded" 1 Examples.fresh_world)) 1) ->
        event
          ∈ Brick._events
              (Brick.brick_store
                 (Brick.off "touching" 1
                    (Brick.on "touching" 1
                       (Brick.on "touchingEnded" 1 Examples.fresh_world)))
                 1)).
Proof.
  apply (last_touching_listener_stops_monitor 1
           (Brick.on "touching" 1
              (Brick.on "touchingEnded" 1 Examples.fresh_world))).
  - vm_compute. set_solver.
  - vm_compute. set_solver.
  - vm_compute. set_solver.
Defined.

Lemma newBrick_twice_then_destroy_witness :
  exists w',
    Brick.destroy 1
      (fst (Game.newBrick 1 (fst (Game.newBrick 1 Examples.fresh_world))))
    = JS.Resolved w'
    /\ 1%nat ∈ Brick.bricks w'
    /\ Brick.destroyed (Brick.brick_store w' 1) = true
    /\ Brick.netId (Brick.brick_store w' 1) = None.
Proof.
  apply (newBrick_twice_then_destroy 1 Examples.fresh_world); reflexivity.
Defined.

Lemma loadBrk_accepts_any_continuation_witness :
  exists s,
    LoadBrk.loadBrk Examples.Number Examples.js_rem Examples.convertRGB
      Examples.rgbToHex process_start LoadBrk.Sun
      (LoadBrk.HEADER ++ String LoadBrk.LF "0 0 0 5 5 5 255 255 255 1")
    = LoadBrk.Loaded s
    /\ LoadBrk.bricks s <> []
    /\ exists s',
         LoadBrk.loadBrk Examples.Number Examples.js_rem Examples.convertRGB
           Examples.rgbToHex process_start LoadBrk.Sun
           ((LoadBrk.HEADER ++ String LoadBrk.LF "0 0 0 5 5 5 255 255 255 1")
            ++ String LoadBrk.LF "+NAME door")
         = LoadBrk.Loaded s'
         /\ (length (LoadBrk.bricks s) <= length (LoadBrk.bricks s'))%nat.
Proof.
  eexists. split; [vm_compute; reflexivity|]. split; [by vm_compute|].
  apply (loadBrk_accepts_any_continuation Examples.Number Examples.js_rem
           Examples.convertRGB Examples.rgbToHex process_start LoadBrk.Sun);
    [vm_compute; reflexivity | by vm_compute].
Defined.

Lemma attribute_before_brick_throws_witness :
  LoadBrk.loadBrk Examples.Number Examples.js_rem Examples.convertRGB
    Examples.rgbToHex process_start LoadBrk.Sun
    (LoadBrk.HEADER ++ String LoadBrk.LF "+NAME door")
  = LoadBrk.TypeError
  /\ LoadBrk.loadBrk Examples.Number Examples.js_rem Examples.convertRGB
       Examples.rgbToHex process_start LoadBrk.Sun
       (LoadBrk.HEADER
        ++ String LoadBrk.LF
             ("+NAME door"
              ++ String LoadBrk.LF "0 0 0 5 5 5 255 255 255 1"))
     = LoadBrk.TypeError.
Proof.
  eapply (attribute_before_brick_throws Examples.Number Examples.js_rem
            Examples.convertRGB Examples.rgbToHex process_start LoadBrk.Sun
            LoadBrk.HEADER "+NAME door" "0 0 0 5 5 5 255 255 255 1").
  - vm_compute. reflexivity.
  - vm_compute. reflexivity.
  - left. vm_compute. reflexivity.
  - vm_compute. reflexivity.
  - vm_compute. set_solver.
Defined.

Lemma environment_lines_take_anything_witness :
  exists s,
    LoadBrk.loadBrk Examples.Number Examples.js_rem Examples.convertRGB
      Examples.rgbToHex process_start LoadBrk.Sun
      (LoadBrk.HEADER ++ String LoadBrk.LF "")
    = LoadBrk.Loaded s
    /\ exists s',
         LoadBrk.loadBrk Examples.Number Examples.js_rem Examples.convertRGB
           Examples.rgbToHex process_start LoadBrk.Sun
           ((LoadBrk.HEADER ++ String LoadBrk.LF "")
            ++ String LoadBrk.LF "0 0 0 5 5 5 255 255 255 1")
         = LoadBrk.Loaded s'
         /\ LoadBrk.bricks s' = LoadBrk.bricks s
         /\ LoadBrk.spawns s' = LoadBrk.spawns s
         /\ LoadBrk.tools s' = LoadBrk.tools s
         /\ LoadBrk.teams s' = LoadBrk.teams s
         /\ LoadBrk.statics s' = LoadBrk.statics s.
Proof.
  eexists. split; [vm_compute; reflexivity|].
  apply (environment_lines_take_anything Examples.Number Examples.js_rem
           Examples.convertRGB Examples.rgbToHex process_start LoadBrk.Sun).
  - vm_compute. reflexivity.
  - vm_compute. lia.
  - vm_compute. reflexivity.
Defined.

Lemma deserialize_gives_new_bricks_witness :
  Forall (fun b => Serialize.portable b = true)
    [Examples.door; Brick.set_destroyed true Examples.brick0]
  /\ exists st' bricks',
       Serialize.deserialize process_start
         (Serialize.serialize
            [Examples.door; Brick.set_destroyed true Examples.brick0])
       = Serialize.Returns (st', bricks')
       /\ length bricks'
          = length [Examples.door; Brick.set_destroyed true Examples.brick0]
       /\ brickId st'
          = Nat.iter
              (length [Examples.door; Brick.set_destroyed true Examples.brick0])
              JS.incr (brickId process_start)
       /\ playerId st' = playerId process_start
       /\ soundEmitterId st' = soundEmitterId process_start
       /\ forall i b,
            bricks' !! i = Some b ->
            Brick.netId b
            = Some (Nat.iter (S i) JS.incr (brickId process_start))
            /\ Brick.destroyed b = false
            /\ Brick.socket b = None
            /\ Brick.shape b = None
            /\ Brick.timers b = []
            /\ Brick._playersTouching b = ∅
            /\ Brick._hitMonitorActive b = false
            /\ Brick._events b = ["newListener"; "removeListener"].
Proof.
  assert (Forall (fun b => Serialize.portable b = true)
            [Examples.door; Brick.set_destroyed true Examples.brick0]) as Hall
    by (repeat constructor).
  split; [exact Hall|].
  apply (deserialize_gives_new_bricks process_start
           [Examples.door; Brick.set_destroyed true Examples.brick0]), Hall.
Defined.

Lemma nonfinite_click_distance_throws_witness :
  Serialize.deserialize process_start
    (Serialize.serialize
       ([Examples.door]
        ++ Brick.set_clickDistance infinity
             (Brick.set_clickable true Examples.brick0)
           :: [Examples.brick0]))
  = Serialize.Throws.
Proof.
  apply (nonfinite_click_distance_throws process_start [Examples.door]
           [Examples.brick0] Examples.brick0 infinity);
    try reflexivity; repeat constructor.
Defined.

Lemma respawn_drops_tool_silently_witness :
  let '(p1, log) :=
    Player.respawn 1 (Vector3.new 0 5 0) Examples.fighter in
  Player.alive (Player.session p1) = true
  /\ Player.health p1 = Player.maxHealth Examples.fighter
  /\ Player.position (Player.session p1)
     = default (Vector3.new 0 5 0) (Player.spawnPosition Examples.fighter)
  /\ Player.toolEquipped (Player.session p1) = None
  /\ Player.inventory (Player.session p1)
     = Player.inventory (Player.session Examples.fighter)
  /\ Player.tool_events log = []
  /\ exists s2 log2,
       Player.equipTool 8 (Player.session p1) = JS.Resolved (s2, log2)
       /\ Player.toolEquipped s2 = Some 8%nat
       /\ Player.replay (Some 7%nat) (Player.tool_events log ++ log2) = None.
Proof.
  apply (respawn_drops_tool_silently 1 (Vector3.new 0 5 0) Examples.fighter
           7 8).
  reflexivity.
Defined.

Lemma local_brick_lifecycle_witness :
  let '(st1, w1, log) :=
    PlayerBricks.newBrick process_start 2 1 1 Examples.fresh_world in
  log = [PlayerBricks.LoadBricksPacket [2%nat] 1]
  /\ Brick.brick_store w1 1 = Brick.brick_store Examples.fresh_world 1
  /\ Brick.bricks w1 = Brick.bricks Examples.fresh_world
  /\ Brick.socket (Brick.brick_store w1 2) = Some 1%nat
  /\ Brick.netId (Brick.brick_store w1 2) = Some (brickId st1)
  /\ brickId st1 = JS.incr (brickId process_start)
  /\ Player.localBricks (Brick.player_store w1 1)
     = (Player.localBricks (Brick.player_store Examples.fresh_world 1)
        ++ [2%nat])%list
  /\ exists w2,
       Brick.destroy 2 w1 = JS.Resolved w2
       /\ Player.localBricks (Brick.player_store w2 1)
          = Player.localBricks (Brick.player_store Examples.fresh_world 1)
       /\ (forall q, q <> 1%nat ->
              Brick.player_store w2 q
              = Brick.player_store Examples.fresh_world q)
       /\ Brick.bricks w2 = Brick.bricks Examples.fresh_world
       /\ Brick.intervals w2 = Brick.intervals Examples.fresh_world
       /\ Brick.packets w2
          = (Brick.packets Examples.fresh_world
             ++ [{| Brick.packet_netId := Some (brickId st1);
                    Brick.packet_modification := "destroy";
                    Brick.packet_socket := Some 1%nat |}])%list.
Proof.
  apply (local_brick_lifecycle process_start 2 1 1 Examples.fresh_world).
  - lia.
  - vm_compute. apply not_elem_of_nil.
Defined.

Lemma loadBricks_does_not_bind_witness :
  let '(w1, log) := PlayerBricks.loadBricks [1%nat] 1 Examples.fresh_world in
  log = [PlayerBricks.LoadBricksPacket [1%nat] 1]
  /\ Player.localBricks (Brick.player_store w1 1)
     = (Player.localBricks (Brick.player_store Examples.fresh_world 1)
        ++ [1%nat])%list
  /\ Brick.brick_store w1 = Brick.brick_store Examples.fresh_world
  /\ exists w2,
       Brick.destroy 1 w1 = JS.Resolved w2
       /\ Player.localBricks (Brick.player_store w2 1)
          = (Player.localBricks (Brick.player_store Examples.fresh_world 1)
             ++ [1%nat])%list
       /\ Brick.destroyed (Brick.brick_store w2 1) = true
       /\ Brick.netId (Brick.brick_store w2 1) = None
       /\ Brick.bricks w2
          = remove_at_indexOf 1%nat (Brick.bricks Examples.fresh_world)
       /\ Brick.packets w2
          = (Brick.packets Examples.fresh_world
             ++ [{| Brick.packet_netId :=
                      Brick.netId (Brick.brick_store Examples.fresh_world 1);
                    Brick.packet_modification := "destroy";
                    Brick.packet_socket := None |}])%list.
Proof.
  apply (loadBricks_does_not_bind 1 1 Examples.fresh_world); reflexivity.
Defined.

Lemma loadSounds_unambiguous_witness :
  map (fun sound =>
         SendSound.described
           (match sound with 1%nat => Examples.chime | _ => Examples.siren end))
    [1%nat; 2%nat]
  = map (fun sound =>
           SendSound.described
             (match sound with 5%nat => Examples.chime | _ => Examples.siren end))
      [5%nat; 6%nat]
  /\ [1%nat; 2%nat] <> []
  /\ Forall (fun sound =>
               (fun _ : JS.value => true)
                 (JS.Num
                    (SoundEmitter.sound
                       (match sound with
                        | 1%nat => Examples.chime
                        | _ => Examples.siren
                        end))) = true)
       [1%nat; 2%nat]
  /\ PacketBuilder.packetType
       {| PacketBuilder.packetType := "SendSoundEmitters";
          PacketBuilder.compression := true;
          PacketBuilder.fields :=
            PacketBuilder.WUint32 (Some 2)
            :: (SendSound.calls Examples.chime
                ++ SendSound.calls Examples.siren)%list |}
     = "SendSoundEmitters"
  /\ PacketBuilder.compression
       {| PacketBuilder.packetType := "SendSoundEmitters";
          PacketBuilder.compression := true;
          PacketBuilder.fields :=
            PacketBuilder.WUint32 (Some 2)
            :: (SendSound.calls Examples.chime
                ++ SendSound.calls Examples.siren)%list |}
     = true
  /\ PacketBuilder.fields
       {| PacketBuilder.packetType := "SendSoundEmitters";
          PacketBuilder.compression := true;
          PacketBuilder.fields :=
            PacketBuilder.WUint32 (Some 2)
            :: (SendSound.calls Examples.chime
                ++ SendSound.calls Examples.siren)%list |}
     = PacketBuilder.WUint32 (Some (Z.of_nat (length [1%nat; 2%nat])))
       :: concat
            (map (fun sound =>
                    SendSound.calls
                      (match sound with
                       | 1%nat => Examples.chime
                       | _ => Examples.siren
                       end))
               [1%nat; 2%nat]).
Proof.
  apply (loadSounds_unambiguous (fun _ => true)
           (fun v => match v with JS.Num _ => true | _ => false end)
           (fun sound =>
              match sound with 1%nat => Examples.chime | _ => Examples.siren end)
           (fun sound =>
              match sound with 5%nat => Examples.chime | _ => Examples.siren end)
           [1%nat; 2%nat] [5%nat; 6%nat]);
    vm_compute; reflexivity.
Defined.

Lemma addBrickProperties_unambiguous_witness :
  exists calls1,
    SendBrick.addBrickProperties Examples.hexToDec (fun _ => true)
      [PacketBuilder.WBool false] Examples.brick0 = Some calls1
    /\ SendBrick.described Examples.hexToDec Examples.brick0
       = SendBrick.described Examples.hexToDec
           (Brick.set_lightColor "#ffffff"
              (Brick.set_name (Some "door") Examples.brick0))
    /\ [PacketBuilder.WBool true] = [PacketBuilder.WBool true]
    /\ calls1
       = ([PacketBuilder.WBool false]
          ++ SendBrick.brick_head Examples.hexToDec Examples.brick0
          ++ SendBrick.payload Examples.hexToDec Examples.brick0)%list.
Proof.
  eexists. split; [reflexivity|].
  pose proof (addBrickProperties_unambiguous Examples.hexToDec (fun _ => true)
           [PacketBuilder.WBool false] Examples.brick0
           (Brick.set_lightColor "#ffffff"
              (Brick.set_name (Some "door") Examples.brick0))
           _ _ [PacketBuilder.WBool true] [PacketBuilder.WBool true]
           eq_refl eq_refl eq_refl) as (H1 & H2 & H3 & _).
  split_and!; [exact H1 | exact H2 | exact H3].
Defined.

Lemma tools_stay_consistent_witness :
  Player.tools_consistent (snd (Player.constructor process_start 0))
  /\ ((forall cs,
     let q := fold_left (fun q c => fst (Player.awaited c q)) cs (snd (Player.constructor process_start 0)) in
     Player.tools_consistent q
     /\ forall tool,
          (tool ∉ Player.inventory (fst (Player.awaited (Player.RemoveTool tool) q)))
          /\ Player.toolEquipped (fst (Player.awaited (Player.RemoveTool tool) q))
             <> Some tool)
  /\ (forall c q, Player.awaited c q = (Player.tool_step q c, []))
  /\ (forall actions,
        NoDup (Player.inventory (fst (fold_left Player.act actions ((snd (Player.constructor process_start 0)), [])))))
  /\ (forall tool,
        tool ∉ Player.inventory (snd (Player.constructor process_start 0)) ->
        Player.toolEquipped (snd (Player.constructor process_start 0)) = None ->
        let '(q, calls) :=
          fold_left Player.act
            [Player.Call (Player.EquipTool tool);
             Player.Call (Player.RemoveTool tool);
             Player.Resume 0; Player.Resume 0; Player.Resume 0]
            ((snd (Player.constructor process_start 0)), []) in
        Player.toolEquipped q = Some tool
        /\ (tool ∉ Player.inventory q)
        /\ calls = [[]; []])).
Proof.
  split; [split; [apply NoDup_nil_2 | done]|].
  apply (tools_stay_consistent (snd (Player.constructor process_start 0))).
  split; [apply NoDup_nil_2 | done].
Defined.

Lemma player_deleteBricks_removes_witness :
  NoDup (Player.localBricks Examples.builder)
  /\ ((forall bricks,
     Player.localBricks (fst (Player.deleteBricks (Another bricks) Examples.builder))
     = filter (fun b => b ∉ bricks) (Player.localBricks Examples.builder)
     /\ snd (Player.deleteBricks (Another bricks) Examples.builder) = bricks)
  /\ Player.localBricks (fst (Player.deleteBricks Itself Examples.builder))
     = at_odd (Player.localBricks Examples.builder)
  /\ snd (Player.deleteBricks Itself Examples.builder) = at_odd (Player.localBricks Examples.builder)
  /\ (forall n,
        Player.deleteBricks_own (length (Player.localBricks Examples.builder) + n) 0
          (Player.localBricks Examples.builder)
        = Player.deleteBricks_own (length (Player.localBricks Examples.builder)) 0
            (Player.localBricks Examples.builder))
  /\ (forall bricks l,
        Player.set_localBricks l (fst (Player.deleteBricks bricks Examples.builder))
        = Player.set_localBricks l Examples.builder)).
Proof.
  assert (NoDup (Player.localBricks Examples.builder)) as Hnd
    by (vm_compute; repeat constructor; set_solver).
  split; [exact Hnd|].
  apply (player_deleteBricks_removes Examples.builder), Hnd.
Defined.

Lemma deleteBricks_removes_witness :
  NoDup (Brick.bricks Examples.brick_world)
  /\ ((forall bs,
     let w' := fst (Game.deleteBricks (Another bs) Examples.brick_world) in
     Brick.bricks w' = filter (fun b => b ∉ bs) (Brick.bricks Examples.brick_world)
     /\ snd (Game.deleteBricks (Another bs) Examples.brick_world)
        = [Game.DeleteBricksPacket bs Broadcast]
     /\ (forall h,
           h ∈ Brick.intervals w'
           <-> h ∈ Brick.intervals Examples.brick_world
               /\ forall b, b ∈ bs ->
                    h ∉ Brick.timers (Brick.brick_store Examples.brick_world b)))
  /\ (let w' := fst (Game.deleteBricks Itself Examples.brick_world) in
      Brick.bricks w' = at_odd (Brick.bricks Examples.brick_world)
      /\ snd (Game.deleteBricks Itself Examples.brick_world)
         = [Game.DeleteBricksPacket (Brick.bricks Examples.brick_world) Broadcast]
      /\ (forall h,
            h ∈ Brick.intervals w'
            <-> h ∈ Brick.intervals Examples.brick_world
                /\ forall b, b ∈ at_even (Brick.bricks Examples.brick_world) ->
                     h ∉ Brick.timers (Brick.brick_store Examples.brick_world b))
      /\ (forall n,
            Game.deleteBricks_own (length (Brick.bricks Examples.brick_world) + n) 0 Examples.brick_world = w'))
  /\ (forall bricks r,
        let w' := fst (Game.deleteBricks bricks Examples.brick_world) in
        Brick.destroyed (Brick.brick_store w' r)
        = Brick.destroyed (Brick.brick_store Examples.brick_world r)
        /\ Brick.netId (Brick.brick_store w' r)
           = Brick.netId (Brick.brick_store Examples.brick_world r)
        /\ (Brick.destroyed (Brick.brick_store Examples.brick_world r) = false ->
            exists w'', Brick.destroy r w' = JS.Resolved w''))).
Proof.
  assert (NoDup (Brick.bricks Examples.brick_world)) as Hnd
    by (vm_compute; repeat constructor; set_solver).
  split; [exact Hnd|].
  apply (deleteBricks_removes Examples.brick_world), Hnd.
Defined.
